(** * What-to-Watch: the movie recommender of [recommending.py]

    A shallow embedding of the class [MovieRecommender] and a verification of
    its profile builder, similarity engine, neighbour finder and
    recommendation selector; then of the way it reads its JSON files and of
    the scraper of [scraping.py] that collects their content.

    - Python [float] is IEEE 754 binary64: [spec_float] with the operations
      of [SpecFloat] at precision 53 and maximal exponent 1024.
    - Python [int] is [Z]; [str] is [string] (the order on strings is the
      order on their bytes, which for UTF-8 is the order on code points).
    - A Python [dict] keeps its insertion order: an association list whose
      keys are pairwise distinct, updated in place.
    - A Python exception is a value of [exn]; a function that may raise
      returns a [result]. *)

From Stdlib Require Import ZArith List String Ascii Bool Lia.
From Stdlib Require Import DecimalString.
From Stdlib Require Import Permutation Sorted.
From Stdlib Require Import Floats.
Import ListNotations.

Local Open Scope Z_scope.
Local Open Scope list_scope.

(* ================================================================= *)
(** ** Exceptions *)

Inductive exn : Type :=
| KeyError
| ZeroDivisionError
| ValueError.

Inductive result (A : Type) : Type :=
| Ok (a : A)
| Raise (e : exn).

Arguments Ok {A} a.
Arguments Raise {A} e.

Definition bind {A B : Type} (m : result A) (k : A -> result B) : result B :=
  match m with
  | Ok a => k a
  | Raise e => Raise e
  end.

Notation "x <- m ;; k" := (bind m (fun x => k))
  (at level 61, m at next level, right associativity).
Notation "' p <- m ;; k" := (bind m (fun x => match x with p => k end))
  (at level 61, p pattern, m at next level, right associativity).

(** A [for] loop whose body may raise: the accumulator is threaded from
    left to right and the first exception leaves the loop. *)
Fixpoint for_each {A S : Type} (body : S -> A -> result S) (l : list A) (s : S)
  : result S :=
  match l with
  | [] => Ok s
  | a :: l' => s' <- body s a ;; for_each body l' s'
  end.

(* ================================================================= *)
(** ** Floating-point numbers *)

Module PyFloat.

Definition float : Type := spec_float.

Definition fadd : float -> float -> float := SF64add.
Definition fmul : float -> float -> float := SF64mul.
Definition fdiv : float -> float -> float := SF64div.
Definition fsqrt : float -> float := SF64sqrt.
Definition fneg : float -> float := SFopp.
Definition feqb : float -> float -> bool := SFeqb.
Definition fltb : float -> float -> bool := SFltb.

(** [0.0], and the literals the program and the examples use. *)
Definition zero : float := S754_zero false.
Definition lit (x : PrimFloat.float) : float := Prim2SF x.

Definition is_nan (x : float) : bool :=
  match x with S754_nan => true | _ => false end.

(** [float(n)] for a Python [int]: rounding to nearest, ties to even.
    (CPython raises [OverflowError] from 2^1024 on; the only integers the
    program converts are counts of dictionary entries.) *)
Definition of_int (n : Z) : float := binary_normalize prec emax n 0 false.

(** [x / y] on floats: a zero divisor raises. *)
Definition truediv (x y : float) : result float :=
  if feqb y zero then Raise ZeroDivisionError else Ok (fdiv x y).

(** [x / n] for an [int] [n]: [n] is converted and a zero divisor raises;
    no non-zero integer converts to zero. *)
Definition truediv_int (x : float) (n : Z) : result float :=
  if n =? 0 then Raise ZeroDivisionError else Ok (fdiv x (of_int n)).

(** [math.sqrt]: a negative argument (or minus infinity) is a domain
    error; [nan], [inf] and both zeros are returned unchanged. *)
Definition math_sqrt (x : float) : result float :=
  if fltb x zero then Raise ValueError else Ok (fsqrt x).

(** [sum(xs)]: the items are added from left to right to the start
    value [0]. (From CPython 3.12 on [sum] carries a compensation term for
    floats; it returns the same float wherever these additions are exact,
    as in the examples below.) *)
Definition sum (xs : list float) : float := fold_left fadd xs zero.

End PyFloat.
Import PyFloat.

(* ================================================================= *)
(** ** Dictionaries *)

Class Key (K : Type) : Type := {
  keyb : K -> K -> bool;
  keyb_eq : forall a b, keyb a b = true <-> a = b
}.

#[export] Instance Key_Z : Key Z :=
  {| keyb := Z.eqb; keyb_eq := Z.eqb_eq |}.

#[export] Instance Key_string : Key string :=
  {| keyb := String.eqb; keyb_eq := String.eqb_eq |}.

Module PyDict.
Section Dict.
Context {K V : Type} `{Key K}.

Definition dict : Type := list (K * V).

Definition keys (d : dict) : list K := map fst d.
Definition values (d : dict) : list V := map snd d.

(** A dictionary holds each key once. *)
Definition wf (d : dict) : Prop := NoDup (keys d).

(** [d.get(k)] *)
Fixpoint get (d : dict) (k : K) : option V :=
  match d with
  | [] => None
  | (k', v) :: d' => if keyb k' k then Some v else get d' k
  end.

(** [d.get(k, default)] *)
Definition get_default (d : dict) (k : K) (default : V) : V :=
  match get d k with Some v => v | None => default end.

(** [k in d] *)
Definition mem (d : dict) (k : K) : bool :=
  match get d k with Some _ => true | None => false end.

(** [d[k]] *)
Definition subscript (d : dict) (k : K) : result V :=
  match get d k with Some v => Ok v | None => Raise KeyError end.

(** [d[k] = v]: an existing key keeps its place, a new one goes last. *)
Fixpoint set (d : dict) (k : K) (v : V) : dict :=
  match d with
  | [] => [(k, v)]
  | (k', v') :: d' =>
      if keyb k' k then (k', v) :: d' else (k', v') :: set d' k v
  end.

(** [d.update(other)] *)
Definition update (d other : dict) : dict :=
  fold_left (fun acc kv => set acc (fst kv) (snd kv)) other d.

End Dict.
Arguments dict : clear implicits.
End PyDict.

(* ================================================================= *)
(** ** Lists, sets and sorting as Python has them *)

(** [l.sort(key=...)] is stable and compares keys with [<] only: every
    element is put before the first later element that is not smaller. For
    keys on which [<] is a strict weak order this is the one stable sorted
    arrangement, whatever algorithm computes it. Where a key holds nan,
    [<] is no such order, and the arrangement of CPython, which looks for
    runs and inserts by bisection, need not be this one: what is proved of
    the arrangement assumes keys without nan or is shown on inputs where
    the two agree, and the rest uses only that the result is a permutation
    of the list, as that of every sort is. *)
Section Sort.
Context {A K : Type} (lt : K -> K -> bool) (key : A -> K).

Fixpoint sort_insert (x : A) (l : list A) : list A :=
  match l with
  | [] => [x]
  | y :: l' =>
      if lt (key y) (key x) then y :: sort_insert x l' else x :: y :: l'
  end.

Definition py_sort (l : list A) : list A := fold_right sort_insert [] l.
End Sort.

(** [(a1, b1) < (a2, b2)] on tuples of a float and a string: the first
    components decide unless they are [==]. *)
Definition tuple_lt (k1 k2 : float * string) : bool :=
  if feqb (fst k1) (fst k2) then String.ltb (snd k1) (snd k2)
  else fltb (fst k1) (fst k2).

(** [s.add(x)] on a set of strings, kept as a list without repetition. *)
Definition set_add (s : list string) (x : string) : list string :=
  if existsb (String.eqb x) s then s else s ++ [x].

(** The order in which CPython iterates over [set(l1) & set(l2)] depends
    on the hashes of the strings, which change from one process to the
    next. The program is therefore parameterised by that order, and
    [set_and_ok] is all that is known of it: each common element once. *)
Definition set_and_ok (set_and : list string -> list string -> list string)
  : Prop :=
  forall l1 l2,
    NoDup (set_and l1 l2) /\
    (forall g, In g (set_and l1 l2) <-> In g l1 /\ In g l2).

(** One such order, that of the first operand. *)
Definition set_and_list (l1 l2 : list string) : list string :=
  filter (fun g => existsb (String.eqb g) l2) (nodup string_dec l1).

(* ================================================================= *)
(** ** The recommender *)

Import PyDict.

Definition profile : Type := dict string float.
Definition ratings : Type := dict Z float.
Definition catalog : Type := dict Z (string * list string).

Record MovieRecommender : Type := {
  movie_info : catalog;
  all_user_ratings : dict Z ratings;
  all_user_preferences : dict Z profile
}.

Section Recommender.

Variable set_and : list string -> list string -> list string.

(** *** [ratings_to_preferences] *)

(** The body of [for genre in genres]. *)
Definition tally_genre (score : float)
    (acc : dict string float * dict string Z) (genre : string)
  : dict string float * dict string Z :=
  let '(totals, counts) := acc in
  (set totals genre (fadd (get_default totals genre zero) score),
   set counts genre (get_default counts genre 0 + 1)).

(** The body of [for movie_id, score in user_ratings.items()]; the test
    [movie_id in self.movie_info] and the lookup it guards are one [get]. *)
Definition tally_movie (info : catalog)
    (acc : dict string float * dict string Z) (entry : Z * float)
  : dict string float * dict string Z :=
  let '(movie_id, score) := entry in
  match get info movie_id with
  | Some (_title, genres) => fold_left (tally_genre score) genres acc
  | None => acc
  end.

(** The body of [for genre, total in totals.items()]. *)
Definition average_genre (counts : dict string Z)
    (averages : profile) (entry : string * float) : result profile :=
  let '(genre, total) := entry in
  count <- subscript counts genre ;;
  average <- truediv_int total count ;;
  Ok (set averages genre average).

Definition ratings_to_preferences (info : catalog) (user_ratings : ratings)
  : result profile :=
  let '(totals, counts) := fold_left (tally_movie info) user_ratings ([], []) in
  for_each (average_genre counts) totals [].

(** *** [cosine_similarity] *)

Definition sum_squares (p : profile) : float :=
  sum (map (fun v => fmul v v) (values p)).

(** [sum(first[g] * second[g] for g in shared)] *)
Definition dot_product (first second : profile) (shared : list string)
  : result float :=
  for_each
    (fun acc g =>
       a <- subscript first g ;;
       b <- subscript second g ;;
       Ok (fadd acc (fmul a b)))
    shared zero.

Definition cosine_similarity (first second : profile) : result float :=
  let shared := set_and (keys first) (keys second) in
  match shared with
  | [] => Ok zero
  | _ :: _ =>
      dot <- dot_product first second shared ;;
      mag_first <- math_sqrt (sum_squares first) ;;
      mag_second <- math_sqrt (sum_squares second) ;;
      if feqb mag_first zero || feqb mag_second zero then Ok zero
      else truediv dot (fmul mag_first mag_second)
  end.

(** *** [find_similar_user_by_id] *)

(** The comparison of a candidate with the best one so far. *)
Definition is_better (similarity : float) (other_id : Z)
    (best : float * Z) : bool :=
  let better_similarity := fltb (fst best) similarity in
  let same_similarity :=
    feqb similarity (fst best) && (snd best <? other_id) in
  better_similarity || same_similarity.

(** The body of [for other_id, other_prefs in ...items()]. *)
Definition consider (user_id : Z) (target_prefs : profile)
    (best : float * Z) (entry : Z * profile) : result (float * Z) :=
  let '(other_id, other_prefs) := entry in
  if negb (other_id =? user_id) then
    similarity <- cosine_similarity target_prefs other_prefs ;;
    if is_better similarity other_id best then Ok (similarity, other_id)
    else Ok best
  else Ok best.

Definition minus_one : float := lit (-1).

Definition find_similar_user_by_id (self : MovieRecommender) (user_id : Z)
  : result Z :=
  target_prefs <- subscript (all_user_preferences self) user_id ;;
  best <- for_each (consider user_id target_prefs)
            (all_user_preferences self) (minus_one, -1) ;;
  Ok (snd best).

(** *** [make_recommendations_for_id] *)

(** [while index < len(pairs) and len(top_genres_list) < 2], on the
    pairs from [index] on. *)
Fixpoint take_top_genres (pairs : list (string * float))
    (top_genres_list : list string) : list string :=
  match pairs with
  | [] => top_genres_list
  | entry :: rest =>
      if (List.length top_genres_list <? 2)%nat
      then take_top_genres rest (top_genres_list ++ [fst entry])
      else top_genres_list
  end.

(** [while index < len(candidates) and index < 5], on the candidates
    from [index] on. *)
Fixpoint take_titles (index : nat) (candidates : list (string * float))
    (result : list string) : list string :=
  match candidates with
  | [] => result
  | candidate :: rest =>
      if (index <? 5)%nat
      then take_titles (S index) rest (set_add result (fst candidate))
      else result
  end.

(** The body of [for movie_id, rating in recommender_ratings.items()];
    the test [in_metadata] and the lookup it guards are one [get]. *)
Definition consider_movie (info : catalog) (recipient_seen : ratings)
    (top_genres_list : list string)
    (candidates : list (string * float)) (entry : Z * float)
  : list (string * float) :=
  let '(movie_id, rating) := entry in
  let not_seen := negb (mem recipient_seen movie_id) in
  match get info movie_id with
  | Some (title, genres) =>
      if not_seen then
        let genre_overlap :=
          (0 <? List.length (set_and top_genres_list genres))%nat in
        if genre_overlap then candidates ++ [(title, rating)]
        else candidates
      else candidates
  | None => candidates
  end.

Definition preference_key (entry : string * float) : float * string :=
  (fneg (snd entry), fst entry).
Definition candidate_key (t : string * float) : float * string :=
  (fneg (snd t), fst t).

Definition make_recommendations_for_id (self : MovieRecommender)
    (recommender_id recipient_id : Z) : result (list string) :=
  if negb (mem (all_user_preferences self) recipient_id) then Ok []
  else
    recipient_prefs <- subscript (all_user_preferences self) recipient_id ;;
    if (List.length recipient_prefs =? 0)%nat then Ok []
    else
      let pairs := py_sort tuple_lt preference_key recipient_prefs in
      let top_genres_list := take_top_genres pairs [] in
      recommender_ratings <-
        subscript (all_user_ratings self) recommender_id ;;
      recipient_seen <- subscript (all_user_ratings self) recipient_id ;;
      let candidates :=
        fold_left
          (consider_movie (movie_info self) recipient_seen top_genres_list)
          recommender_ratings [] in
      let candidates := py_sort tuple_lt candidate_key candidates in
      Ok (take_titles 0 candidates []).

(** *** Construction and [add_new_ratings] *)

(** [{int(user_id): self.ratings_to_preferences(user_ratings) for ...}] *)
Definition build_preferences (info : catalog) (all_ratings : dict Z ratings)
  : result (dict Z profile) :=
  for_each
    (fun acc (entry : Z * ratings) =>
       prefs <- ratings_to_preferences info (snd entry) ;;
       Ok (set acc (fst entry) prefs))
    all_ratings [].

(** [__init__], on the two dictionaries read from the files. *)
Definition init (info : catalog) (user_ratings : dict Z ratings)
  : result MovieRecommender :=
  prefs <- build_preferences info user_ratings ;;
  Ok {| movie_info := info;
        all_user_ratings := user_ratings;
        all_user_preferences := prefs |}.

(** [add_new_ratings], on the dictionary read from the file. *)
Definition add_new_ratings (self : MovieRecommender)
    (new_ratings : dict Z ratings) : result MovieRecommender :=
  new_preferences <- build_preferences (movie_info self) new_ratings ;;
  Ok {| movie_info := movie_info self;
        all_user_ratings := update (all_user_ratings self) new_ratings;
        all_user_preferences :=
          update (all_user_preferences self) new_preferences |}.

End Recommender.

(* ================================================================= *)
(** ** Reading the JSON files *)

(** What [json.load] returns for a JSON object is a [dict] with [str]
    keys. [read_from_json] looks one level into it: a value that is itself
    a [dict] and a value that is not ([L]: a list, a number, ..., and also
    what an inner [dict] holds, which is never looked at). *)
Inductive json (L : Type) : Type :=
| JsonDict (d : dict string L)
| JsonOther (x : L).

Arguments JsonDict {L} d.
Arguments JsonOther {L} x.

(** A value of [dictionary] while [read_from_json] runs: as loaded, or an
    inner [dict] whose keys are converted. *)
Inductive converted (L : Type) : Type :=
| AsLoaded (v : json L)
| IntKeyed (d : dict Z L).

Arguments AsLoaded {L} v.
Arguments IntKeyed {L} d.

Section ReadFromJson.

Context {L : Type}.

(** [int(k)] for a [str]: the integer that [k] denotes, or [ValueError].
    (It accepts a sign, surrounding whitespace, underscores between digits
    and every Unicode decimal digit; the function is a parameter, and what
    is proved holds for every such conversion.) *)
Variable int_of_str : string -> result Z.

(** [{int(k): v for k, v in d.items()}] *)
Definition int_keys {V : Type} (d : dict string V) : result (dict Z V) :=
  for_each
    (fun acc (item : string * V) =>
       k <- int_of_str (fst item) ;;
       Ok (set acc k (snd item)))
    d [].

(** The body of [for key in dictionary]. A value is a [dict] whether its
    keys are converted or not; [int(k)] is [k] for an [int]. *)
Definition convert_value (dictionary : dict Z (converted L)) (key : Z)
  : result (dict Z (converted L)) :=
  value <- subscript dictionary key ;;
  match value with
  | AsLoaded (JsonDict d) =>
      inner <- int_keys d ;;
      Ok (set dictionary key (IntKeyed inner))
  | IntKeyed d => Ok (set dictionary key (IntKeyed (update [] d)))
  | AsLoaded (JsonOther _) => Ok dictionary
  end.

(** [read_from_json], on the object that [json.load] returns. The loop
    assigns to keys that the dictionary already has, so that it runs over
    the keys as they are when it starts. *)
Definition read_from_json (loaded : dict string (json L))
  : result (dict Z (converted L)) :=
  dictionary <-
    int_keys (map (fun item => (fst item, AsLoaded (snd item))) loaded) ;;
  for_each convert_value (keys dictionary) dictionary.

End ReadFromJson.

(* ================================================================= *)
(** ** The scraper of [scraping.py] *)

(** The scraper stops at the first exception, whatever it is: a function
    that may raise returns an [option]. *)
Definition and_then {A B : Type} (m : option A) (k : A -> option B)
  : option B :=
  match m with
  | Some a => k a
  | None => None
  end.

Notation "x <~ m ;; k" := (and_then m (fun x => k))
  (at level 61, m at next level, right associativity).

Fixpoint for_each_row {A S : Type} (body : S -> A -> option S) (l : list A)
    (s : S) : option S :=
  match l with
  | [] => Some s
  | a :: l' => s' <~ body s a ;; for_each_row body l' s'
  end.

(** A [while] loop runs on fuel: it returns, raises, or is still running
    when the fuel is spent. *)
Inductive outcome (A : Type) : Type :=
| Returned (a : A)
| Raised
| OutOfFuel.

Arguments Returned {A} a.
Arguments Raised {A}.
Arguments OutOfFuel {A}.

(** What the program reads of a page that [requests.get] fetched and
    [BeautifulSoup] parsed: the rows ([tr]) of the first [table], each
    with the text of its cells ([td]), where the page has a table; and
    the [href] of every link ([a]), where the link has one. *)
Record page : Type := {
  table : option (list (list string));
  links : list (option string)
}.

(** [str(n)] for an [int]. *)
Definition str_of_int (n : Z) : string := NilZero.string_of_int (Z.to_int n).

(** [s.rsplit(sep, 1)[0]] for a separator that is not empty: [s] up to
    the last occurrence of [sep], or all of [s] where [sep] does not
    occur. [before_last] finds the occurrence. (The separators of the
    program are ASCII: in UTF-8 their bytes occur where the characters
    do, and nowhere else.) *)
Fixpoint before_last (sep s : string) : option string :=
  match s with
  | EmptyString => None
  | String c s' =>
      match before_last sep s' with
      | Some head => Some (String c head)
      | None => if prefix sep s then Some EmptyString else None
      end
  end.

Definition rsplit_first (sep s : string) : string :=
  match before_last sep s with
  | Some head => head
  | None => s
  end.

(** [s.split(c)] for a separator of one character: the pieces between
    the occurrences of [c], one more than there are occurrences. *)
Fixpoint split_on (c : ascii) (s : string) : list string :=
  match s with
  | EmptyString => [EmptyString]
  | String a s' =>
      if Ascii.eqb a c then EmptyString :: split_on c s'
      else
        match split_on c s' with
        | piece :: pieces => String a piece :: pieces
        | [] => [String a EmptyString]
        end
  end.

Section Scraper.

(** [re.get(url)] and the parse of what it returns; [None] where one of
    them raises. An address gives the same page each time it is fetched. *)
Variable fetch : string -> option page.

(** [s.strip()], [int(s)] and [float(s)] for a [str]. The three are
    parameters: what is proved holds whatever they strip and accept. *)
Variable strip : string -> string.
Variable to_int : string -> option Z.
Variable to_float : string -> option float.

(** *** [scrape_movie_info] *)

(** [raw_title.rsplit(" (", 1)[0].strip()] *)
Definition title_of (raw_title : string) : string :=
  strip (rsplit_first " (" raw_title)%string.

(** [tuple(genre.strip() for genre in genre_string.split(","))], for the
    stripped text of the cell. *)
Definition genres_of (cell : string) : list string :=
  let genre_string := strip cell in
  map strip (split_on ","%char genre_string).

(** The body of [for row in rows], on the cells of the row. *)
Definition movie_row (movie_data : catalog) (cells : list string)
  : option catalog :=
  id_cell <~ nth_error cells 0 ;;
  movie_id <~ to_int (strip id_cell) ;;
  raw_title <~ nth_error cells 1 ;;
  let title := title_of raw_title in
  genre_cell <~ nth_error cells 3 ;;
  let genres := genres_of genre_cell in
  Some (set movie_data movie_id (title, genres)).

(** One turn of [while page_number != ""]: the rows but the first are
    stored, and the second link of the page names the next page. *)
Definition scrape_page (slug page_number : string) (movie_data : catalog)
  : option (string * catalog) :=
  soup <~ fetch (slug ++ page_number)%string ;;
  rows <~ table soup ;;
  movie_data <~ for_each_row movie_row (tl rows) movie_data ;;
  link <~ nth_error (links soup) 1 ;;
  href <~ link ;;
  Some (href, movie_data).

Fixpoint scrape_pages (fuel : nat) (slug page_number : string)
    (movie_data : catalog) : outcome catalog :=
  if String.eqb page_number ""%string then Returned movie_data
  else
    match fuel with
    | O => OutOfFuel
    | S fuel' =>
        match scrape_page slug page_number movie_data with
        | Some (href, movie_data) => scrape_pages fuel' slug href movie_data
        | None => Raised
        end
    end.

Definition scrape_movie_info (fuel : nat) (slug : string) : outcome catalog :=
  scrape_pages fuel slug "page_1.html"%string [].

(** *** [scrape_ratings] *)

(** [if user_id not in user_data: user_data[user_id] = {}] and
    [user_data[user_id][movie_id] = rating]. *)
Definition store_rating (user_data : dict Z ratings)
    (user_id movie_id : Z) (rating : float) : option (dict Z ratings) :=
  let user_data :=
    if mem user_data user_id then user_data else set user_data user_id [] in
  inner <~ get user_data user_id ;;
  Some (set user_data user_id (set inner movie_id rating)).

(** The body of [for row in rows], on the cells of the row. *)
Definition rating_row (movie_id : Z) (user_data : dict Z ratings)
    (cells : list string) : option (dict Z ratings) :=
  id_cell <~ nth_error cells 0 ;;
  user_id <~ to_int (strip id_cell) ;;
  rating_cell <~ nth_error cells 1 ;;
  rating <~ to_float (strip rating_cell) ;;
  store_rating user_data user_id movie_id rating.

(** The body of [for movie_id in movie_ids]. *)
Definition scrape_movie_ratings (slug : string) (user_data : dict Z ratings)
    (movie_id : Z) : option (dict Z ratings) :=
  let url :=
    (((slug ++ "ratings_") ++ str_of_int movie_id) ++ ".html")%string in
  soup <~ fetch url ;;
  rows <~ table soup ;;
  for_each_row (rating_row movie_id) (tl rows) user_data.

(** [scrape_ratings]; [movie_ids] lists the set in the order in which the
    loop goes over it. *)
Definition scrape_ratings (slug : string) (movie_ids : list Z)
  : option (dict Z ratings) :=
  for_each_row (scrape_movie_ratings slug) movie_ids [].

End Scraper.

(* ================================================================= *)
(** ** Definitions the statements are written with *)

(** *** Floats *)

(** Zero, a positive number, plus infinity or nan: the floats for which
    [x < 0] is false. *)
Definition not_negative (x : float) : Prop :=
  match x with
  | S754_infinity true | S754_finite true _ _ => False
  | _ => True
  end.

Definition sign_of (x : float) : option bool :=
  match x with
  | S754_zero s | S754_infinity s | S754_finite s _ _ => Some s
  | S754_nan => None
  end.

(** A finite float that rounding returns has its exponent in range. *)
Definition rounded (x : float) : Prop :=
  match x with
  | S754_finite _ _ e => -1074 <= e
  | _ => True
  end.

(** Not a zero, and at least 2^-537 in absolute value when finite. *)
Definition large (x : float) : Prop :=
  match x with
  | S754_finite _ m e => -536 <= Zdigits2 (Z.pos m) + e
  | S754_zero _ => False
  | _ => True
  end.

(** A float with a mantissa of 53 bits and an absolute value of at least
    2^-511 and less than 2^511: a normal float whose square is a normal
    float as well, without overflow or underflow. *)
Definition square_normal (x : float) : Prop :=
  match x with
  | S754_finite _ m e => 2 ^ 52 <= Z.pos m < 2 ^ 53 /\ -563 <= e <= 458
  | _ => False
  end.

(** [mrs] is what [n] shifts to the right leave of [m0]: the quotient by
    2^n, and two bits that say where the remainder is with respect to the
    half of 2^n. *)
Definition shifted (m0 n : Z) (mrs : shr_record) : Prop :=
  exists rem,
    m0 = shr_m mrs * 2 ^ n + rem /\
    0 <= rem < 2 ^ n /\
    0 <= shr_m mrs /\
    (shr_r mrs = true <-> 2 ^ n <= 2 * rem) /\
    (shr_s mrs = true <-> rem <> 0 /\ 2 * rem <> 2 ^ n).

Definition no_nan (xs : list float) : Prop :=
  Forall (fun x => is_nan x = false) xs.

(** *** Orders *)

(** Strict total orders, and the lexicographic order on pairs. *)
Record strict_total {C : Type} (lt : C -> C -> Prop) : Prop := {
  st_irrefl : forall a, ~ lt a a;
  st_trans : forall a b c, lt a b -> lt b c -> lt a c;
  st_total : forall a b, lt a b \/ a = b \/ lt b a
}.

Definition lex {A B : Type} (ltA : A -> A -> Prop) (ltB : B -> B -> Prop)
    (x y : A * B) : Prop :=
  ltA (fst x) (fst y) \/ (fst x = fst y /\ ltB (snd x) (snd y)).

(** [c1] does not come after [c2]. *)
Definition not_after {C : Type} (clt : C -> C -> Prop) (c1 c2 : C) : Prop :=
  ~ clt c2 c1.

Definition string_lt (a b : string) : Prop := String.ltb a b = true.

(** The place of a float that is not nan in the order of [<]: its sign
    class, then exponent and mantissa, both negated below zero. Two floats
    are [==] when they have the same rank. *)
Definition rank (x : float) : Z * (Z * Z) :=
  match x with
  | S754_infinity true => (-2, (0, 0))
  | S754_finite true m e => (-1, (- e, Z.neg m))
  | S754_zero _ | S754_nan => (0, (0, 0))
  | S754_finite false m e => (1, (e, Z.pos m))
  | S754_infinity false => (2, (0, 0))
  end.

Definition rank_lt : Z * (Z * Z) -> Z * (Z * Z) -> Prop :=
  lex Z.lt (lex Z.lt Z.lt).

(** *** The profile builder *)

(** The scores a user gave to the catalog movies tagged [genre], in the
    order of the user's ratings, one score for every rated movie that
    carries the tag. *)
Definition rated_scores (info : catalog) (user_ratings : ratings)
    (genre : string) : list float :=
  flat_map
    (fun entry : Z * float =>
       match get info (fst entry) with
       | Some (_, genres) =>
           if existsb (String.eqb genre) genres then [snd entry] else []
       | None => []
       end)
    user_ratings.

(** The same with one score for every occurrence of the tag in the genre
    sequence of a rated movie. *)
Definition genre_scores (info : catalog) (user_ratings : ratings)
    (genre : string) : list float :=
  flat_map
    (fun entry : Z * float =>
       match get info (fst entry) with
       | Some (_, genres) =>
           map (fun _ => snd entry) (filter (String.eqb genre) genres)
       | None => []
       end)
    user_ratings.

(** Sum over count; no average of no score. *)
Definition average (scores : list float) : option float :=
  match scores with
  | [] => None
  | _ :: _ => Some (fdiv (sum scores) (of_int (Z.of_nat (List.length scores))))
  end.

(** The genre tags met by the two nested loops, each with the score it is
    met with. *)
Definition tag_events (info : catalog) (user_ratings : ratings)
  : list (string * float) :=
  flat_map
    (fun entry : Z * float =>
       match get info (fst entry) with
       | Some (_, genres) => map (fun g => (g, snd entry)) genres
       | None => []
       end)
    user_ratings.

Definition scores_of (genre : string) (events : list (string * float))
  : list float :=
  map snd (filter (fun ev => String.eqb genre (fst ev)) events).

Definition tally_event (acc : dict string float * dict string Z)
    (ev : string * float) : dict string float * dict string Z :=
  tally_genre (snd ev) acc (fst ev).

(** What [totals] and [counts] hold once the events [events] are tallied. *)
Definition tallied (acc : dict string float * dict string Z)
    (events : list (string * float)) : Prop :=
  wf (fst acc) /\
  forall genre,
    match scores_of genre events with
    | [] => get (fst acc) genre = None /\ get (snd acc) genre = None
    | scores =>
        get (fst acc) genre = Some (sum scores) /\
        get (snd acc) genre = Some (Z.of_nat (List.length scores))
    end.

(** *** The two stores *)

(** The profile of a user's ratings ([ratings_to_preferences] never
    raises, see [ratings_to_preferences_spec]). *)
Definition profile_of (info : catalog) (user_ratings : ratings) : profile :=
  match ratings_to_preferences info user_ratings with
  | Ok prefs => prefs
  | Raise _ => []
  end.

Definition profiles_of (info : catalog) (all_ratings : dict Z ratings)
  : dict Z profile :=
  map (fun entry => (fst entry, profile_of info (snd entry))) all_ratings.

(** The preference store and the raw-ratings store know the same users. *)
Definition in_sync (self : MovieRecommender) : Prop :=
  forall user_id,
    mem (all_user_preferences self) user_id =
    mem (all_user_ratings self) user_id.

(** The same recommender with another preference store. *)
Definition with_preferences (self : MovieRecommender)
    (store : dict Z profile) : MovieRecommender :=
  {| movie_info := movie_info self;
     all_user_ratings := all_user_ratings self;
     all_user_preferences := store |}.

(** *** The similarity engine *)

(** The magnitude of a profile: the square root of the sum of the squares
    of all its values ([math.sqrt] does not raise there, see
    [math_sqrt_sum_squares]). *)
Definition magnitude (p : profile) : float := fsqrt (sum_squares p).

(** The products the dot product adds up, in the order of [shared]. *)
Definition products (first second : profile) (shared : list string)
  : list float :=
  map (fun g => fmul (get_default first g zero) (get_default second g zero))
      shared.

Definition has_nonzero_value (p : profile) : Prop :=
  exists g v, In (g, v) p /\ feqb v zero = false.

(** *** The neighbour finder *)

(** The similarity of two profiles ([cosine_similarity] never raises, see
    [cosine_similarity_returns]). *)
Definition similarity (set_and : list string -> list string -> list string)
    (target other : profile) : float :=
  match cosine_similarity set_and target other with
  | Ok s => s
  | Raise _ => S754_nan
  end.

(** A (similarity, ID) that replaces the best one so far: greater
    similarity, or equal similarity and greater ID. *)
Definition exceeds (c best : float * Z) : Prop :=
  fltb (fst best) (fst c) = true \/
  (feqb (fst c) (fst best) = true /\ snd best < snd c).

(** One turn of the loop, on a similarity that is already computed. *)
Definition choose (best c : float * Z) : float * Z :=
  if is_better (fst c) (snd c) best then c else best.

(** The candidates: the entries of the store other than the target's, and
    their (similarity, ID). *)
Definition others (user_id : Z) (store : dict Z profile) : dict Z profile :=
  filter (fun entry => negb (fst entry =? user_id)) store.

Definition scored (set_and : list string -> list string -> list string)
    (user_id : Z) (target : profile) (store : dict Z profile)
  : list (float * Z) :=
  map (fun entry => (similarity set_and target (snd entry), fst entry))
      (others user_id store).

(** The place of a (similarity, ID) in the order of [exceeds]. *)
Definition code (c : float * Z) : Z * (Z * Z) * Z := (rank (fst c), snd c).

Definition code_lt : Z * (Z * Z) * Z -> Z * (Z * Z) * Z -> Prop :=
  lex rank_lt Z.lt.

(** *** The recommendation selector *)

(** In the order "greater value first, then smaller name first", [x] does
    not come after [y]: the order of the sort keys [(-value, name)]. *)
Definition ranked_before (x y : string * float) : Prop :=
  fltb (snd y) (snd x) = true \/
  (feqb (snd x) (snd y) = true /\ String.leb (fst x) (fst y) = true).

(** The genre sets intersect. *)
Definition genres_overlap (top genres : list string) : bool :=
  existsb (fun g => existsb (String.eqb g) genres) top.

(** The candidates, in the order of the recommender's ratings: a rating
    of a movie that the recipient has not rated, that the catalog knows, and
    that shares a genre with [top] gives (title, rating). *)
Definition candidates_of (info : catalog) (recommender_ratings : ratings)
    (recipient_seen : ratings) (top : list string) : list (string * float) :=
  flat_map
    (fun entry : Z * float =>
       match get info (fst entry) with
       | Some (title, genres) =>
           if negb (mem recipient_seen (fst entry)) && genres_overlap top genres
           then [(title, snd entry)]
           else []
       | None => []
       end)
    recommender_ratings.

(** The place of a sort key in the order of [tuple_lt], for a key whose
    float is not nan. *)
Definition key_code (k : float * string) : Z * (Z * Z) * string :=
  (rank (fst k), snd k).

Definition key_code_lt
  : Z * (Z * Z) * string -> Z * (Z * Z) * string -> Prop :=
  lex rank_lt string_lt.

Definition key_ok (k : float * string) : Prop := is_nan (fst k) = false.

(** *** Examples *)

(** The catalog and the ratings of the end-to-end example, and the
    recommender built from them. *)
Definition example_catalog : catalog :=
  [(1, ("A", ["Drama"])); (2, ("B", ["Comedy"]));
   (3, ("C", ["Drama"; "Comedy"]))]%string.

Definition example_ratings : dict Z ratings :=
  [(10, [(1, lit 5); (2, lit 1)]); (20, [(3, lit 4)])].

Definition example_recommender : MovieRecommender :=
  {| movie_info := example_catalog;
     all_user_ratings := example_ratings;
     all_user_preferences :=
       [(10, [("Drama", lit 5); ("Comedy", lit 1)]);
        (20, [("Drama", lit 4); ("Comedy", lit 4)])]%string |}.

(** New ratings: user 20 rates again, user 30 is new. *)
Definition example_new_ratings : dict Z ratings :=
  [(20, [(1, lit 2)]); (30, [(2, lit 3); (3, lit 5)])].

(** A catalog in which a movie repeats a tag, and two ratings. *)
Definition repeated_tag_catalog : catalog :=
  [(1, ("A", ["Drama"; "Drama"])); (2, ("B", ["Drama"]))]%string.

Definition repeated_tag_ratings : ratings := [(1, lit 5); (2, lit 2)].

(** The profiles [{a: 3.0}] and [{a: 1.0, b: 1.0}], and two profiles with
    the value 1e200. *)
Definition profile_three : profile := [("a"%string, lit 3)].

Definition profile_ones : profile := [("a"%string, lit 1); ("b"%string, lit 1)].

Definition profile_huge : profile :=
  [("a"%string, lit 0x1.4e718d7d7625ap+664)].

(** The profile with the value 1e-200. *)
Definition profile_tiny : profile :=
  [("a"%string, lit 0x1.87e92154ef7acp-665)].

Definition profile_huge_and_one : profile :=
  [("a"%string, lit 0x1.4e718d7d7625ap+664); ("b"%string, lit 1)].

(** A recommender in which user 40 has an empty profile. *)
Definition recommender_with_empty_profile : MovieRecommender :=
  {| movie_info := example_catalog;
     all_user_ratings := [(10, [(1, lit 5)]); (40, [(7, lit 3)])];
     all_user_preferences := [(10, [("Drama"%string, lit 5)]); (40, [])] |}.

(** Two users who gave the rating 1e200 to the one movie of the catalog. *)
Definition recommender_huge : MovieRecommender :=
  {| movie_info := [(1, ("T"%string, ["a"%string]))];
     all_user_ratings :=
       [(1, [(1, lit 0x1.4e718d7d7625ap+664)]);
        (2, [(1, lit 0x1.4e718d7d7625ap+664)])];
     all_user_preferences := [(1, profile_huge); (2, profile_huge)] |}.

(** Four users with the same profile. *)
Definition recommender_alike : MovieRecommender :=
  {| movie_info := [(1, ("T"%string, ["a"%string]))];
     all_user_ratings :=
       [(1, [(1, lit 3)]); (5, [(1, lit 3)]); (3, [(1, lit 3)]);
        (4, [(1, lit 3)])];
     all_user_preferences :=
       [(1, profile_three); (5, profile_three); (3, profile_three);
        (4, profile_three)] |}.

(** A catalog of twelve movies; user 1 likes Horror and Drama, user 2 has
    rated seven movies that user 1 has not seen and that are Horror or
    Drama, and one that the catalog does not know. *)
Definition many_catalog : catalog :=
  [(1, ("A", ["Drama"])); (2, ("B", ["Drama"])); (3, ("C", ["Comedy"]));
   (4, ("D", ["Drama"; "Action"])); (5, ("E", ["Action"]));
   (6, ("F", ["Drama"])); (7, ("G", ["Comedy"])); (8, ("H", ["Horror"]));
   (9, ("I", ["Drama"])); (11, ("J", ["Drama"])); (12, ("K", ["Drama"]));
   (13, ("L", ["Horror"]))]%string.

Definition many_ratings : dict Z ratings :=
  [(1, [(8, lit 5); (9, lit 4); (5, lit 1)]);
   (2, [(1, lit 3); (2, lit 5); (3, lit 5); (4, lit 4); (5, lit 5);
        (6, lit 4); (7, lit 2); (8, lit 5); (9, lit 5); (10, lit 5);
        (11, lit 2); (12, lit 4); (13, lit 1)])].

Definition recommender_many : MovieRecommender :=
  Eval vm_compute in
    match init many_catalog many_ratings with
    | Ok self => self
    | Raise _ => {| movie_info := []; all_user_ratings := [];
                    all_user_preferences := [] |}
    end.

(** Eight Drama movies. User 1 has rated the last one; user 2 has rated
    the seven others, movie 1 with nan. The two stores hold the same
    ratings of user 2, movie 1 being inserted first in the one and last in
    the other. *)
Definition nan_catalog : catalog :=
  [(1, ("A", ["Drama"])); (2, ("B", ["Drama"])); (3, ("C", ["Drama"]));
   (4, ("D", ["Drama"])); (5, ("E", ["Drama"])); (6, ("F", ["Drama"]));
   (7, ("G", ["Drama"])); (8, ("H", ["Drama"]))]%string.

Definition nan_first : ratings :=
  [(1, S754_nan); (2, lit 1); (3, lit 2); (4, lit 3); (5, lit 4); (6, lit 5);
   (7, lit 6)].

Definition nan_last : ratings :=
  [(2, lit 1); (3, lit 2); (4, lit 3); (5, lit 4); (6, lit 5); (7, lit 6);
   (1, S754_nan)].

Definition recommender_nan_first : MovieRecommender :=
  Eval vm_compute in
    match init nan_catalog [(1, [(8, lit 5)]); (2, nan_first)] with
    | Ok self => self
    | Raise _ => {| movie_info := []; all_user_ratings := [];
                    all_user_preferences := [] |}
    end.

Definition recommender_nan_last : MovieRecommender :=
  Eval vm_compute in
    match init nan_catalog [(1, [(8, lit 5)]); (2, nan_last)] with
    | Ok self => self
    | Raise _ => {| movie_info := []; all_user_ratings := [];
                    all_user_preferences := [] |}
    end.

(* ================================================================= *)
(** ** Definitions for the further properties *)

(** Above zero, plus infinity or nan: the divisors that keep the sign. *)
Definition above_zero (x : float) : Prop :=
  match x with
  | S754_finite false _ _ | S754_infinity false | S754_nan => True
  | _ => False
  end.

(** The top genres of a profile, the candidates they select among the
    ratings of the recommender, and the candidates in the order of the
    sort. *)
Definition top_genres (recipient_prefs : profile) : list string :=
  map fst (firstn 2 (py_sort tuple_lt preference_key recipient_prefs)).

Definition sorted_candidates (info : catalog)
    (recommender_ratings recipient_seen : ratings) (recipient_prefs : profile)
  : list (string * float) :=
  py_sort tuple_lt candidate_key
    (candidates_of info recommender_ratings recipient_seen
       (top_genres recipient_prefs)).

(** *** Reading the JSON files *)

(** The value of the last item of [d] whose key denotes [n]. *)
Fixpoint last_value {V : Type} (int_of_str : string -> result Z)
    (d : dict string V) (n : Z) : option V :=
  match d with
  | [] => None
  | (k, v) :: d' =>
      match last_value int_of_str d' n with
      | Some v' => Some v'
      | None =>
          match int_of_str k with
          | Ok m => if m =? n then Some v else None
          | Raise _ => None
          end
      end
  end.

(** [int(k)] returns. *)
Definition denotes_int (int_of_str : string -> result Z) (k : string) : Prop :=
  exists n, int_of_str k = Ok n.

(** What the loop of [read_from_json] makes of a value. *)
Definition conversion {L : Type} (int_of_str : string -> result Z)
    (v v' : converted L) : Prop :=
  match v with
  | AsLoaded (JsonDict d) =>
      exists inner, int_keys int_of_str d = Ok inner /\ v' = IntKeyed inner
  | IntKeyed d => v' = IntKeyed (update [] d)
  | AsLoaded (JsonOther _) => v' = v
  end.

(** [int(s)] on the strings of ASCII digits, which is all that the
    examples use; every other string is refused here. *)
Definition digit_value (c : ascii) : option Z :=
  let n := Z.of_N (N_of_ascii c) in
  if (48 <=? n) && (n <=? 57) then Some (n - 48) else None.

Fixpoint digits_value (s : string) (acc : Z) : result Z :=
  match s with
  | EmptyString => Ok acc
  | String c s' =>
      match digit_value c with
      | Some n => digits_value s' (10 * acc + n)
      | None => Raise ValueError
      end
  end.

Definition int_of_digits (s : string) : result Z :=
  match s with
  | EmptyString => Raise ValueError
  | _ => digits_value s 0
  end.

(** A ratings file in which two keys denote user 1, and one in which a
    key denotes no integer. *)
Definition example_loaded : dict string (json float) :=
  [("1", JsonDict [("10", lit 5); ("11", lit 3)]);
   ("2", JsonOther (lit 0));
   ("01", JsonDict [("12", lit 4)])]%string.

Definition example_loaded_bad : dict string (json float) :=
  [("1", JsonDict [("10", lit 5)]); ("x", JsonOther (lit 0))]%string.

(** The ratings of the end-to-end example as [json.load] returns them. *)
Definition example_loaded_ratings : dict string (json float) :=
  [("10", JsonDict [("1", lit 5); ("2", lit 1)]);
   ("20", JsonDict [("3", lit 4)])]%string.

(** *** The scraper *)

(** [sep] occurs in [s]. *)
Definition occurs (sep s : string) : Prop :=
  exists before after, s = (before ++ sep ++ after)%string.

(** [s] has no comma. *)
Definition comma_free (s : string) : Prop :=
  ~ In ","%char (list_ascii_of_string s).

(** [user_data[user_id][movie_id]], where both keys are present. *)
Definition rating_of (user_data : dict Z ratings) (user_id movie_id : Z)
  : option float :=
  match get user_data user_id with
  | Some inner => get inner movie_id
  | None => None
  end.

(** The (user, rating) that a row of a ratings page gives, and those of the
    rows of the page of a movie, the first row left out. *)
Definition rating_of_row (strip : string -> string)
    (to_int : string -> option Z) (to_float : string -> option float)
    (cells : list string) : option (Z * float) :=
  id_cell <~ nth_error cells 0 ;;
  user_id <~ to_int (strip id_cell) ;;
  rating_cell <~ nth_error cells 1 ;;
  rating <~ to_float (strip rating_cell) ;;
  Some (user_id, rating).

Fixpoint all_rows {A B : Type} (f : A -> option B) (l : list A)
  : option (list B) :=
  match l with
  | [] => Some []
  | a :: l' => b <~ f a ;; bs <~ all_rows f l' ;; Some (b :: bs)
  end.

Definition page_ratings (fetch : string -> option page)
    (strip : string -> string) (to_int : string -> option Z)
    (to_float : string -> option float) (slug : string) (movie_id : Z)
  : option (list (Z * float)) :=
  soup <~
    fetch (((slug ++ "ratings_") ++ str_of_int movie_id) ++ ".html")%string ;;
  rows <~ table soup ;;
  all_rows (rating_of_row strip to_int to_float) (tl rows).

(** What [scrape_ratings] keeps: every user once, and for every user a
    dictionary that holds every movie once and is not empty. *)
Definition tidy (user_data : dict Z ratings) : Prop :=
  wf user_data /\
  forall user_id inner,
    get user_data user_id = Some inner -> wf inner /\ inner <> [].

(** The last rating that the rows give for a user. *)
Definition last_rating (rows : list (Z * float)) (user_id : Z) : option float :=
  get (rev rows) user_id.

(** The catalog entry that a row of a catalog page gives. *)
Definition movie_of_row (strip : string -> string)
    (to_int : string -> option Z) (cells : list string)
  : option (Z * (string * list string)) :=
  id_cell <~ nth_error cells 0 ;;
  movie_id <~ to_int (strip id_cell) ;;
  raw_title <~ nth_error cells 1 ;;
  genre_cell <~ nth_error cells 3 ;;
  Some (movie_id, (title_of strip raw_title, genres_of strip genre_cell)).

(** A row, other than the first, of the table of a page of the site. *)
Definition data_row (fetch : string -> option page) (slug : string)
    (cells : list string) : Prop :=
  exists page_number soup rows,
    fetch (slug ++ page_number)%string = Some soup /\
    table soup = Some rows /\
    In cells (tl rows).

(** Every entry of the catalog comes from a row that satisfies [source]. *)
Definition entries_from (strip : string -> string)
    (to_int : string -> option Z) (source : list string -> Prop)
    (movie_data : catalog) : Prop :=
  wf movie_data /\
  forall movie_id entry,
    get movie_data movie_id = Some entry ->
    exists cells,
      source cells /\ movie_of_row strip to_int cells = Some (movie_id, entry).

(** The pages from [page_number] on come to an end, each naming the next
    in its second link and the last one naming the empty string, and
    [rows] are the rows of their tables in the order of the pages, the
    first row of every table left out. *)
Inductive paginated (fetch : string -> option page) (slug : string)
  : string -> list (list string) -> Prop :=
| paginated_end : paginated fetch slug EmptyString []
| paginated_next (page_number : string) (soup : page)
    (rows : list (list string)) (href : string) (rest : list (list string)) :
    page_number <> EmptyString ->
    fetch (slug ++ page_number)%string = Some soup ->
    table soup = Some rows ->
    nth_error (links soup) 1 = Some (Some href) ->
    paginated fetch slug href rest ->
    paginated fetch slug page_number (tl rows ++ rest).

(** [s.strip()] for ASCII text: the characters 9 to 13 and 28 to 32 are
    removed at both ends. The examples use no other text. *)
Definition is_blank (c : ascii) : bool :=
  let n := N_of_ascii c in
  ((9 <=? n) && (n <=? 13) || (28 <=? n) && (n <=? 32))%N.

Fixpoint lstrip_blanks (s : string) : string :=
  match s with
  | String c s' => if is_blank c then lstrip_blanks s' else s
  | EmptyString => s
  end.

Fixpoint rstrip_blanks (s : string) : string :=
  match s with
  | String c s' =>
      match rstrip_blanks s' with
      | EmptyString => if is_blank c then EmptyString else String c EmptyString
      | rest => String c rest
      end
  | EmptyString => s
  end.

Definition strip_blanks (s : string) : string :=
  rstrip_blanks (lstrip_blanks s).

Definition option_of {A : Type} (r : result A) : option A :=
  match r with
  | Ok a => Some a
  | Raise _ => None
  end.

Definition digits_to_int (s : string) : option Z := option_of (int_of_digits s).

(** [float(s)] on the digit strings of the examples. *)
Definition float_of_digits (s : string) : option float :=
  n <~ option_of (int_of_digits s) ;; Some (of_int n).

(** A site of two catalog pages and the ratings pages of movies 1 and 2. *)
Definition example_site (url : string) : option page :=
  (if String.eqb url "http://m/page_1.html" then
    Some {| table := Some [["ID"; "Title"; "Year"; "Genres"];
                           [" 1 "; "Heat (1995)"; "1995"; "Action, Crime"];
                           ["2"; "Brazil (a.k.a. 1984 1/2) (1985)"; "1985";
                            "Sci-Fi"]];
            links := [Some "index.html"; Some "page_2.html"] |}
  else if String.eqb url "http://m/page_2.html" then
    Some {| table := Some [["ID"; "Title"; "Year"; "Genres"];
                           ["3"; "Untitled"; ""; ""]];
            links := [Some "page_1.html"; Some ""] |}
  else if String.eqb url "http://m/ratings_1.html" then
    Some {| table := Some [["User"; "Rating"]; ["7"; "4"]; ["8"; "2"];
                           ["7"; "5"]];
            links := [] |}
  else if String.eqb url "http://m/ratings_2.html" then
    Some {| table := Some [["User"; "Rating"]; ["8"; "3"]];
            links := [] |}
  else None)%string.

(* ================================================================= *)
(** ** Facts on floats *)

Lemma fmul_comm (x y : float) : fmul x y = fmul y x.
Proof.
  unfold fmul, SF64mul, SFmul.
  destruct x as [sx|sx| |sx mx ex], y as [sy|sy| |sy my ey];
    try reflexivity; try (now rewrite xorb_comm).
  now rewrite xorb_comm, Pos.mul_comm, Z.add_comm.
Qed.

Lemma not_negative_fltb (x : float) : not_negative x <-> fltb x zero = false.
Proof.
  destruct x as [s|[|]| |[|] m e]; simpl; unfold fltb, SFltb; simpl;
    intuition congruence.
Qed.

Lemma binary_round_aux_sign (sx : bool) (mx ex : Z) (lx : location) :
  sign_of (binary_round_aux prec emax sx mx ex lx) = Some sx \/
  binary_round_aux prec emax sx mx ex lx = S754_nan.
Proof.
  unfold binary_round_aux.
  destruct (shr_fexp prec emax mx ex lx) as [mrs' e'].
  destruct (shr_fexp prec emax _ e' loc_Exact) as [mrs'' e''].
  destruct (shr_m mrs''); auto.
  destruct (Z.leb e'' (emax - prec)); auto.
Qed.

Lemma binary_round_aux_not_negative (mx ex : Z) (lx : location) :
  not_negative (binary_round_aux prec emax false mx ex lx).
Proof.
  destruct (binary_round_aux_sign false mx ex lx) as [E|E].
  - destruct (binary_round_aux prec emax false mx ex lx) as [s|s| |s m e];
      simpl in *; try exact I; injection E as ->; exact I.
  - now rewrite E.
Qed.

Lemma fmul_self_not_negative (v : float) : not_negative (fmul v v).
Proof.
  destruct v as [s|s| |s m e]; simpl; try exact I.
  - now rewrite xorb_nilpotent.
  - unfold fmul, SF64mul, SFmul. rewrite xorb_nilpotent.
    apply binary_round_aux_not_negative.
Qed.

Lemma fadd_not_negative (x y : float) :
  not_negative x -> not_negative y -> not_negative (fadd x y).
Proof.
  destruct x as [sx|[|]| |[|] mx ex], y as [sy|[|]| |[|] my ey];
    simpl; try tauto; intros _ _.
  - now destruct sx, sy.
  - unfold fadd, SF64add, SFadd. cbv zeta.
    unfold cond_Zopp.
    change (Z.add (Zpos ?a) (Zpos ?b)) with (Zpos (a + b)).
    unfold binary_normalize, binary_round.
    destruct (shl_align _ _ _) as [mz ez].
    apply binary_round_aux_not_negative.
Qed.

Lemma fadd_comm (x y : float) : fadd x y = fadd y x.
Proof.
  unfold fadd, SF64add, SFadd.
  destruct x as [[|]|[|]| |sx mx ex], y as [[|]|[|]| |sy my ey];
    try reflexivity.
  cbv zeta. now rewrite Z.min_comm, Z.add_comm.
Qed.

Lemma sum_two_comm (p q : float) :
  fadd (fadd zero p) q = fadd (fadd zero q) p.
Proof.
  destruct p as [[|]|[|]| |sp mp ep], q as [[|]|[|]| |sq mq eq];
    try reflexivity.
  apply fadd_comm.
Qed.

Lemma fold_fadd_not_negative xs : forall acc,
  not_negative acc -> Forall not_negative xs ->
  not_negative (fold_left fadd xs acc).
Proof.
  induction xs as [|x xs IH]; intros acc Hacc Hxs; [assumption|].
  inversion Hxs; subst. cbn [fold_left]. apply IH; [|assumption].
  now apply fadd_not_negative.
Qed.

(** *** Rounding never loses a number of at least 2^-1074 *)

(** Number of binary digits. *)
Lemma digits2_pos_size (p : positive) : digits2_pos p = Pos.size p.
Proof. induction p; cbn; congruence. Qed.

Lemma Zdigits2_log2 (p : positive) :
  Zdigits2 (Z.pos p) = Z.log2 (Z.pos p) + 1.
Proof.
  unfold Zdigits2. rewrite digits2_pos_size.
  destruct p; cbn; lia.
Qed.

Lemma iter_pos_iter {A : Type} (f : A -> A) (p : positive) : forall x,
  iter_pos f p x = Pos.iter f x p.
Proof.
  induction p as [p IH|p IH|]; intros x; cbn.
  - rewrite !IH. now rewrite <- !Pos.iter_swap.
  - now rewrite !IH.
  - reflexivity.
Qed.

Lemma shr_1_m (mrs : shr_record) :
  0 <= shr_m mrs -> shr_m (shr_1 mrs) = Z.div2 (shr_m mrs).
Proof.
  destruct mrs as [m r s]. cbn [shr_m]. intros Hm.
  destruct m as [|[p|p|]|p]; cbn; try reflexivity; lia.
Qed.

Lemma shr_iter_m (p : positive) : forall mrs,
  0 <= shr_m mrs ->
  shr_m (Pos.iter shr_1 mrs p) = Pos.iter Z.div2 (shr_m mrs) p.
Proof.
  intros mrs. revert mrs.
  apply (Pos.peano_ind (fun p => forall mrs, 0 <= shr_m mrs ->
    shr_m (Pos.iter shr_1 mrs p) = Pos.iter Z.div2 (shr_m mrs) p)).
  - intros mrs Hm. cbn. now apply shr_1_m.
  - intros q IH mrs Hm. rewrite !Pos.iter_succ.
    rewrite shr_1_m.
    + now rewrite IH.
    + rewrite IH by assumption.
      change (Pos.iter Z.div2 (shr_m mrs) q) with (Z.shiftr (shr_m mrs) (Z.pos q)).
      now apply Z.shiftr_nonneg.
Qed.

Lemma shr_m_shiftr (mrs : shr_record) (e : Z) (p : positive) :
  0 <= shr_m mrs ->
  shr_m (fst (shr mrs e (Z.pos p))) = Z.shiftr (shr_m mrs) (Z.pos p).
Proof.
  intros Hm. unfold shr. cbn [fst]. rewrite iter_pos_iter.
  now rewrite shr_iter_m.
Qed.

Lemma shr_record_of_loc_m (m : Z) (l : location) :
  shr_m (shr_record_of_loc m l) = m.
Proof. destruct l as [|[| |]]; reflexivity. Qed.

(** The exponent of the format. *)
Lemma fexp_eq (e : Z) : fexp prec emax e = Z.max (e - 53) (-1074).
Proof. reflexivity. Qed.

(** A shift that keeps the leading digit. *)
Lemma shr_fexp_keeps (m e : Z) (l : location) :
  0 < m -> -1073 <= Zdigits2 m + e ->
  let '(mrs, e') := shr_fexp prec emax m e l in
  0 < shr_m mrs /\
  Zdigits2 (shr_m mrs) + e' = Zdigits2 m + e /\
  -1074 <= e'.
Proof.
  intros Hm Hbig. destruct m as [|p|p]; try lia.
  unfold shr_fexp. rewrite fexp_eq.
  rewrite Zdigits2_log2 in *.
  set (n := Z.max (Z.log2 (Z.pos p) + 1 + e - 53) (-1074) - e).
  destruct n as [|q|q] eqn:En.
  - cbn [shr]. rewrite shr_record_of_loc_m, Zdigits2_log2. lia.
  - pose proof (shr_m_shiftr (shr_record_of_loc (Z.pos p) l) e q) as Hs.
    rewrite shr_record_of_loc_m in Hs. specialize (Hs ltac:(lia)).
    destruct (shr (shr_record_of_loc (Z.pos p) l) e (Z.pos q)) as [mrs e'] eqn:Eshr.
    cbn [fst] in Hs.
    assert (He' : e' = e + Z.pos q).
    { unfold shr in Eshr. now injection Eshr as _ <-. }
    assert (Hle : Z.pos q <= Z.log2 (Z.pos p)) by lia.
    assert (Hlog : Z.log2 (Z.shiftr (Z.pos p) (Z.pos q))
                   = Z.log2 (Z.pos p) - Z.pos q).
    { rewrite Z.log2_shiftr by lia. lia. }
    assert (Hpos : 0 < Z.shiftr (Z.pos p) (Z.pos q)).
    { assert (Hnn : 0 <= Z.shiftr (Z.pos p) (Z.pos q))
        by (apply Z.shiftr_nonneg; lia).
      destruct (Z.eq_dec (Z.shiftr (Z.pos p) (Z.pos q)) 0) as [E0|]; [|lia].
      apply Z.shiftr_eq_0_iff in E0 as [E0 | [_ E0]]; lia. }
    rewrite Hs. split; [assumption|].
    destruct (Z.shiftr (Z.pos p) (Z.pos q)) as [|r|r] eqn:Er; try lia.
    rewrite Zdigits2_log2, Hlog. lia.
  - cbn [shr]. rewrite shr_record_of_loc_m, Zdigits2_log2. lia.
Qed.

Lemma shr_fexp_exponent (m e : Z) (l : location) :
  -1074 <= snd (shr_fexp prec emax m e l).
Proof.
  unfold shr_fexp. rewrite fexp_eq. unfold shr.
  destruct (Z.max (Zdigits2 m + e - 53) (-1074) - e) eqn:En; cbn [snd]; lia.
Qed.

Lemma round_nearest_even_bounds (m : Z) (l : location) :
  m <= round_nearest_even m l <= m + 1.
Proof.
  destruct l as [|[| |]]; cbn; try lia. destruct (Z.even m); lia.
Qed.

Lemma Zdigits2_le (a b : Z) : 0 < a -> a <= b -> Zdigits2 a <= Zdigits2 b.
Proof.
  intros Ha Hab. destruct a as [|p|p], b as [|q|q]; try lia.
  rewrite !Zdigits2_log2. pose proof (Z.log2_le_mono (Z.pos p) (Z.pos q) Hab).
  lia.
Qed.

(** What rounding returns for a number of at least 2^-1074. *)
Lemma binary_round_aux_keeps (sx : bool) (mx ex : Z) (lx : location) :
  0 < mx -> -1073 <= Zdigits2 mx + ex ->
  match binary_round_aux prec emax sx mx ex lx with
  | S754_finite s m e =>
      s = sx /\ Zdigits2 mx + ex <= Zdigits2 (Z.pos m) + e /\ -1074 <= e
  | S754_infinity s => s = sx
  | _ => False
  end.
Proof.
  intros Hm Hbig. unfold binary_round_aux.
  pose proof (shr_fexp_keeps mx ex lx Hm Hbig) as H1.
  destruct (shr_fexp prec emax mx ex lx) as [mrs' e'].
  destruct H1 as (Hm' & Hd' & He').
  pose proof (round_nearest_even_bounds (shr_m mrs') (loc_of_shr_record mrs'))
    as Hr.
  set (m1 := round_nearest_even (shr_m mrs') (loc_of_shr_record mrs')) in *.
  assert (Hd1 : Zdigits2 (shr_m mrs') <= Zdigits2 m1)
    by (apply Zdigits2_le; lia).
  pose proof (shr_fexp_keeps m1 e' loc_Exact ltac:(lia) ltac:(lia)) as H2.
  destruct (shr_fexp prec emax m1 e' loc_Exact) as [mrs'' e''].
  destruct H2 as (Hm'' & Hd'' & He'').
  destruct (shr_m mrs'') as [|m|m]; try lia.
  destruct (Z.leb e'' (emax - prec)); [|reflexivity].
  split; [reflexivity|]. lia.
Qed.

Lemma binary_round_aux_rounded (sx : bool) (mx ex : Z) (lx : location) :
  rounded (binary_round_aux prec emax sx mx ex lx).
Proof.
  unfold binary_round_aux.
  destruct (shr_fexp prec emax mx ex lx) as [mrs' e'].
  pose proof (shr_fexp_exponent
                (round_nearest_even (shr_m mrs') (loc_of_shr_record mrs'))
                e' loc_Exact) as He.
  destruct (shr_fexp prec emax _ e' loc_Exact) as [mrs'' e''].
  cbn [snd] in He.
  destruct (shr_m mrs''); try exact I.
  destruct (Z.leb e'' (emax - prec)); [exact He | exact I].
Qed.

Lemma fmul_rounded (x y : float) : rounded (fmul x y).
Proof.
  destruct x as [sx|sx| |sx mx ex], y as [sy|sy| |sy my ey]; try exact I.
  apply binary_round_aux_rounded.
Qed.

Lemma fadd_rounded (x y : float) :
  rounded x -> rounded y -> rounded (fadd x y).
Proof.
  destruct x as [sx|sx| |sx mx ex], y as [sy|sy| |sy my ey];
    intros Hx Hy; try exact I; try assumption.
  - now destruct sx, sy.
  - now destruct sx, sy.
  - unfold fadd, SF64add, SFadd. cbv zeta.
    unfold binary_normalize, binary_round.
    destruct (Z.add _ _); [exact I| |];
      destruct (shl_align _ _ _) as [mz ez]; apply binary_round_aux_rounded.
Qed.

Lemma log2_sqrt_lower (a : Z) : 0 < a -> Z.log2 a / 2 <= Z.log2 (Z.sqrt a).
Proof.
  intros Ha.
  pose proof (Z.log2_nonneg a) as Hk.
  destruct (Z.log2_spec a Ha) as [Hlow _].
  set (j := Z.log2 a / 2) in *.
  assert (Hj : 0 <= j) by (apply Z.div_pos; lia).
  assert (Hsq : 2 ^ j * 2 ^ j <= a).
  { rewrite <- Z.pow_add_r by lia.
    apply Z.le_trans with (2 ^ Z.log2 a); [|assumption].
    apply Z.pow_le_mono_r; [lia|].
    pose proof (Z.mul_div_le (Z.log2 a) 2 ltac:(lia)) as Hdiv.
    fold j in Hdiv. clear -Hdiv. lia. }
  assert (Hle : 2 ^ j <= Z.sqrt a).
  { apply Z.sqrt_le_square; [lia | apply Z.pow_nonneg; lia | assumption]. }
  apply Z.log2_le_mono in Hle. rewrite Z.log2_pow2 in Hle by lia. exact Hle.
Qed.

Lemma sqrt_core_large (mx : positive) (ex : Z) :
  -1074 <= ex ->
  let '(q, e', l) := SFsqrt_core_binary prec emax (Z.pos mx) ex in
  0 < q /\ -536 <= Zdigits2 q + e'.
Proof.
  intros Hex. unfold SFsqrt_core_binary.
  set (d := Zdigits2 (Z.pos mx)).
  set (e' := Z.min (fexp prec emax (Z.div2 (d + ex + 1))) (Z.div2 ex)).
  set (s := ex - 2 * e').
  assert (Hs : 0 <= s).
  { unfold s, e'. pose proof (Z.div2_div ex) as Hd.
    pose proof (Z.mul_div_le ex 2 ltac:(lia)) as Hle.
    pose proof (Z.le_min_r (fexp prec emax (Z.div2 (d + ex + 1))) (Z.div2 ex)).
    lia. }
  set (m' := match s with
             | 0 => Z.pos mx
             | Z.pos _ => Z.shiftl (Z.pos mx) s
             | Z.neg _ => 0
             end).
  assert (Hm' : m' = Z.shiftl (Z.pos mx) s).
  { unfold m'. destruct s; [reflexivity | reflexivity | lia]. }
  assert (Hpos : 0 < m').
  { rewrite Hm', Z.shiftl_mul_pow2 by lia.
    apply Z.mul_pos_pos; [lia | apply Z.pow_pos_nonneg; lia]. }
  assert (Hlog : Z.log2 m' = Z.log2 (Z.pos mx) + s).
  { rewrite Hm'. apply Z.log2_shiftl; lia. }
  pose proof (Z.sqrtrem_sqrt m') as Hq.
  destruct (Z.sqrtrem m') as [q r]. cbn [fst] in Hq. subst q.
  pose proof (log2_sqrt_lower m' Hpos) as Hlow.
  assert (Hqpos : 0 < Z.sqrt m') by (apply Z.sqrt_pos; lia).
  split; [assumption|].
  destruct (Z.sqrt m') as [|q|q] eqn:Eq; try lia.
  rewrite Zdigits2_log2.
  pose proof (Z.log2_nonneg (Z.pos mx)) as Hnn.
  rewrite Hlog in Hlow.
  assert (Hhalf : (Z.log2 (Z.pos mx) + s) / 2
                  = (Z.log2 (Z.pos mx) + ex) / 2 - e').
  { unfold s.
    replace (Z.log2 (Z.pos mx) + (ex - 2 * e'))
      with (Z.log2 (Z.pos mx) + ex + (- e') * 2) by ring.
    rewrite Z.div_add by lia. ring. }
  rewrite Hhalf in Hlow.
  assert (Hdiv : -537 <= (Z.log2 (Z.pos mx) + ex) / 2).
  { apply Z.div_le_lower_bound; lia. }
  clearbody e'. clear -Hlow Hdiv. lia.
Qed.

Lemma fsqrt_large (x : float) :
  rounded x ->
  match fsqrt x with
  | S754_finite _ m e => -536 <= Zdigits2 (Z.pos m) + e
  | _ => True
  end.
Proof.
  intros Hx. destruct x as [s|[|]| |[|] mx ex]; try exact I.
  cbn in Hx.
  pose proof (sqrt_core_large mx ex Hx) as Hcore.
  unfold fsqrt, SF64sqrt, SFsqrt.
  destruct (SFsqrt_core_binary prec emax (Z.pos mx) ex) as [[q e'] l].
  destruct Hcore as [Hq Hbig].
  pose proof (binary_round_aux_keeps false q e' l Hq ltac:(lia)) as Hr.
  destruct (binary_round_aux prec emax false q e' l) as [?|?| |? m e];
    try exact I. lia.
Qed.

Lemma fmul_large (x y : float) :
  large x -> large y -> feqb (fmul x y) zero = false.
Proof.
  destruct x as [sx|sx| |sx mx ex], y as [sy|sy| |sy my ey];
    unfold large; intros Hx Hy; try contradiction; try reflexivity;
    try (destruct sx, sy; reflexivity).
  unfold fmul, SF64mul, SFmul.
  rewrite Zdigits2_log2 in Hx, Hy.
  pose proof (Z.log2_mul_below (Z.pos mx) (Z.pos my) ltac:(lia) ltac:(lia))
    as Hmul.
  assert (Hpre : -1073 <= Zdigits2 (Z.pos (mx * my)) + (ex + ey)).
  { rewrite Zdigits2_log2, Pos2Z.inj_mul. lia. }
  pose proof (binary_round_aux_keeps (xorb sx sy) (Z.pos (mx * my))
                (ex + ey) loc_Exact ltac:(lia) Hpre) as Hr.
  destruct (binary_round_aux prec emax (xorb sx sy) (Z.pos (mx * my))
              (ex + ey) loc_Exact) as [?|s| |s m e];
    try contradiction; now destruct s.
Qed.

(* ================================================================= *)
(** ** A float divided by itself *)

Lemma div_eucl_div_mod (a b : Z) : Z.div_eucl a b = (a / b, a mod b).
Proof. unfold Z.div, Z.modulo. now destruct (Z.div_eucl a b). Qed.

Lemma new_location_zero (nb_steps : Z) : new_location nb_steps 0 = loc_Exact.
Proof.
  unfold new_location, new_location_even, new_location_odd.
  now destruct (Z.even nb_steps).
Qed.

Lemma div_core_self (m : positive) (e : Z) :
  SFdiv_core_binary prec emax (Z.pos m) e (Z.pos m) e
  = (2 ^ 53, -53, loc_Exact).
Proof.
  unfold SFdiv_core_binary.
  replace (Zdigits2 (Z.pos m) + e - (Zdigits2 (Z.pos m) + e)) with 0 by lia.
  rewrite fexp_eq. replace (e - e) with 0 by lia.
  change (Z.min (Z.max (0 - 53) (-1074)) 0) with (-53).
  change (0 - -53) with 53.
  rewrite Z.shiftl_mul_pow2 by lia.
  rewrite div_eucl_div_mod.
  rewrite (Z.mul_comm (Z.pos m)).
  rewrite Z.div_mul, Z.mod_mul by lia.
  now rewrite new_location_zero.
Qed.

(** [x / x] is 1.0 for every finite [x]. *)
Lemma fdiv_self (s : bool) (m : positive) (e : Z) :
  fdiv (S754_finite s m e) (S754_finite s m e) = lit 1.
Proof.
  unfold fdiv, SF64div, SFdiv. rewrite div_core_self.
  now destruct s.
Qed.

(* ================================================================= *)
(** ** Rounding to nearest: the square root of a square *)

Lemma shifted_start (m0 : Z) :
  0 <= m0 -> shifted m0 0 (Build_shr_record m0 false false).
Proof.
  intros Hm. exists 0. cbn [shr_m shr_r shr_s]. change (2 ^ 0) with 1.
  repeat split; try lia; try discriminate.
Qed.

Lemma shr_1_shifted (m0 n : Z) (mrs : shr_record) :
  0 <= n -> shifted m0 n mrs -> shifted m0 (n + 1) (shr_1 mrs).
Proof.
  intros Hn (rem & Hm & Hrem & Hpos & Hr & Hs).
  assert (E : 2 ^ (n + 1) = 2 * 2 ^ n)
    by (rewrite Z.pow_add_r by lia; change (2 ^ 1) with 2; ring).
  unfold shifted. rewrite E. clear E.
  pose proof (Z.pow_pos_nonneg 2 n ltac:(lia) Hn) as HX.
  set (X := 2 ^ n) in *. clearbody X.
  destruct mrs as [m r s]. cbn [shr_m shr_r shr_s] in *.
  assert (Hor : orb r s = true <-> rem <> 0).
  { split.
    - intros H. apply orb_true_iff in H as [H | H].
      + apply Hr in H. lia.
      + apply Hs in H. tauto.
    - intros Hne. apply orb_true_iff.
      destruct (Z.eq_dec (2 * rem) X) as [E|E].
      + left. apply Hr. lia.
      + right. apply Hs. tauto. }
  destruct m as [|p|p]; [| |lia].
  - exists rem. cbn [shr_1 shr_m shr_r shr_s].
    split; [lia|]. split; [lia|]. split; [lia|]. split; split.
    + discriminate.
    + lia.
    + intros H. apply Hor in H. lia.
    + intros [H _]. now apply Hor.
  - destruct p as [p|p|]; cbn [shr_1 shr_m shr_r shr_s].
    + exists (X + rem).
      split; [lia|]. split; [lia|]. split; [lia|]. split; split.
      * lia.
      * reflexivity.
      * intros H. apply Hor in H. lia.
      * intros [_ H]. apply Hor. lia.
    + exists rem.
      split; [lia|]. split; [lia|]. split; [lia|]. split; split.
      * discriminate.
      * lia.
      * intros H. apply Hor in H. lia.
      * intros [H _]. now apply Hor.
    + exists (X + rem).
      split; [lia|]. split; [lia|]. split; [lia|]. split; split.
      * lia.
      * reflexivity.
      * intros H. apply Hor in H. lia.
      * intros [_ H]. apply Hor. lia.
Qed.

Lemma iter_shifted (m0 : Z) (p : positive) :
  0 <= m0 ->
  shifted m0 (Z.pos p) (iter_pos shr_1 p (Build_shr_record m0 false false)).
Proof.
  intros Hm. rewrite iter_pos_iter.
  induction p as [|p IH] using Pos.peano_ind.
  - change (Z.pos 1) with (0 + 1). cbn [Pos.iter].
    apply shr_1_shifted; [lia|]. now apply shifted_start.
  - rewrite Pos.iter_succ, Pos2Z.inj_succ.
    apply shr_1_shifted; [lia|exact IH].
Qed.

(** Rounding the shifted number to nearest moves it by half a unit at
    most. *)
Lemma round_shifted (m0 n : Z) (mrs : shr_record) :
  0 <= n -> shifted m0 n mrs ->
  exists delta,
    round_nearest_even (shr_m mrs) (loc_of_shr_record mrs) * 2 ^ n
    = m0 + delta /\
    - 2 ^ n <= 2 * delta <= 2 ^ n /\
    shr_m mrs * 2 ^ n <= m0 < (shr_m mrs + 1) * 2 ^ n.
Proof.
  intros Hn (rem & Hm & Hrem & Hpos & Hr & Hs).
  pose proof (Z.pow_pos_nonneg 2 n ltac:(lia) Hn) as HX.
  set (X := 2 ^ n) in *. clearbody X.
  destruct mrs as [m r s]. cbn [shr_m shr_r shr_s] in *.
  assert (Hup : (m + 1) * X = m * X + X) by ring.
  destruct r, s; cbn [loc_of_shr_record round_nearest_even].
  - exists (X - rem). rewrite Hup.
    pose proof (proj1 Hr eq_refl). lia.
  - assert (2 * rem = X).
    { pose proof (proj1 Hr eq_refl).
      destruct (Z.eq_dec (2 * rem) X); [assumption|].
      assert (false = true) by (apply Hs; lia). discriminate. }
    destruct (Z.even m).
    + exists (- rem). lia.
    + exists (X - rem). rewrite Hup. lia.
  - exists (- rem).
    assert (~ X <= 2 * rem) by (intros H; apply Hr in H; discriminate).
    lia.
  - assert (rem = 0).
    { assert (~ X <= 2 * rem) by (intros H; apply Hr in H; discriminate).
      destruct (Z.eq_dec rem 0); [assumption|].
      assert (false = true) by (apply Hs; lia). discriminate. }
    exists 0. lia.
Qed.

Lemma Zdigits2_bounds (m d : Z) :
  0 <= d -> 2 ^ d <= m < 2 ^ (d + 1) -> Zdigits2 m = d + 1.
Proof.
  intros Hd Hm.
  assert (0 < m) by (pose proof (Z.pow_pos_nonneg 2 d); lia).
  destruct m as [|p|p]; try lia.
  rewrite Zdigits2_log2. f_equal. now apply Z.log2_unique.
Qed.

Lemma Zdigits2_inv (m d : Z) :
  0 < m -> Zdigits2 m = d + 1 -> 2 ^ d <= m < 2 ^ (d + 1).
Proof.
  intros Hm Hd. destruct m as [|p|p]; try lia.
  rewrite Zdigits2_log2 in Hd.
  pose proof (Z.log2_spec (Z.pos p) ltac:(lia)) as Hs.
  replace d with (Z.log2 (Z.pos p)) by lia. exact Hs.
Qed.

(** A mantissa that fits is not shifted. *)
Lemma shr_fexp_fits (m e : Z) (l : location) :
  Zdigits2 m <= 53 -> -1074 <= e ->
  shr_fexp prec emax m e l = (shr_record_of_loc m l, e).
Proof.
  intros Hd He. unfold shr_fexp. rewrite fexp_eq. unfold shr.
  destruct (Z.max (Zdigits2 m + e - 53) (-1074) - e) eqn:En;
    [reflexivity|lia|reflexivity].
Qed.

(** The result of rounding a mantissa of 53 + [n] bits: 53 bits, at half
    a unit at most from the mantissa. *)
Lemma binary_round_aux_shift (sx : bool) (Q ex : Z) (n : positive) :
  0 < Q -> Zdigits2 Q = 53 + Z.pos n ->
  -1074 <= ex + Z.pos n -> ex + Z.pos n + 1 <= 971 ->
  exists P F k delta,
    binary_round_aux prec emax sx Q ex loc_Exact = S754_finite sx P F /\
    2 ^ 52 <= Z.pos P < 2 ^ 53 /\
    F = ex + k /\
    (k = Z.pos n \/ k = Z.pos n + 1) /\
    Z.pos P * 2 ^ k = Q + delta /\
    - 2 ^ Z.pos n <= 2 * delta <= 2 ^ Z.pos n.
Proof.
  intros HQ Hd Hlow Hhigh.
  unfold binary_round_aux.
  assert (E1 : shr_fexp prec emax Q ex loc_Exact
               = (iter_pos shr_1 n (Build_shr_record Q false false),
                  ex + Z.pos n)).
  { unfold shr_fexp. rewrite fexp_eq, Hd.
    replace (Z.max (53 + Z.pos n + ex - 53) (-1074) - ex) with (Z.pos n)
      by lia.
    reflexivity. }
  rewrite E1.
  pose proof (iter_shifted Q n ltac:(lia)) as Hsh.
  set (mrs := iter_pos shr_1 n (Build_shr_record Q false false)) in *.
  destruct (round_shifted Q (Z.pos n) mrs ltac:(lia) Hsh)
    as (delta & HP0 & Hdelta & Hfloor).
  pose proof (round_nearest_even_bounds (shr_m mrs) (loc_of_shr_record mrs))
    as Hb.
  set (P0 := round_nearest_even (shr_m mrs) (loc_of_shr_record mrs)) in *.
  pose proof (Zdigits2_inv Q (52 + Z.pos n) HQ ltac:(lia)) as HQb.
  rewrite Z.pow_add_r in HQb by lia.
  replace (52 + Z.pos n + 1) with (53 + Z.pos n) in HQb by lia.
  rewrite Z.pow_add_r in HQb by lia.
  pose proof (Z.pow_pos_nonneg 2 (Z.pos n) ltac:(lia) ltac:(lia)) as HX.
  set (X := 2 ^ Z.pos n) in *.
  assert (Hm : 2 ^ 52 <= shr_m mrs < 2 ^ 53) by (clearbody X; nia).
  destruct (Z_lt_le_dec P0 (2 ^ 53)) as [Hlt | Hge].
  - rewrite shr_fexp_fits; [|rewrite (Zdigits2_bounds P0 52); lia|lia].
    cbn [shr_record_of_loc shr_m].
    destruct P0 as [|P|P] eqn:EP; try lia.
    replace (ex + Z.pos n <=? emax - prec) with true
      by (symmetry; apply Z.leb_le; change (emax - prec) with 971; lia).
    exists P, (ex + Z.pos n), (Z.pos n), delta.
    repeat split; lia.
  - assert (EP : P0 = 2 ^ 53) by lia.
    assert (E2 : shr_fexp prec emax P0 (ex + Z.pos n) loc_Exact
                 = (Build_shr_record (2 ^ 52) false false,
                    ex + Z.pos n + 1)).
    { unfold shr_fexp. rewrite fexp_eq, EP.
      change (Zdigits2 (2 ^ 53)) with 54.
      replace (Z.max (54 + (ex + Z.pos n) - 53) (-1074) - (ex + Z.pos n))
        with 1 by lia.
      reflexivity. }
    rewrite E2. cbn [shr_m]. change (2 ^ 52) with (Z.pos (2 ^ 52)).
    cbv iota beta.
    replace (ex + Z.pos n + 1 <=? emax - prec) with true
      by (symmetry; apply Z.leb_le; change (emax - prec) with 971; lia).
    exists (2 ^ 52)%positive, (ex + Z.pos n + 1), (Z.pos n + 1), delta.
    repeat split; try lia.
    rewrite Z.pow_add_r by lia. fold X. rewrite <- HP0, EP.
      change (Z.pos (2 ^ 52)) with (2 ^ 52). change (2 ^ 1) with 2.
      change (2 ^ 53) with (2 ^ 52 * 2). ring.
Qed.

Lemma fmul_square (s : bool) (m : positive) (e : Z) :
  2 ^ 52 <= Z.pos m < 2 ^ 53 -> -563 <= e <= 458 ->
  exists P F k delta,
    fmul (S754_finite s m e) (S754_finite s m e) = S754_finite false P F /\
    2 ^ 52 <= Z.pos P < 2 ^ 53 /\
    F = 2 * e + k /\
    (k = 52 \/ k = 53) /\
    Z.pos P * 2 ^ k = Z.pos m * Z.pos m + delta /\
    - 2 ^ k <= 2 * delta <= 2 ^ k.
Proof.
  intros Hm He. unfold fmul, SF64mul, SFmul.
  replace (xorb s s) with false by now destruct s.
  rewrite Pos2Z.inj_mul.
  set (M := Z.pos m) in *.
  assert (HQ : 2 ^ 104 <= M * M < 2 ^ 106).
  { change (2 ^ 104) with (2 ^ 52 * 2 ^ 52).
    change (2 ^ 106) with (2 ^ 53 * 2 ^ 53). nia. }
  destruct (Z_lt_le_dec (M * M) (2 ^ 105)) as [Hlt | Hge].
  - destruct (binary_round_aux_shift false (M * M) (e + e) 52)
      as (P & F & k & delta & Hrun & HP & HF & Hk & Heq & Hdelta);
      try lia.
    { apply (Zdigits2_bounds (M * M) 104); [lia|].
      change (104 + 1) with 105. lia. }
    exists P, F, k, delta. rewrite Hrun.
    repeat split; try lia.
    + destruct Hk as [-> | ->]; [|change (2 ^ (52 + 1)) with (2 * 2 ^ 52)];
        lia.
    + destruct Hk as [-> | ->]; [|change (2 ^ (52 + 1)) with (2 * 2 ^ 52)];
        lia.
  - destruct (binary_round_aux_shift false (M * M) (e + e) 53)
      as (P & F & k & delta & Hrun & HP & HF & Hk & Heq & Hdelta);
      try lia.
    { apply (Zdigits2_bounds (M * M) 105); [lia|].
      change (105 + 1) with 106. lia. }
    destruct Hk as [-> | ->].
    + exists P, F, 53, delta. rewrite Hrun. repeat split; lia.
    + exfalso.
      assert (M * M <= (2 ^ 53 - 1) * (2 ^ 53 - 1)) by nia.
      change (2 ^ (53 + 1)) with (2 ^ 54) in Heq.
      assert (2 ^ 52 * 2 ^ 54 <= Z.pos P * 2 ^ 54) by lia.
      change (2 ^ 52 * 2 ^ 54) with (2 ^ 106) in *.
      change ((2 ^ 53 - 1) * (2 ^ 53 - 1)) with (2 ^ 106 - 2 ^ 54 + 1) in *.
      change (2 ^ Z.pos 53) with (2 ^ 53) in *.
      assert (2 ^ 54 = 2 * 2 ^ 53) by reflexivity.
      lia.
Qed.

Lemma loc_of_shr_record_of_loc (m : Z) (l : location) :
  loc_of_shr_record (shr_record_of_loc m l) = l.
Proof. now destruct l as [|[| |]]. Qed.

(** Rounding a mantissa that fits, with its location. *)
Lemma binary_round_aux_fits (q e : Z) (l : location) (M : positive) :
  0 < q < 2 ^ 53 -> -1074 <= e <= 971 ->
  round_nearest_even q l = Z.pos M -> Z.pos M < 2 ^ 53 ->
  binary_round_aux prec emax false q e l = S754_finite false M e.
Proof.
  intros Hq He Hround HM. unfold binary_round_aux.
  assert (Hd : forall x, 0 < x < 2 ^ 53 -> Zdigits2 x <= 53).
  { intros x Hx.
    change 53 with (Zdigits2 (2 ^ 53 - 1)). apply Zdigits2_le; lia. }
  rewrite shr_fexp_fits by (try apply Hd; lia).
  rewrite shr_record_of_loc_m, loc_of_shr_record_of_loc, Hround.
  rewrite shr_fexp_fits by (try apply Hd; lia).
  cbn [shr_record_of_loc shr_m].
  replace (e <=? emax - prec) with true; [reflexivity|].
  symmetry. apply Z.leb_le. change (emax - prec) with 971. lia.
Qed.

(** The square root of the rounded square of a float is the float. *)
Lemma fsqrt_square (M P : positive) (E k delta : Z) :
  2 ^ 52 <= Z.pos M < 2 ^ 53 ->
  2 ^ 52 <= Z.pos P < 2 ^ 53 ->
  k = 52 \/ k = 53 ->
  Z.pos P * 2 ^ k = Z.pos M * Z.pos M + delta ->
  - 2 ^ k <= 2 * delta <= 2 ^ k ->
  -563 <= E <= 458 ->
  fsqrt (S754_finite false P (2 * E + k)) = S754_finite false M E.
Proof.
  intros HM HP Hk Heq Hdelta HE.
  unfold fsqrt, SF64sqrt, SFsqrt, SFsqrt_core_binary.
  rewrite (Zdigits2_bounds (Z.pos P) 52) by lia.
  rewrite fexp_eq, !Z.div2_div.
  assert (E1 : (52 + 1 + (2 * E + k) + 1) / 2 = E + 53).
  { destruct Hk as [-> | ->].
    - replace (52 + 1 + (2 * E + 52) + 1) with ((E + 53) * 2) by ring.
      apply Z.div_mul. lia.
    - replace (52 + 1 + (2 * E + 53) + 1) with ((E + 53) * 2 + 1) by ring.
      rewrite Z.div_add_l by lia. change (1 / 2) with 0. lia. }
  assert (E2 : (2 * E + k) / 2 = E + 26).
  { destruct Hk as [-> | ->].
    - replace (2 * E + 52) with ((E + 26) * 2) by ring.
      apply Z.div_mul. lia.
    - replace (2 * E + 53) with ((E + 26) * 2 + 1) by ring.
      rewrite Z.div_add_l by lia. change (1 / 2) with 0. lia. }
  rewrite E1, E2.
  replace (Z.min (Z.max (E + 53 - 53) (-1074)) (E + 26)) with E by lia.
  replace (2 * E + k - 2 * E) with k by lia.
  assert (Em : match k with
               | Z.pos _ => Z.shiftl (Z.pos P) k
               | 0 => Z.pos P
               | Z.neg _ => 0
               end = Z.pos M * Z.pos M + delta).
  { rewrite <- Heq.
    destruct Hk as [-> | ->]; now rewrite Z.shiftl_mul_pow2 by lia. }
  rewrite Em. clear Em E1 E2.
  set (Mz := Z.pos M) in *.
  assert (Hd : - 2 ^ 52 <= delta <= 2 ^ 52).
  { destruct Hk as [-> | ->]; [|lia].
    change (2 ^ 52) with (2 * 2 ^ 51) in *. lia. }
  assert (Hlow : - Mz < delta).
  { destruct Hk as [-> | ->].
    - change (2 ^ 52) with (2 * 2 ^ 51) in *. lia.
    - destruct (Z.eq_dec Mz (2 ^ 52)) as [E0 | E0]; [|lia].
      exfalso. rewrite E0 in Heq.
      assert (2 ^ 52 * 2 ^ 53 <= Z.pos P * 2 ^ 53) by lia.
      change (2 ^ 52 * 2 ^ 52) with (2 ^ 104) in Heq.
      change (2 ^ 52 * 2 ^ 53) with (2 ^ 105) in *.
      assert (2 ^ 105 = 2 * 2 ^ 104) by reflexivity.
      assert (2 ^ 104 = 2 ^ 52 * 2 ^ 52) by reflexivity.
      lia. }
  pose proof (Z.sqrtrem_spec (Mz * Mz + delta)) as Hspec.
  pose proof (Z.sqrtrem_sqrt (Mz * Mz + delta)) as Hsqrt.
  destruct (Z.sqrtrem (Mz * Mz + delta)) as [q r].
  cbn [fst] in Hsqrt.
  assert (HQ : 2 ^ 104 <= Mz * Mz).
  { change (2 ^ 104) with (2 ^ 52 * 2 ^ 52). nia. }
  specialize (Hspec ltac:(lia)). destruct Hspec as [Hqr Hr].
  destruct (Z_lt_le_dec delta 0) as [Hneg | Hpos].
  - assert (Hq : q = Mz - 1).
    { rewrite Hsqrt. apply Z.sqrt_unique.
      replace (Z.succ (Mz - 1)) with Mz by lia.
      replace ((Mz - 1) * (Mz - 1)) with (Mz * Mz - 2 * Mz + 1) by ring.
      lia. }
    assert (Hrv : r = delta + 2 * Mz - 1).
    { subst q.
      replace ((Mz - 1) * (Mz - 1)) with (Mz * Mz - 2 * Mz + 1) in Hqr by ring.
      lia. }
    replace (r =? 0) with false by (symmetry; apply Z.eqb_neq; lia).
    replace (r <=? q) with false by (symmetry; apply Z.leb_gt; lia).
    apply binary_round_aux_fits; try lia.
    cbn [round_nearest_even]. lia.
  - assert (Hq : q = Mz).
    { rewrite Hsqrt. apply Z.sqrt_unique.
      replace (Z.succ Mz * Z.succ Mz) with (Mz * Mz + 2 * Mz + 1) by ring.
      lia. }
    assert (Hrv : r = delta) by (subst q; lia).
    apply binary_round_aux_fits; try lia.
    destruct (Z.eqb_spec r 0); [exact Hq|].
    replace (r <=? q) with true by (symmetry; apply Z.leb_le; lia).
    exact Hq.
Qed.

(* ================================================================= *)
(** ** Facts on dictionaries *)

Section DictFacts.
Context {K V : Type} `{Key K}.
Implicit Types (d : dict K V) (k : K) (v : V).

Lemma keyb_refl k : keyb k k = true.
Proof. now apply keyb_eq. Qed.

Lemma keyb_neq k k' : k <> k' -> keyb k k' = false.
Proof.
  intros Hne. destruct (keyb k k') eqn:E; [|reflexivity].
  now apply keyb_eq in E.
Qed.

Lemma keyb_dec k k' : {k = k'} + {k <> k'}.
Proof.
  destruct (keyb k k') eqn:E.
  - left. now apply keyb_eq.
  - right. intros ->. now rewrite keyb_refl in E.
Qed.

Lemma get_In d k v : get d k = Some v -> In (k, v) d.
Proof.
  induction d as [|[k' v'] d IH]; simpl; [discriminate|].
  destruct (keyb k' k) eqn:E.
  - intros [= ->]. apply keyb_eq in E as ->. now left.
  - intros Hg. right. now apply IH.
Qed.

Lemma get_None_keys d k : get d k = None <-> ~ In k (keys d).
Proof.
  induction d as [|[k' v'] d IH]; simpl; [tauto|].
  destruct (keyb k' k) eqn:E.
  - apply keyb_eq in E as ->. split; [discriminate|]. intros Hn. exfalso. auto.
  - rewrite IH. split.
    + intros Hn [->|Hi]; [now rewrite keyb_refl in E | auto].
    + intros Hn Hi. auto.
Qed.

Lemma mem_keys d k : mem d k = true <-> In k (keys d).
Proof.
  unfold mem. destruct (get d k) eqn:E.
  - split; [intros _|reflexivity].
    apply get_In in E. now apply (in_map fst) in E.
  - split; [discriminate|]. intros Hi. now apply get_None_keys in E.
Qed.

Lemma mem_false_keys d k : mem d k = false <-> ~ In k (keys d).
Proof.
  rewrite <- mem_keys. destruct (mem d k); split; congruence.
Qed.

Lemma In_get d k v : wf d -> In (k, v) d -> get d k = Some v.
Proof.
  unfold wf. induction d as [|[k' v'] d IH]; simpl; [tauto|].
  intros Hnd [[= -> ->]|Hi].
  - now rewrite keyb_refl.
  - inversion Hnd as [|? ? Hni Hnd']; subst.
    rewrite keyb_neq.
    + now apply IH.
    + intros ->. apply Hni. now apply (in_map fst) in Hi.
Qed.

Lemma In_mem d k v : In (k, v) d -> mem d k = true.
Proof. intros Hi. apply mem_keys. now apply (in_map fst) in Hi. Qed.

Lemma get_set_same d k v : get (set d k v) k = Some v.
Proof.
  induction d as [|[k' v'] d IH]; simpl.
  - now rewrite keyb_refl.
  - destruct (keyb k' k) eqn:E; simpl; now rewrite E.
Qed.

Lemma get_set_other d k k' v : k <> k' -> get (set d k v) k' = get d k'.
Proof.
  intros Hne. induction d as [|[k0 v0] d IH]; simpl.
  - now rewrite keyb_neq.
  - destruct (keyb k0 k) eqn:E; simpl.
    + apply keyb_eq in E as ->. now rewrite keyb_neq.
    + now rewrite IH.
Qed.

Lemma mem_set d k k' v : mem (set d k v) k' = keyb k k' || mem d k'.
Proof.
  unfold mem. destruct (keyb_dec k k') as [->|Hne].
  - now rewrite get_set_same, keyb_refl.
  - now rewrite get_set_other, keyb_neq.
Qed.

Lemma keys_set d k v :
  keys (set d k v) = if mem d k then keys d else keys d ++ [k].
Proof.
  induction d as [|[k' v'] d IH]; simpl; [reflexivity|].
  unfold mem in *. simpl.
  destruct (keyb k' k) eqn:E; simpl; [reflexivity|].
  rewrite IH. now destruct (get d k).
Qed.

Lemma wf_set d k v : wf d -> wf (set d k v).
Proof.
  unfold wf. intros Hnd. rewrite keys_set.
  destruct (mem d k) eqn:E; [assumption|].
  apply mem_false_keys in E.
  apply NoDup_app; [assumption | repeat constructor; intros [] | ].
  intros x Hx [<-|[]]. contradiction.
Qed.

Lemma get_update_absent d other k :
  get other k = None -> get (update d other) k = get d k.
Proof.
  unfold update. revert d.
  induction other as [|[k' v'] other IH]; simpl; intros d; [reflexivity|].
  destruct (keyb k' k) eqn:E; [discriminate|]. intros Hg.
  rewrite IH by assumption. apply get_set_other.
  intros ->. now rewrite keyb_refl in E.
Qed.

Lemma get_update_present d other k v :
  wf other -> get other k = Some v -> get (update d other) k = Some v.
Proof.
  unfold update, wf. revert d.
  induction other as [|[k' v'] other IH]; simpl; intros d Hnd; [discriminate|].
  inversion Hnd as [|? ? Hni Hnd']; subst.
  destruct (keyb k' k) eqn:E.
  - intros [= ->]. apply keyb_eq in E as ->.
    fold (update (set d k v) other).
    rewrite get_update_absent by now apply get_None_keys.
    apply get_set_same.
  - now apply IH.
Qed.

Lemma mem_update d other k :
  mem (update d other) k = mem d k || mem other k.
Proof.
  unfold update. revert d.
  induction other as [|[k' v'] other IH]; simpl; intros d.
  - unfold mem at 3. simpl. now rewrite orb_false_r.
  - rewrite IH, mem_set. unfold mem at 4. simpl.
    destruct (keyb k' k); simpl.
    + now rewrite orb_true_r.
    + reflexivity.
Qed.

Lemma wf_update d other : wf d -> wf (update d other).
Proof.
  unfold update. revert d.
  induction other as [|[k' v'] other IH]; simpl; intros d Hd; [assumption|].
  apply IH. now apply wf_set.
Qed.

End DictFacts.

Lemma subscript_present {K V} `{Key K} (d : dict K V) (k : K) (default : V) :
  In k (keys d) -> subscript d k = Ok (get_default d k default).
Proof.
  intros Hin. apply mem_keys in Hin. unfold mem, subscript, get_default in *.
  now destruct (get d k).
Qed.

Lemma subscript_raises {K V} `{Key K} (d : dict K V) (k : K) (e : exn) :
  subscript d k = Raise e -> e = KeyError.
Proof. unfold subscript. destruct (get d k); congruence. Qed.

Lemma for_each_ext {A S} (f g : S -> A -> result S) l :
  (forall s a, In a l -> f s a = g s a) ->
  forall s, for_each f l s = for_each g l s.
Proof.
  induction l as [|a l IH]; intros Hfg s; [reflexivity|].
  cbn [for_each]. rewrite Hfg by now left.
  destruct (g s a); [|reflexivity]. cbn [bind].
  apply IH. intros s' a' Hin. apply Hfg. now right.
Qed.

(* ================================================================= *)
(** ** The profile builder: [ratings_to_preferences] *)

Lemma fold_tally_movie info user_ratings acc :
  fold_left (tally_movie info) user_ratings acc =
  fold_left tally_event (tag_events info user_ratings) acc.
Proof.
  revert acc. induction user_ratings as [|[movie_id score] rest IH];
    intros acc; simpl; [reflexivity|].
  unfold tag_events in *. rewrite fold_left_app, IH. f_equal.
  destruct (get info movie_id) as [[title genres]|]; simpl; [|reflexivity].
  clear. revert acc. induction genres as [|g genres IH]; intros acc; simpl;
    [reflexivity|]. now rewrite IH.
Qed.

Lemma genre_scores_events info user_ratings genre :
  genre_scores info user_ratings genre =
  scores_of genre (tag_events info user_ratings).
Proof.
  unfold genre_scores, scores_of, tag_events.
  induction user_ratings as [|[movie_id score] rest IH]; simpl; [reflexivity|].
  rewrite filter_app, map_app, IH. f_equal.
  destruct (get info movie_id) as [[title genres]|]; simpl; [|reflexivity].
  induction genres as [|g genres IHg]; simpl; [reflexivity|].
  destruct (String.eqb genre g); simpl; now rewrite IHg.
Qed.

Lemma scores_of_snoc genre events g s :
  scores_of genre (events ++ [(g, s)]) =
  if String.eqb genre g then scores_of genre events ++ [s]
  else scores_of genre events.
Proof.
  unfold scores_of. rewrite filter_app, map_app. simpl.
  destruct (String.eqb genre g); simpl; [reflexivity|]. now rewrite app_nil_r.
Qed.

Lemma sum_snoc xs x : sum (xs ++ [x]) = fadd (sum xs) x.
Proof. unfold sum. now rewrite fold_left_app. Qed.

Lemma tallied_step acc events g s :
  tallied acc events -> tallied (tally_event acc (g, s)) (events ++ [(g, s)]).
Proof.
  destruct acc as [totals counts]. intros [Hwf Hacc].
  unfold tallied, tally_event, tally_genre; cbn [fst snd] in *.
  split; [now apply wf_set|].
  intros genre. rewrite scores_of_snoc. specialize (Hacc genre) as Hgen.
  destruct (String.eqb genre g) eqn:E.
  - apply String.eqb_eq in E as <-.
    unfold get_default.
    destruct (scores_of genre events) as [|s0 scores] eqn:Es.
    + destruct Hgen as [-> ->]. rewrite !get_set_same. now split.
    + destruct Hgen as [-> ->]. rewrite !get_set_same.
      change ((s0 :: scores) ++ [s]) with (s0 :: (scores ++ [s])).
      cbv iota beta. split; f_equal.
      * change (s0 :: scores ++ [s]) with ((s0 :: scores) ++ [s]).
        now rewrite sum_snoc.
      * cbn [List.length]. rewrite length_app. cbn [List.length]. lia.
  - apply String.eqb_neq in E.
    rewrite !get_set_other by congruence. exact Hgen.
Qed.

Lemma tallied_fold events : forall acc done,
  tallied acc done ->
  tallied (fold_left tally_event events acc) (done ++ events).
Proof.
  induction events as [|[g s] events IH]; intros acc done Hacc; simpl.
  - now rewrite app_nil_r.
  - change ((g, s) :: events) with ([(g, s)] ++ events).
    rewrite app_assoc. apply IH. now apply tallied_step.
Qed.

Lemma tallied_start : tallied ([], []) [].
Proof. split; [constructor|]. intros genre. now simpl. Qed.

Lemma average_loop counts : forall totals averages,
  wf totals ->
  (forall g t, In (g, t) totals -> exists c, get counts g = Some c /\ c <> 0) ->
  exists result,
    for_each (average_genre counts) totals averages = Ok result /\
    (wf averages -> wf result) /\
    forall g,
      get result g =
      match get totals g with
      | Some t => option_map (fun c => fdiv t (of_int c)) (get counts g)
      | None => get averages g
      end.
Proof.
  induction totals as [|[g0 t0] totals IH]; intros averages Hwf Hcounts.
  - exists averages. simpl. auto.
  - inversion Hwf as [|? ? Hni Hwf']; subst.
    destruct (Hcounts g0 t0 (or_introl eq_refl)) as (c0 & Hc0 & Hnz).
    destruct (IH (set averages g0 (fdiv t0 (of_int c0))) Hwf') as (result & Hrun & Hwfr & Hget).
    { intros g t Hi. apply (Hcounts g t). now right. }
    exists result. split; [|split].
    + cbn [for_each]. unfold average_genre at 1, subscript, truediv_int.
      rewrite Hc0. cbn [bind]. apply Z.eqb_neq in Hnz. rewrite Hnz.
      cbn [bind]. exact Hrun.
    + intros Ha. apply Hwfr. now apply wf_set.
    + intros g. rewrite Hget. cbn [get]. cbn [keyb Key_string].
      destruct (String.eqb g0 g) eqn:E.
      * apply String.eqb_eq in E as <-.
        assert (Hn : get totals g0 = None) by now apply get_None_keys.
        rewrite Hn, get_set_same, Hc0. reflexivity.
      * apply String.eqb_neq in E. destruct (get totals g); [reflexivity|].
        now apply get_set_other.
Qed.

Lemma genre_scores_nonempty info user_ratings genre :
  genre_scores info user_ratings genre <> [] <->
  exists movie_id score title genres,
    In (movie_id, score) user_ratings /\
    get info movie_id = Some (title, genres) /\
    In genre genres.
Proof.
  unfold genre_scores. split.
  - intros Hne.
    destruct (flat_map _ user_ratings) as [|x xs] eqn:E; [congruence|].
    assert (Hx : In x (flat_map
      (fun entry : Z * float =>
         match get info (fst entry) with
         | Some (_, genres) =>
             map (fun _ => snd entry) (filter (String.eqb genre) genres)
         | None => []
         end) user_ratings)) by (rewrite E; now left).
    apply in_flat_map in Hx as ([movie_id score] & Hin & Hx). simpl in Hx.
    destruct (get info movie_id) as [[title genres]|] eqn:Eg; [|contradiction].
    apply in_map_iff in Hx as (g & _ & Hg).
    apply filter_In in Hg as [Hg Heq]. apply String.eqb_eq in Heq as <-.
    now exists movie_id, score, title, genres.
  - intros (movie_id & score & title & genres & Hin & Hg & Hgen) Hnil.
    assert (Hx : In score (flat_map
      (fun entry : Z * float =>
         match get info (fst entry) with
         | Some (_, genres) =>
             map (fun _ => snd entry) (filter (String.eqb genre) genres)
         | None => []
         end) user_ratings)).
    { apply in_flat_map. exists (movie_id, score). split; [assumption|].
      simpl. rewrite Hg. apply in_map_iff. exists genre. split; [reflexivity|].
      apply filter_In. split; [assumption|]. apply String.eqb_refl. }
    now rewrite Hnil in Hx.
Qed.

Lemma ratings_to_preferences_spec info user_ratings :
  exists prefs,
    ratings_to_preferences info user_ratings = Ok prefs /\
    wf prefs /\
    forall genre,
      get prefs genre = average (genre_scores info user_ratings genre).
Proof.
  unfold ratings_to_preferences. rewrite fold_tally_movie.
  pose proof (tallied_fold (tag_events info user_ratings) _ _ tallied_start)
    as Ht.
  rewrite app_nil_l in Ht.
  destruct (fold_left tally_event (tag_events info user_ratings) ([], []))
    as [totals counts].
  destruct Ht as [Hwf Ht]. cbn [fst snd] in *.
  destruct (average_loop counts totals [] Hwf) as (prefs & Hrun & Hwfp & Hget).
  { intros g t Hi. apply In_get in Hi; [|assumption].
    specialize (Ht g). destruct (scores_of g _) as [|s0 scores].
    - destruct Ht as [Ht _]. congruence.
    - destruct Ht as [_ Hc]. eexists. split; [exact Hc|].
      cbn [List.length]. lia. }
  exists prefs. split; [exact Hrun|]. split; [apply Hwfp; constructor|].
  intros genre. rewrite Hget, genre_scores_events.
  specialize (Ht genre). destruct (scores_of genre _) as [|s0 scores].
  - destruct Ht as [-> _]. reflexivity.
  - destruct Ht as [-> ->]. reflexivity.
Qed.

Lemma rated_scores_distinct_tags info user_ratings genre :
  (forall movie_id title genres,
      get info movie_id = Some (title, genres) -> NoDup genres) ->
  rated_scores info user_ratings genre = genre_scores info user_ratings genre.
Proof.
  intros Hdistinct. unfold rated_scores, genre_scores.
  induction user_ratings as [|[movie_id score] rest IH]; [reflexivity|].
  cbn [flat_map fst snd]. rewrite IH. f_equal.
  destruct (get info movie_id) as [[title genres]|] eqn:Eg; [|reflexivity].
  specialize (Hdistinct _ _ _ Eg). clear Eg IH.
  induction genres as [|g genres IHg]; [reflexivity|].
  inversion Hdistinct as [|? ? Hni Hnd]; subst.
  cbn [existsb filter]. destruct (String.eqb genre g) eqn:E.
  - apply String.eqb_eq in E as <-. cbn [orb map]. f_equal.
    assert (Hnone : filter (String.eqb genre) genres = []).
    { clear -Hni. induction genres as [|g' genres IH]; [reflexivity|].
      cbn [filter]. destruct (String.eqb genre g') eqn:E.
      - apply String.eqb_eq in E as <-. exfalso. apply Hni. now left.
      - apply IH. intros Hin. apply Hni. now right. }
    now rewrite Hnone.
  - cbn [orb]. now apply IHg.
Qed.

(** [ratings_to_preferences] on every catalog: it never raises, the keys
    of the profile are the genres of the catalog movies the user rated, and
    a genre maps to the average of the scores met under that tag, a score
    being met once for every occurrence of the tag. *)
Lemma ratings_to_preferences_per_tag (info : catalog) (user_ratings : ratings) :
  exists prefs,
    ratings_to_preferences info user_ratings = Ok prefs /\
    wf prefs /\
    (forall genre,
        In genre (keys prefs) <->
        exists movie_id score title genres,
          In (movie_id, score) user_ratings /\
          get info movie_id = Some (title, genres) /\
          In genre genres) /\
    (forall genre,
        get prefs genre = average (genre_scores info user_ratings genre)).
Proof.
  destruct (ratings_to_preferences_spec info user_ratings)
    as (prefs & Hrun & Hwf & Hget).
  exists prefs. split; [assumption|]. split; [assumption|].
  split; [|assumption].
  intros genre. split.
  - intros Hin. apply genre_scores_nonempty.
    apply mem_keys in Hin. unfold mem in Hin. rewrite Hget in Hin.
    intros Hnil. rewrite Hnil in Hin. discriminate.
  - intros Hex. apply genre_scores_nonempty in Hex.
    apply mem_keys. unfold mem. rewrite Hget.
    destruct (genre_scores info user_ratings genre); [congruence|reflexivity].
Qed.

(** C2, as amended: for a catalog in which no movie repeats a genre,
    [ratings_to_preferences] returns (it never raises) a profile whose keys
    are exactly the genres of the catalog movies the user rated, and every
    genre maps to the sum of the user's ratings of the catalog movies tagged
    with it (added up from 0.0 in the order of the user's ratings) divided
    by their count. A rated movie that is absent from the catalog
    contributes nothing, and a movie with several genres contributes to
    each of them. *)
Theorem C2_profile_is_average_per_genre
    (info : catalog) (user_ratings : ratings) :
  (forall movie_id title genres,
      get info movie_id = Some (title, genres) -> NoDup genres) ->
  exists prefs,
    ratings_to_preferences info user_ratings = Ok prefs /\
    wf prefs /\
    (forall genre,
        In genre (keys prefs) <->
        exists movie_id score title genres,
          In (movie_id, score) user_ratings /\
          get info movie_id = Some (title, genres) /\
          In genre genres) /\
    (forall genre,
        get prefs genre = average (rated_scores info user_ratings genre)).
Proof.
  intros Hdistinct.
  destruct (ratings_to_preferences_per_tag info user_ratings)
    as (prefs & Hrun & Hwf & Hkeys & Hget).
  exists prefs. split; [assumption|]. split; [assumption|].
  split; [assumption|].
  intros genre. now rewrite rated_scores_distinct_tags.
Qed.

(** C2 on user 10 of the example, who rated a Drama 5.0 and a Comedy 1.0. *)
Lemma C2_witness :
  ratings_to_preferences example_catalog [(1, lit 5); (2, lit 1)]
  = Ok [("Drama"%string, lit 5); ("Comedy"%string, lit 1)].
Proof.
  destruct (C2_profile_is_average_per_genre example_catalog
              [(1, lit 5); (2, lit 1)]) as (prefs & Hrun & _).
  - intros movie_id title genres Hget. apply get_In in Hget.
    destruct Hget as [[= _ _ <-] | [[= _ _ <-] | [[= _ _ <-] | []]]];
      repeat constructor; cbn; intuition discriminate.
  - rewrite Hrun. vm_compute in Hrun. injection Hrun as <-. reflexivity.
Defined.

(** C2 as it was claimed fails where a movie repeats a tag: movie 1 is
    tagged Drama twice and rated 5.0, movie 2 once and rated 2.0; the
    profile holds (5.0 + 5.0 + 2.0) / 3 = 4.0 for Drama, and the average of
    the user's two Drama ratings is 3.5. *)
Lemma C2_counterexample_repeated_tag :
  ratings_to_preferences repeated_tag_catalog repeated_tag_ratings
    = Ok [("Drama"%string, lit 4)] /\
  average (rated_scores repeated_tag_catalog repeated_tag_ratings "Drama")
    = Some (lit 3.5) /\
  lit 4 <> lit 3.5.
Proof.
  split; [vm_compute; reflexivity|].
  split; [vm_compute; reflexivity|].
  vm_compute. discriminate.
Qed.

(* ================================================================= *)
(** ** The two stores: construction and [add_new_ratings] *)

Lemma ratings_to_preferences_profile_of info user_ratings :
  ratings_to_preferences info user_ratings = Ok (profile_of info user_ratings).
Proof.
  unfold profile_of.
  destruct (ratings_to_preferences_spec info user_ratings) as (p & -> & _).
  reflexivity.
Qed.

Lemma build_preferences_loop info all_ratings : forall acc,
  for_each
    (fun acc (entry : Z * ratings) =>
       prefs <- ratings_to_preferences info (snd entry) ;;
       Ok (set acc (fst entry) prefs))
    all_ratings acc
  = Ok (update acc (profiles_of info all_ratings)).
Proof.
  induction all_ratings as [|[u r] rest IH]; intros acc; [reflexivity|].
  cbn [for_each snd fst]. rewrite ratings_to_preferences_profile_of.
  cbn [bind]. rewrite IH. reflexivity.
Qed.

Lemma build_preferences_update info all_ratings :
  build_preferences info all_ratings
  = Ok (update [] (profiles_of info all_ratings)).
Proof. apply build_preferences_loop. Qed.

Lemma keys_profiles_of info all_ratings :
  keys (profiles_of info all_ratings) = keys all_ratings.
Proof. unfold keys, profiles_of. rewrite map_map. reflexivity. Qed.

Lemma get_profiles_of info all_ratings user_id :
  get (profiles_of info all_ratings) user_id =
  option_map (profile_of info) (get all_ratings user_id).
Proof.
  induction all_ratings as [|[u r] rest IH]; [reflexivity|].
  cbn [profiles_of map get fst snd]. fold (profiles_of info rest).
  destruct (keyb u user_id); [reflexivity | exact IH].
Qed.

Lemma mem_profiles_of info all_ratings user_id :
  mem (profiles_of info all_ratings) user_id = mem all_ratings user_id.
Proof.
  unfold mem. rewrite get_profiles_of. now destruct (get all_ratings user_id).
Qed.

Lemma init_in_sync info user_ratings :
  exists self,
    init info user_ratings = Ok self /\
    movie_info self = info /\
    all_user_ratings self = user_ratings /\
    in_sync self.
Proof.
  unfold init. rewrite build_preferences_update. cbn [bind].
  eexists. split; [reflexivity|]. split; [reflexivity|].
  split; [reflexivity|].
  intros u. cbn [all_user_preferences all_user_ratings].
  rewrite mem_update, mem_profiles_of. reflexivity.
Qed.

Example example_init :
  init example_catalog example_ratings = Ok example_recommender.
Proof. vm_compute. reflexivity. Qed.

(** C9: [add_new_ratings] never raises; a user of the new data gets the
    new ratings and the profile built from them alone; any other user
    keeps both entries; no user leaves either store; the two stores know
    the same users after the call if they did before, and they do after
    construction. *)
Theorem C9_add_new_ratings_merges
    (self : MovieRecommender) (new_ratings : dict Z ratings) :
  wf new_ratings ->
  exists self',
    add_new_ratings self new_ratings = Ok self' /\
    (forall user_id user_ratings,
        get new_ratings user_id = Some user_ratings ->
        get (all_user_ratings self') user_id = Some user_ratings /\
        exists prefs,
          ratings_to_preferences (movie_info self) user_ratings = Ok prefs /\
          get (all_user_preferences self') user_id = Some prefs) /\
    (forall user_id,
        get new_ratings user_id = None ->
        get (all_user_ratings self') user_id =
          get (all_user_ratings self) user_id /\
        get (all_user_preferences self') user_id =
          get (all_user_preferences self) user_id) /\
    (forall user_id,
        (mem (all_user_ratings self) user_id = true ->
         mem (all_user_ratings self') user_id = true) /\
        (mem (all_user_preferences self) user_id = true ->
         mem (all_user_preferences self') user_id = true)) /\
    (in_sync self -> in_sync self') /\
    (forall info user_ratings,
        exists self0, init info user_ratings = Ok self0 /\ in_sync self0).
Proof.
  intros Hwf. unfold add_new_ratings.
  rewrite build_preferences_update. cbn [bind]. eexists.
  split; [reflexivity|]. cbn [all_user_ratings all_user_preferences].
  assert (Hwfp : wf (update [] (profiles_of (movie_info self) new_ratings))).
  { apply wf_update. constructor. }
  split; [|split; [|split; [|split]]].
  - intros user_id user_ratings Hnew. split.
    + now apply get_update_present.
    + exists (profile_of (movie_info self) user_ratings).
      split; [apply ratings_to_preferences_profile_of|].
      apply get_update_present; [assumption|].
      apply get_update_present.
      * unfold wf. now rewrite keys_profiles_of.
      * rewrite get_profiles_of, Hnew. reflexivity.
  - intros user_id Hnew. split.
    + now apply get_update_absent.
    + apply get_update_absent. rewrite get_update_absent.
      * reflexivity.
      * rewrite get_profiles_of, Hnew. reflexivity.
  - intros user_id.
    split; intros Hm; rewrite mem_update, Hm; reflexivity.
  - intros Hs u. cbn [all_user_ratings all_user_preferences].
    rewrite !mem_update, mem_profiles_of, Hs. reflexivity.
  - intros info user_ratings.
    destruct (init_in_sync info user_ratings) as (s & Hs & _ & _ & Hsync).
    now exists s.
Qed.

(** C9 at the example: user 20 is replaced, user 30 added, user 10 kept. *)
Lemma C9_witness :
  wf example_new_ratings /\
  exists self',
    add_new_ratings example_recommender example_new_ratings = Ok self' /\
    keys (all_user_ratings self') = [10; 20; 30] /\
    keys (all_user_preferences self') = [10; 20; 30] /\
    get (all_user_preferences self') 20 = Some [("Drama"%string, lit 2)] /\
    get (all_user_ratings self') 10 = get example_ratings 10.
Proof.
  assert (Hwf : wf example_new_ratings).
  { unfold wf. cbn. repeat constructor; cbn; intuition discriminate. }
  split; [exact Hwf|].
  destruct (C9_add_new_ratings_merges example_recommender
              example_new_ratings Hwf) as (self' & Hrun & _).
  exists self'. split; [exact Hrun|].
  vm_compute in Hrun. injection Hrun as <-.
  vm_compute. repeat split; reflexivity.
Defined.

(* ================================================================= *)
(** ** The similarity engine: [cosine_similarity] *)

Lemma sum_squares_not_negative (p : profile) : not_negative (sum_squares p).
Proof.
  unfold sum_squares, sum. apply fold_fadd_not_negative; [exact I|].
  apply Forall_forall. intros x Hx. apply in_map_iff in Hx as (v & <- & _).
  apply fmul_self_not_negative.
Qed.

Lemma math_sqrt_sum_squares (p : profile) :
  math_sqrt (sum_squares p) = Ok (magnitude p).
Proof.
  unfold math_sqrt.
  pose proof (sum_squares_not_negative p) as Hnn.
  apply not_negative_fltb in Hnn. now rewrite Hnn.
Qed.

Lemma sum_squares_rounded (p : profile) : rounded (sum_squares p).
Proof.
  unfold sum_squares, sum.
  assert (H : forall xs acc, rounded acc -> Forall rounded xs ->
                             rounded (fold_left fadd xs acc)).
  { induction xs as [|x xs IH]; intros acc Hacc Hxs; [assumption|].
    inversion Hxs; subst. cbn [fold_left]. apply IH; [|assumption].
    now apply fadd_rounded. }
  apply H; [exact I|]. apply Forall_forall. intros x Hx.
  apply in_map_iff in Hx as (v & <- & _). apply fmul_rounded.
Qed.

(** A magnitude that is not zero is nan, infinite, or at least 2^-537. *)
Lemma magnitude_large (p : profile) :
  feqb (magnitude p) zero = false -> large (magnitude p).
Proof.
  intros Hnz. unfold magnitude in *.
  pose proof (fsqrt_large (sum_squares p) (sum_squares_rounded p)) as H.
  destruct (fsqrt (sum_squares p)) as [s|s| |s m e];
    [discriminate | exact I | exact I | exact H].
Qed.

(** The division of [cosine_similarity] never raises. *)
Lemma truediv_magnitudes (dot : float) (first second : profile) :
  feqb (magnitude first) zero = false ->
  feqb (magnitude second) zero = false ->
  truediv dot (fmul (magnitude first) (magnitude second))
  = Ok (fdiv dot (fmul (magnitude first) (magnitude second))).
Proof.
  intros H1 H2. unfold truediv.
  now rewrite (fmul_large _ _ (magnitude_large _ H1) (magnitude_large _ H2)).
Qed.

Lemma dot_product_swap first second shared :
  dot_product first second shared = dot_product second first shared.
Proof.
  unfold dot_product. apply for_each_ext. intros acc g _.
  destruct (subscript first g) as [a|e1] eqn:E1,
           (subscript second g) as [b|e2] eqn:E2; cbn [bind].
  - now rewrite fmul_comm.
  - reflexivity.
  - reflexivity.
  - apply subscript_raises in E1, E2. congruence.
Qed.

Lemma dot_product_loop first second shared : forall acc,
  (forall g, In g shared -> In g (keys first) /\ In g (keys second)) ->
  for_each
    (fun acc g =>
       a <- subscript first g ;;
       b <- subscript second g ;;
       Ok (fadd acc (fmul a b)))
    shared acc
  = Ok (fold_left fadd (products first second shared) acc).
Proof.
  induction shared as [|g shared IH]; intros acc Hin; [reflexivity|].
  destruct (Hin g (or_introl eq_refl)) as [Hf Hs].
  cbn [for_each products map fold_left].
  rewrite (subscript_present first g zero Hf).
  rewrite (subscript_present second g zero Hs). cbn [bind].
  apply IH. intros g' Hg'. apply Hin. now right.
Qed.

Lemma dot_product_ok first second shared :
  (forall g, In g shared -> In g (keys first) /\ In g (keys second)) ->
  dot_product first second shared = Ok (sum (products first second shared)).
Proof. apply dot_product_loop. Qed.

Lemma cosine_similarity_unfold set_and first second :
  set_and_ok set_and ->
  cosine_similarity set_and first second =
  Ok match set_and (keys first) (keys second) with
     | [] => zero
     | shared =>
         if feqb (magnitude first) zero || feqb (magnitude second) zero
         then zero
         else fdiv (sum (products first second shared))
                   (fmul (magnitude first) (magnitude second))
     end.
Proof.
  intros Hok. unfold cosine_similarity.
  destruct (Hok (keys first) (keys second)) as [_ Hin].
  destruct (set_and (keys first) (keys second)) as [|g shared]; [reflexivity|].
  rewrite dot_product_ok by (intros g' Hg'; now apply Hin).
  rewrite !math_sqrt_sum_squares. cbn [bind].
  destruct (feqb (magnitude first) zero) eqn:E1; [reflexivity|].
  destruct (feqb (magnitude second) zero) eqn:E2; [reflexivity|].
  cbn [orb]. now apply truediv_magnitudes.
Qed.

(** [cosine_similarity] never raises. *)
Lemma cosine_similarity_returns set_and first second :
  set_and_ok set_and ->
  exists s, cosine_similarity set_and first second = Ok s.
Proof.
  intros Hok. rewrite cosine_similarity_unfold by assumption. eauto.
Qed.

Lemma cosine_similarity_same_order set_and first second :
  set_and (keys first) (keys second) = set_and (keys second) (keys first) ->
  cosine_similarity set_and first second =
  cosine_similarity set_and second first.
Proof.
  intros Horder. unfold cosine_similarity. rewrite <- Horder.
  destruct (set_and (keys first) (keys second)) as [|g shared]; [reflexivity|].
  rewrite dot_product_swap.
  destruct (dot_product second first (g :: shared)) as [dot|e]; [|reflexivity].
  rewrite !math_sqrt_sum_squares. cbn [bind].
  now rewrite orb_comm, fmul_comm.
Qed.

Lemma set_and_permutation set_and l1 l2 :
  set_and_ok set_and -> Permutation (set_and l1 l2) (set_and l2 l1).
Proof.
  intros Hok. destruct (Hok l1 l2) as [Hnd1 Hin1], (Hok l2 l1) as [Hnd2 Hin2].
  apply NoDup_Permutation; try assumption.
  intros g. rewrite Hin1, Hin2. tauto.
Qed.

Lemma sum_products_few first second shared shared' :
  Permutation shared shared' -> (List.length shared <= 2)%nat ->
  sum (products first second shared) = sum (products second first shared').
Proof.
  intros Hperm Hlen.
  destruct shared as [|g1 [|g2 [|g3 shared]]].
  - apply Permutation_nil in Hperm as ->. reflexivity.
  - apply Permutation_length_1_inv in Hperm as ->.
    unfold products, sum. cbn [map fold_left]. now rewrite fmul_comm.
  - apply Permutation_length_2_inv in Hperm as [-> | ->];
      unfold products, sum; cbn [map fold_left].
    + now rewrite (fmul_comm (get_default second g1 zero)),
                  (fmul_comm (get_default second g2 zero)).
    + rewrite (fmul_comm (get_default second g1 zero)),
              (fmul_comm (get_default second g2 zero)).
      apply sum_two_comm.
  - cbn [List.length] in Hlen. lia.
Qed.

Lemma set_and_list_ok : set_and_ok set_and_list.
Proof.
  intros l1 l2. unfold set_and_list. split.
  - apply NoDup_filter, NoDup_nodup.
  - intros g. rewrite filter_In, nodup_In, existsb_exists. split.
    + intros [H1 (g' & H2 & Heq)]. apply String.eqb_eq in Heq as <-. tauto.
    + intros [H1 H2]. split; [assumption|]. exists g. split; [assumption|].
      apply String.eqb_refl.
Qed.

Lemma set_and_nil set_and l1 l2 :
  set_and_ok set_and ->
  (forall g, ~ (In g l1 /\ In g l2)) -> set_and l1 l2 = [].
Proof.
  intros Hok Hnone. destruct (Hok l1 l2) as [_ Hin].
  destruct (set_and l1 l2) as [|g shared]; [reflexivity|].
  exfalso. apply (Hnone g). apply Hin. now left.
Qed.

Lemma set_and_cons set_and l1 l2 :
  set_and_ok set_and ->
  (exists g, In g l1 /\ In g l2) -> set_and l1 l2 <> [].
Proof.
  intros Hok (g & Hg) Hnil. destruct (Hok l1 l2) as [_ Hin].
  apply Hin in Hg. now rewrite Hnil in Hg.
Qed.

(** C8: no shared genre, or a magnitude that is zero, gives 0.0;
    otherwise the result is the dot product over the shared genres divided
    by the product of the two magnitudes, each the square root of the sum
    of the squares of all the values of its profile; neither [math.sqrt] nor
    the division raises. *)
Theorem C8_cosine_similarity_cases set_and (first second : profile) :
  set_and_ok set_and ->
  ((forall g, ~ (In g (keys first) /\ In g (keys second))) \/
   feqb (magnitude first) zero = true \/
   feqb (magnitude second) zero = true ->
   cosine_similarity set_and first second = Ok zero) /\
  ((exists g, In g (keys first) /\ In g (keys second)) ->
   feqb (magnitude first) zero = false ->
   feqb (magnitude second) zero = false ->
   cosine_similarity set_and first second =
   Ok (fdiv
         (sum (products first second (set_and (keys first) (keys second))))
         (fmul (magnitude first) (magnitude second)))) /\
  math_sqrt (sum_squares first) = Ok (magnitude first) /\
  math_sqrt (sum_squares second) = Ok (magnitude second).
Proof.
  intros Hok. rewrite cosine_similarity_unfold by assumption.
  split; [|split; [|split; apply math_sqrt_sum_squares]].
  - intros [Hnone | Hzero].
    + now rewrite (set_and_nil set_and _ _ Hok Hnone).
    + destruct (set_and (keys first) (keys second)); [reflexivity|].
      destruct Hzero as [-> | ->]; [reflexivity|].
      now rewrite orb_true_r.
  - intros Hshared Hm1 Hm2.
    pose proof (set_and_cons set_and _ _ Hok Hshared) as Hne.
    destruct (set_and (keys first) (keys second)); [congruence|].
    now rewrite Hm1, Hm2.
Qed.

(** C8 on the profiles of users 10 and 20 of the example: both shared
    genres count and the quotient is 24 / (sqrt 26 * sqrt 32). *)
Lemma C8_witness :
  cosine_similarity set_and_list
    [("Drama"%string, lit 5); ("Comedy"%string, lit 1)]
    [("Drama"%string, lit 4); ("Comedy"%string, lit 4)]
  = Ok (fdiv (lit 24) (fmul (fsqrt (lit 26)) (fsqrt (lit 32)))).
Proof.
  destruct (C8_cosine_similarity_cases set_and_list
              [("Drama"%string, lit 5); ("Comedy"%string, lit 1)]
              [("Drama"%string, lit 4); ("Comedy"%string, lit 4)]
              set_and_list_ok) as (_ & Hquot & _).
  rewrite Hquot.
  - vm_compute. reflexivity.
  - exists "Drama"%string. cbn. tauto.
  - vm_compute. reflexivity.
  - vm_compute. reflexivity.
Defined.

Lemma products_self set_and (A : profile) :
  set_and_ok set_and -> wf A ->
  Permutation (products A A (set_and (keys A) (keys A)))
              (map (fun v => fmul v v) (values A)).
Proof.
  intros Hok Hwf. destruct (Hok (keys A) (keys A)) as [Hnd Hin].
  assert (Hperm : Permutation (set_and (keys A) (keys A)) (keys A)).
  { apply NoDup_Permutation; [assumption..|]. intros g. rewrite Hin. tauto. }
  unfold products. rewrite Hperm. unfold keys, values. rewrite !map_map.
  apply Permutation_refl'. apply map_ext_in. intros [g v] Hgv.
  cbn [fst snd]. unfold get_default. now rewrite (In_get A g v Hwf Hgv).
Qed.

(** For a profile [A] with a non-zero value, [cosine_similarity A A] is
    0.0 when the magnitude of [A] is zero (every square underflows) and
    otherwise the quotient of two roundings of the same quantity: the sum
    of the squares of the values of [A] in the iteration order of the set
    of its genres, over the product of the magnitude of [A] with itself. *)
Lemma cosine_similarity_self_quotient set_and (A : profile) :
  set_and_ok set_and -> wf A -> has_nonzero_value A ->
  Permutation (products A A (set_and (keys A) (keys A)))
              (map (fun v => fmul v v) (values A)) /\
  cosine_similarity set_and A A =
  Ok (if feqb (magnitude A) zero then zero
      else fdiv (sum (products A A (set_and (keys A) (keys A))))
                (fmul (magnitude A) (magnitude A))).
Proof.
  intros Hok Hwf (g & v & Hgv & _).
  split; [now apply products_self|].
  rewrite cosine_similarity_unfold by assumption.
  assert (Hne : set_and (keys A) (keys A) <> []).
  { apply set_and_cons; [assumption|]. exists g.
    apply (in_map fst) in Hgv. now split. }
  destruct (set_and (keys A) (keys A)); [congruence|].
  now rewrite orb_diag.
Qed.

(** The magnitude of a profile with one value [v] is the absolute value of
    [v], and its square is the square of [v]. *)
Lemma square_of_square_root (v : float) :
  square_normal v ->
  exists s m e,
    fmul v v = S754_finite s m e /\
    fmul (fsqrt (fmul v v)) (fsqrt (fmul v v)) = S754_finite s m e /\
    feqb (fsqrt (fmul v v)) zero = false.
Proof.
  destruct v as [sv|sv| |sv M E]; try contradiction.
  intros [HM HE].
  destruct (fmul_square sv M E HM HE)
    as (P & F & k & delta & Hmul & HP & HF & Hk & Heq & Hdelta).
  rewrite Hmul. subst F.
  rewrite (fsqrt_square M P E k delta HM HP Hk Heq Hdelta HE).
  exists false, P, (2 * E + k). split; [reflexivity|]. split; [|reflexivity].
  rewrite <- Hmul. unfold fmul, SF64mul, SFmul. now destruct sv.
Qed.

Lemma set_and_single set_and (genre : string) :
  set_and_ok set_and -> set_and [genre] [genre] = [genre].
Proof.
  intros Hok. destruct (Hok [genre] [genre]) as [Hnd Hin].
  destruct (set_and [genre] [genre]) as [|g l].
  - exfalso. apply (proj2 (Hin genre)). split; now left.
  - assert (g = genre).
    { destruct (proj1 (Hin g) (or_introl eq_refl)) as [[<- | []] _].
      reflexivity. }
    subst g. f_equal. destruct l as [|g' l]; [reflexivity|]. exfalso.
    assert (g' = genre).
    { destruct (proj1 (Hin g') (or_intror (or_introl eq_refl)))
        as [[<- | []] _]. reflexivity. }
    subst g'. inversion Hnd as [|? ? Hnotin _]. apply Hnotin. now left.
Qed.

Lemma fadd_zero_finite (s : bool) (m : positive) (e : Z) :
  fadd zero (S754_finite s m e) = S754_finite s m e.
Proof. reflexivity. Qed.

Lemma cosine_similarity_single set_and (genre : string) (v : float) :
  set_and_ok set_and -> square_normal v ->
  cosine_similarity set_and [(genre, v)] [(genre, v)] = Ok (lit 1).
Proof.
  intros Hok Hv. rewrite cosine_similarity_unfold by exact Hok.
  cbn [keys map fst]. rewrite (set_and_single set_and genre Hok).
  destruct (square_of_square_root v Hv) as (s & m & e & Hsq & Hmag & Hnz).
  unfold magnitude, sum_squares, products, get_default, sum.
  cbn [values map snd get fold_left]. cbn [keyb Key_string].
  rewrite String.eqb_refl. rewrite Hsq, fadd_zero_finite, <- Hsq.
  rewrite Hnz, Hmag, Hsq. cbn [orb]. now rewrite fdiv_self.
Qed.

(** The quotient is 1.0 where its two roundings are the same finite
    float. *)
Lemma cosine_similarity_self_agree set_and (A : profile)
    (s : bool) (m : positive) (e : Z) :
  set_and_ok set_and ->
  sum (products A A (set_and (keys A) (keys A))) = S754_finite s m e ->
  fmul (magnitude A) (magnitude A) = S754_finite s m e ->
  cosine_similarity set_and A A = Ok (lit 1).
Proof.
  intros Hok Hdot Hmag. rewrite cosine_similarity_unfold by exact Hok.
  destruct (set_and (keys A) (keys A)) as [|g shared]; [discriminate|].
  rewrite Hdot, Hmag, fdiv_self, orb_diag.
  destruct (magnitude A) as [sz|si| |sm mm em]; try discriminate.
  now destruct sm.
Qed.

(** C6, as amended. A profile with one genre, whose value is a normal float
    of absolute value from 2^-511 up to 2^511, has the similarity 1.0 with
    itself, exactly: the magnitude, the square root of the rounded square
    of the value, is the absolute value itself. For every profile [A] with a
    non-zero value, [cosine_similarity A A] is 0.0 when the magnitude of
    [A] is zero and otherwise the quotient of two roundings of the same
    quantity: the sum of the squares of the values of [A] in the iteration
    order of the set of its genres, over the product of the magnitude of
    [A] with itself; the quotient is 1.0 wherever the two are the same
    finite float. *)
Theorem C6_cosine_similarity_self set_and :
  set_and_ok set_and ->
  (forall genre v,
      square_normal v ->
      cosine_similarity set_and [(genre, v)] [(genre, v)] = Ok (lit 1)) /\
  (forall A,
      wf A -> has_nonzero_value A ->
      Permutation (products A A (set_and (keys A) (keys A)))
                  (map (fun v => fmul v v) (values A)) /\
      cosine_similarity set_and A A =
      Ok (if feqb (magnitude A) zero then zero
          else fdiv (sum (products A A (set_and (keys A) (keys A))))
                    (fmul (magnitude A) (magnitude A)))) /\
  (forall A s m e,
      sum (products A A (set_and (keys A) (keys A))) = S754_finite s m e ->
      fmul (magnitude A) (magnitude A) = S754_finite s m e ->
      cosine_similarity set_and A A = Ok (lit 1)).
Proof.
  intros Hok. split; [|split].
  - intros genre v Hv. now apply cosine_similarity_single.
  - intros A Hwf Hnz. now apply cosine_similarity_self_quotient.
  - intros A s m e Hdot Hmag.
    now apply (cosine_similarity_self_agree set_and A s m e).
Qed.

(** C6 at [{a: 3.0}]. *)
Lemma C6_witness :
  square_normal (lit 3) /\
  cosine_similarity set_and_list profile_three profile_three = Ok (lit 1).
Proof.
  assert (Hv : square_normal (lit 3)).
  { change (lit 3) with (S754_finite false 6755399441055744 (-51)).
    cbn [square_normal]. lia. }
  split; [exact Hv|].
  exact (proj1 (C6_cosine_similarity_self set_and_list set_and_list_ok)
           "a"%string (lit 3) Hv).
Defined.

(** Outside that range the similarity of a one-genre profile with itself
    is not 1.0: the square of 1e200 overflows and the result is nan, the
    square of 1e-200 underflows to zero and the result is 0.0. *)
Example cosine_similarity_self_out_of_range :
  cosine_similarity set_and_list profile_huge profile_huge = Ok S754_nan /\
  cosine_similarity set_and_list profile_tiny profile_tiny = Ok zero.
Proof. split; vm_compute; reflexivity. Qed.

(** C6 as it was claimed fails at [{a: 1.0, b: 1.0}]: the sum of the
    squares is 2.0, its square root 1.4142135623730951 squared is
    2.0000000000000004, and the quotient is 0.9999999999999998. *)
Lemma C6_counterexample_two_ones :
  has_nonzero_value profile_ones /\
  cosine_similarity set_and_list profile_ones profile_ones
    = Ok (lit 0x1.ffffffffffffep-1) /\
  feqb (lit 0x1.ffffffffffffep-1) (lit 1) = false.
Proof.
  split.
  - exists "a"%string, (lit 1). split; [now left | vm_compute; reflexivity].
  - split; vm_compute; reflexivity.
Qed.

(** The order in which the set of the two genres is iterated does not
    matter to that value. *)
Lemma cosine_similarity_two_ones_any_order set_and :
  set_and_ok set_and ->
  cosine_similarity set_and profile_ones profile_ones
  = Ok (lit 0x1.ffffffffffffep-1).
Proof.
  intros Hok. rewrite cosine_similarity_unfold by assumption.
  destruct (Hok (keys profile_ones) (keys profile_ones)) as [Hnd Hin].
  assert (Hperm : Permutation ["a"; "b"]%string
                    (set_and (keys profile_ones) (keys profile_ones))).
  { apply NoDup_Permutation; [|assumption|].
    - repeat constructor; cbn; intuition discriminate.
    - intros g. rewrite Hin. cbn. tauto. }
  apply Permutation_length_2_inv in Hperm as [-> | ->];
    vm_compute; reflexivity.
Qed.

(** C7, as amended: [cosine_similarity first second] and
    [cosine_similarity second first] are the same result, bit for bit (so
    [==] holds between them unless the value is nan), whenever the two calls
    iterate over the shared genres in the same order, and whatever the
    order when at most two genres are shared. *)
Theorem C7_cosine_similarity_symmetric set_and first second :
  set_and_ok set_and ->
  set_and (keys first) (keys second) = set_and (keys second) (keys first) \/
  (List.length (set_and (keys first) (keys second)) <= 2)%nat ->
  cosine_similarity set_and first second =
  cosine_similarity set_and second first.
Proof.
  intros Hok [Horder | Hfew].
  - now apply cosine_similarity_same_order.
  - rewrite !cosine_similarity_unfold by assumption.
    pose proof (set_and_permutation set_and (keys first) (keys second) Hok)
      as Hperm.
    pose proof (sum_products_few first second _ _ Hperm Hfew) as Hsum.
    destruct (set_and (keys first) (keys second)) as [|g shared].
    + apply Permutation_nil in Hperm as ->. reflexivity.
    + destruct (set_and (keys second) (keys first)) as [|g' shared'].
      * apply Permutation_sym, Permutation_nil in Hperm. discriminate.
      * rewrite Hsum. now rewrite orb_comm, fmul_comm.
Qed.

(** C7 on the profiles of users 10 and 20 of the example. *)
Lemma C7_witness :
  cosine_similarity set_and_list
    [("Drama"%string, lit 5); ("Comedy"%string, lit 1)]
    [("Drama"%string, lit 4); ("Comedy"%string, lit 4)]
  = cosine_similarity set_and_list
    [("Drama"%string, lit 4); ("Comedy"%string, lit 4)]
    [("Drama"%string, lit 5); ("Comedy"%string, lit 1)].
Proof.
  apply (C7_cosine_similarity_symmetric set_and_list _ _ set_and_list_ok).
  right. vm_compute. lia.
Defined.

(** C7 as it was claimed fails where the similarity is nan: with the
    rating 1e200 the dot product and both magnitudes are infinite, their
    quotient is nan on both sides, and nan [==] nan is false. *)
Lemma C7_counterexample_nan :
  cosine_similarity set_and_list profile_huge profile_huge_and_one
    = Ok S754_nan /\
  cosine_similarity set_and_list profile_huge_and_one profile_huge
    = Ok S754_nan /\
  feqb S754_nan S754_nan = false.
Proof. repeat split; vm_compute; reflexivity. Qed.

(* ================================================================= *)
(** ** Lookups that fail and early returns *)

Lemma subscript_get {K V} `{Key K} (d : dict K V) (k : K) (v : V) :
  get d k = Some v -> subscript d k = Ok v.
Proof. unfold subscript. now intros ->. Qed.

Lemma subscript_absent {K V} `{Key K} (d : dict K V) (k : K) :
  get d k = None -> subscript d k = Raise KeyError.
Proof. unfold subscript. now intros ->. Qed.

(** C4: a target that is not a key of the preference store, and a
    recommender that is not a key of the raw-ratings store when the
    recipient has a non-empty profile, raise [KeyError]. *)
Theorem C4_absent_user_raises_key_error set_and (self : MovieRecommender) :
  (forall user_id,
      get (all_user_preferences self) user_id = None ->
      find_similar_user_by_id set_and self user_id = Raise KeyError) /\
  (forall recommender_id recipient_id recipient_prefs,
      get (all_user_ratings self) recommender_id = None ->
      get (all_user_preferences self) recipient_id = Some recipient_prefs ->
      recipient_prefs <> [] ->
      make_recommendations_for_id set_and self recommender_id recipient_id
      = Raise KeyError).
Proof.
  split.
  - intros user_id Habsent. unfold find_similar_user_by_id.
    now rewrite (subscript_absent _ _ Habsent).
  - intros recommender_id recipient_id recipient_prefs Habsent Hprefs Hne.
    unfold make_recommendations_for_id, mem.
    rewrite Hprefs, (subscript_get _ _ _ Hprefs). cbn [negb bind].
    destruct recipient_prefs as [|entry rest]; [congruence|].
    cbn [List.length Nat.eqb].
    now rewrite (subscript_absent _ _ Habsent).
Qed.

Lemma C4_witness :
  find_similar_user_by_id set_and_list example_recommender 30
    = Raise KeyError /\
  make_recommendations_for_id set_and_list example_recommender 30 10
    = Raise KeyError.
Proof.
  destruct (C4_absent_user_raises_key_error set_and_list example_recommender)
    as [Hfind Hmake].
  split.
  - apply Hfind. reflexivity.
  - apply (Hmake 30 10 [("Drama"%string, lit 5); ("Comedy"%string, lit 1)]).
    + reflexivity.
    + reflexivity.
    + discriminate.
Defined.

(** C5: a recipient without a profile, or with an empty one, gets the
    empty set and no exception, whoever the recommender is. *)
Theorem C5_no_profile_no_recommendation set_and (self : MovieRecommender)
    (recommender_id recipient_id : Z) :
  get (all_user_preferences self) recipient_id = None \/
  get (all_user_preferences self) recipient_id = Some [] ->
  make_recommendations_for_id set_and self recommender_id recipient_id = Ok [].
Proof.
  unfold make_recommendations_for_id, mem, subscript.
  intros [-> | ->]; reflexivity.
Qed.

Lemma C5_witness :
  make_recommendations_for_id set_and_list recommender_with_empty_profile 99 40
    = Ok [] /\
  make_recommendations_for_id set_and_list recommender_with_empty_profile 99 50
    = Ok [].
Proof.
  split.
  - apply C5_no_profile_no_recommendation. right. reflexivity.
  - apply C5_no_profile_no_recommendation. left. reflexivity.
Defined.

Lemma consider_movie_seen set_and info recipient_seen top candidates entry :
  mem recipient_seen (fst entry) = true ->
  consider_movie set_and info recipient_seen top candidates entry = candidates.
Proof.
  destruct entry as [movie_id rating]. cbn [fst]. intros Hseen.
  unfold consider_movie. rewrite Hseen.
  now destruct (get info movie_id) as [[title genres]|].
Qed.

Lemma fold_consider_movie_seen set_and info recipient_seen top :
  forall entries candidates,
    (forall entry, In entry entries -> mem recipient_seen (fst entry) = true) ->
    fold_left (consider_movie set_and info recipient_seen top)
              entries candidates = candidates.
Proof.
  induction entries as [|entry entries IH]; intros candidates Hseen;
    [reflexivity|].
  cbn [fold_left]. rewrite consider_movie_seen by (apply Hseen; now left).
  apply IH. intros e He. apply Hseen. now right.
Qed.

(** C10: a user recommends nothing to themselves. *)
Theorem C10_no_recommendation_to_oneself set_and (self : MovieRecommender)
    (user_id : Z) :
  mem (all_user_ratings self) user_id = true ->
  make_recommendations_for_id set_and self user_id user_id = Ok [].
Proof.
  unfold mem at 1. intros Hpresent.
  destruct (get (all_user_ratings self) user_id) as [user_ratings|] eqn:Er;
    [|discriminate].
  unfold make_recommendations_for_id, mem, subscript.
  destruct (get (all_user_preferences self) user_id) as [prefs|];
    [|reflexivity].
  cbn [negb bind]. destruct (List.length prefs =? 0)%nat; [reflexivity|].
  rewrite Er. cbn [bind].
  rewrite fold_consider_movie_seen.
  - reflexivity.
  - intros [movie_id rating] Hin. cbn [fst]. now apply In_mem in Hin.
Qed.

(** C10 on user 10 of the example, who has rated two movies. *)
Lemma C10_witness :
  make_recommendations_for_id set_and_list example_recommender 10 10 = Ok [].
Proof.
  apply C10_no_recommendation_to_oneself. reflexivity.
Defined.

(* ================================================================= *)
(** ** Orders: strings, floats, pairs *)

Lemma lex_strict_total {A B : Type} (ltA : A -> A -> Prop)
    (ltB : B -> B -> Prop) :
  strict_total ltA -> strict_total ltB -> strict_total (lex ltA ltB).
Proof.
  intros [irA trA toA] [irB trB toB]. split.
  - intros [a b] [H | [_ H]]; cbn in H; [now apply irA in H | now apply irB in H].
  - intros [a1 b1] [a2 b2] [a3 b3]; unfold lex; cbn.
    intros [H12 | [-> H12]] [H23 | [-> H23]]; eauto.
  - intros [a1 b1] [a2 b2]; unfold lex; cbn.
    destruct (toA a1 a2) as [H | [-> | H]]; auto.
    destruct (toB b1 b2) as [H | [-> | H]]; auto.
Qed.

Lemma Z_lt_strict_total : strict_total Z.lt.
Proof. split; intros; lia. Qed.

Lemma rank_lt_strict_total : strict_total rank_lt.
Proof.
  repeat apply lex_strict_total; apply Z_lt_strict_total.
Qed.

Lemma string_compare_refl (s : string) : String.compare s s = Eq.
Proof.
  induction s as [|a s IH]; [reflexivity|]. cbn.
  unfold Ascii.compare. now rewrite N.compare_refl.
Qed.

Lemma string_compare_trans (s1 s2 s3 : string) :
  String.compare s1 s2 = Lt -> String.compare s2 s3 = Lt ->
  String.compare s1 s3 = Lt.
Proof.
  revert s2 s3. induction s1 as [|a1 s1 IH]; intros [|a2 s2] [|a3 s3];
    cbn; try congruence.
  unfold Ascii.compare.
  destruct (N.compare_spec (N_of_ascii a1) (N_of_ascii a2)) as [E12|L12|G12];
    try congruence;
  destruct (N.compare_spec (N_of_ascii a2) (N_of_ascii a3)) as [E23|L23|G23];
    try congruence; intros H12 H23.
  - rewrite E12, E23, N.compare_refl. eauto.
  - rewrite E12. now rewrite (proj2 (N.compare_lt_iff _ _) L23).
  - rewrite <- E23. now rewrite (proj2 (N.compare_lt_iff _ _) L12).
  - assert (L13 : (N_of_ascii a1 < N_of_ascii a3)%N) by lia.
    now rewrite (proj2 (N.compare_lt_iff _ _) L13).
Qed.

Lemma string_lt_strict_total : strict_total string_lt.
Proof.
  unfold string_lt, String.ltb. split.
  - intros s. now rewrite string_compare_refl.
  - intros s1 s2 s3 H12 H23.
    destruct (String.compare s1 s2) eqn:E12; try discriminate.
    destruct (String.compare s2 s3) eqn:E23; try discriminate.
    now rewrite (string_compare_trans _ _ _ E12 E23).
  - intros s1 s2. destruct (String.compare s1 s2) eqn:E.
    + right. left. now apply String.compare_eq_iff.
    + now left.
    + right. right. rewrite String.compare_antisym, E. reflexivity.
Qed.

Lemma string_leb_not_lt (a b : string) :
  String.leb a b = true <-> ~ string_lt b a.
Proof.
  unfold string_lt, String.leb, String.ltb.
  rewrite (String.compare_antisym b a).
  destruct (String.compare a b); cbn; split; congruence.
Qed.

(** [<] and [==] on floats that are not nan, read on their ranks. *)
Lemma fltb_rank (x y : float) :
  is_nan x = false -> is_nan y = false ->
  fltb x y = true <-> rank_lt (rank x) (rank y).
Proof.
  unfold fltb, SFltb, rank_lt, lex.
  destruct x as [sx|[|]| |[|] mx ex], y as [sy|[|]| |[|] my ey];
    cbn; try discriminate; intros _ _;
    try (split; [intros _; lia | reflexivity]);
    try (split; [discriminate | intros H; exfalso; lia]).
  - destruct (Z.compare_spec ex ey) as [E|L|G]; cbn.
    + subst. rewrite (Pos.compare_cont_spec mx my Eq). cbn.
      destruct (Pos.compare_spec mx my) as [E|L|G]; cbn;
        (split; [try discriminate; intros _ | intros H]); try lia.
    + split; [discriminate | lia].
    + split; [intros _; lia | reflexivity].
  - destruct (Z.compare_spec ex ey) as [E|L|G]; cbn.
    + subst. rewrite (Pos.compare_cont_spec mx my Eq). cbn.
      destruct (Pos.compare_spec mx my) as [E|L|G]; cbn;
        (split; [try discriminate; intros _ | intros H]); try lia.
    + split; [intros _; lia | reflexivity].
    + split; [discriminate | lia].
Qed.

Lemma feqb_rank (x y : float) :
  is_nan x = false -> is_nan y = false ->
  feqb x y = true <-> rank x = rank y.
Proof.
  unfold feqb, SFeqb.
  destruct x as [sx|[|]| |[|] mx ex], y as [sy|[|]| |[|] my ey];
    cbn; try discriminate; intros _ _;
    try (split; [reflexivity | reflexivity]);
    try (split; discriminate).
  - destruct (Z.compare_spec ex ey) as [E|L|G]; cbn.
    + subst. rewrite (Pos.compare_cont_spec mx my Eq). cbn.
      destruct (Pos.compare_spec mx my) as [E|L|G]; cbn;
        (split; [try discriminate; intros _ | intros [= H]]);
        try congruence; try lia.
    + split; [discriminate | intros [= H1 H2]; lia].
    + split; [discriminate | intros [= H1 H2]; lia].
  - destruct (Z.compare_spec ex ey) as [E|L|G]; cbn.
    + subst. rewrite (Pos.compare_cont_spec mx my Eq). cbn.
      destruct (Pos.compare_spec mx my) as [E|L|G]; cbn;
        (split; [try discriminate; intros _ | intros [= H]]);
        try congruence; try lia.
    + split; [discriminate | intros [= H1 H2]; lia].
    + split; [discriminate | intros [= H1 H2]; lia].
Qed.

Lemma fltb_nan_l (x y : float) : is_nan x = true -> fltb x y = false.
Proof. destruct x; try discriminate. reflexivity. Qed.

Lemma fltb_nan_r (x y : float) : is_nan y = true -> fltb x y = false.
Proof. destruct y; try discriminate. now destruct x as [?|[|]| |[|] ? ?]. Qed.

Lemma feqb_nan_l (x y : float) : is_nan x = true -> feqb x y = false.
Proof. destruct x; try discriminate. reflexivity. Qed.

Lemma feqb_nan_r (x y : float) : is_nan y = true -> feqb x y = false.
Proof. destruct y; try discriminate. now destruct x as [?|[|]| |[|] ? ?]. Qed.

Lemma is_nan_fneg (x : float) : is_nan (fneg x) = is_nan x.
Proof. now destruct x. Qed.

Lemma rank_fneg (x : float) :
  rank (fneg x) =
  (- fst (rank x), (- fst (snd (rank x)), - snd (snd (rank x)))).
Proof.
  destruct x as [s|[|]| |[|] m e]; cbn; try reflexivity.
  now rewrite Z.opp_involutive.
Qed.

Lemma rank_lt_fneg (x y : float) :
  rank_lt (rank (fneg x)) (rank (fneg y)) <-> rank_lt (rank y) (rank x).
Proof.
  rewrite !rank_fneg.
  destruct (rank x) as [a [b c]], (rank y) as [a' [b' c']].
  unfold rank_lt, lex. cbn. lia.
Qed.

Lemma rank_eq_fneg (x y : float) :
  rank (fneg x) = rank (fneg y) <-> rank x = rank y.
Proof.
  rewrite !rank_fneg.
  destruct (rank x) as [a [b c]], (rank y) as [a' [b' c']]. cbn.
  split; intros [= H1 H2 H3]; f_equal; try f_equal; lia.
Qed.

(* ================================================================= *)
(** ** The neighbour finder: [find_similar_user_by_id] *)

Lemma code_lt_strict_total : strict_total code_lt.
Proof.
  apply lex_strict_total; [apply rank_lt_strict_total | apply Z_lt_strict_total].
Qed.

Lemma is_better_exceeds (s : float) (i : Z) (best : float * Z) :
  is_better s i best = true <-> exceeds (s, i) best.
Proof.
  unfold is_better, exceeds. cbn [fst snd].
  rewrite orb_true_iff, andb_true_iff, Z.ltb_lt. reflexivity.
Qed.

Lemma exceeds_not_nan (c best : float * Z) :
  exceeds c best -> is_nan (fst c) = false /\ is_nan (fst best) = false.
Proof.
  intros [H | [H _]].
  - split.
    + destruct (is_nan (fst c)) eqn:E; [|reflexivity].
      now rewrite fltb_nan_r in H.
    + destruct (is_nan (fst best)) eqn:E; [|reflexivity].
      now rewrite fltb_nan_l in H.
  - split.
    + destruct (is_nan (fst c)) eqn:E; [|reflexivity].
      now rewrite feqb_nan_l in H.
    + destruct (is_nan (fst best)) eqn:E; [|reflexivity].
      now rewrite feqb_nan_r in H.
Qed.

Lemma exceeds_code (c best : float * Z) :
  is_nan (fst c) = false -> is_nan (fst best) = false ->
  exceeds c best <-> code_lt (code best) (code c).
Proof.
  intros Hc Hb. unfold exceeds, code_lt, lex, code. cbn [fst snd].
  rewrite (fltb_rank _ _ Hb Hc), (feqb_rank _ _ Hc Hb).
  split; intros [H | [H1 H2]]; auto.
Qed.

Lemma choose_fold_spec (cands : list (float * Z)) : forall best0,
  is_nan (fst best0) = false ->
  let best := fold_left choose cands best0 in
  is_nan (fst best) = false /\
  (best = best0 \/ (In best cands /\ code_lt (code best0) (code best))) /\
  (forall c, In c cands -> is_nan (fst c) = false ->
             ~ code_lt (code best) (code c)).
Proof.
  destruct code_lt_strict_total as [irr tr tot].
  induction cands as [|c1 cands IH]; intros best0 Hnan0; cbn zeta.
  - cbn. split; [assumption|]. split; [now left|]. intros c [].
  - cbn [fold_left].
    destruct (is_better (fst c1) (snd c1) best0) eqn:Eb.
    + replace (choose best0 c1) with c1 by (unfold choose; now rewrite Eb).
      assert (Hex : exceeds c1 best0).
      { apply is_better_exceeds in Eb. now destruct c1. }
      destruct (exceeds_not_nan _ _ Hex) as [Hnan1 _].
      apply exceeds_code in Hex; [|assumption..].
      destruct (IH c1 Hnan1) as (Hnan & Hwhich & Hmax).
      split; [assumption|]. split.
      * right. destruct Hwhich as [-> | [Hin Hlt]].
        -- split; [now left | assumption].
        -- split; [now right | eauto].
      * intros c [<- | Hin] Hc.
        -- destruct Hwhich as [-> | [_ Hlt]]; [apply irr|].
           intros Hlt'. apply (irr (code c1)). eauto.
        -- now apply Hmax.
    + replace (choose best0 c1) with best0 by (unfold choose; now rewrite Eb).
      destruct (IH best0 Hnan0) as (Hnan & Hwhich & Hmax).
      split; [assumption|]. split.
      * destruct Hwhich as [-> | [Hin Hlt]]; [now left|].
        right. split; [now right | assumption].
      * intros c [<- | Hin] Hc.
        -- assert (Hnex : ~ code_lt (code best0) (code c1)).
           { intros Hlt. apply exceeds_code in Hlt; [|assumption..].
             destruct c1 as [s i]. apply is_better_exceeds in Hlt.
             cbn [fst snd] in Eb. congruence. }
           destruct Hwhich as [-> | [_ Hlt]]; [assumption|].
           intros Hlt'. apply Hnex. eauto.
        -- now apply Hmax.
Qed.

Lemma choose_fold_permutation (cands cands' : list (float * Z)) best0 :
  is_nan (fst best0) = false -> Permutation cands cands' ->
  snd (fold_left choose cands best0) = snd (fold_left choose cands' best0).
Proof.
  intros Hnan0 Hperm.
  destruct code_lt_strict_total as [irr tr tot].
  destruct (choose_fold_spec cands best0 Hnan0) as (Hnan & Hwhich & Hmax).
  destruct (choose_fold_spec cands' best0 Hnan0) as (Hnan' & Hwhich' & Hmax').
  cbn zeta in *.
  set (best := fold_left choose cands best0) in *.
  set (best' := fold_left choose cands' best0) in *.
  assert (Hcode : code best = code best').
  { destruct Hwhich as [E | [Hin Hlt]], Hwhich' as [E' | [Hin' Hlt']].
    - congruence.
    - exfalso. rewrite E in Hmax. apply (Hmax best'); try assumption.
      now apply (Permutation_in _ (Permutation_sym Hperm)).
    - exfalso. rewrite E' in Hmax'. apply (Hmax' best); try assumption.
      now apply (Permutation_in _ Hperm).
    - destruct (tot (code best) (code best')) as [H | [H | H]];
        [exfalso | assumption | exfalso].
      + apply (Hmax best'); try assumption.
        now apply (Permutation_in _ (Permutation_sym Hperm)).
      + apply (Hmax' best); try assumption.
        now apply (Permutation_in _ Hperm). }
  unfold code in Hcode. congruence.
Qed.

Lemma in_scored set_and user_id target store c :
  In c (scored set_and user_id target store) <->
  exists other_id other,
    In (other_id, other) store /\ other_id <> user_id /\
    c = (similarity set_and target other, other_id).
Proof.
  unfold scored, others. rewrite in_map_iff. split.
  - intros ([other_id other] & <- & Hin). apply filter_In in Hin as [Hin Hne].
    cbn [fst snd] in *. apply negb_true_iff, Z.eqb_neq in Hne.
    now exists other_id, other.
  - intros (other_id & other & Hin & Hne & ->).
    exists (other_id, other). split; [reflexivity|].
    apply filter_In. split; [assumption|].
    cbn [fst]. now apply negb_true_iff, Z.eqb_neq.
Qed.

Lemma scored_permutation set_and user_id target store store' :
  Permutation store store' ->
  Permutation (scored set_and user_id target store)
              (scored set_and user_id target store').
Proof.
  intros Hperm. unfold scored, others. apply Permutation_map.
  induction Hperm as [|x l l' _ IH|x y l|l l' l'' _ IH1 _ IH2]; cbn [filter].
  - constructor.
  - destruct (negb (fst x =? user_id)); [now constructor | assumption].
  - destruct (negb (fst x =? user_id)), (negb (fst y =? user_id));
      try apply Permutation_refl. apply perm_swap.
  - now transitivity (filter (fun entry => negb (fst entry =? user_id)) l').
Qed.

Lemma consider_loop set_and user_id target store :
  (forall other_id other,
      In (other_id, other) store -> other_id <> user_id ->
      exists s, cosine_similarity set_and target other = Ok s) ->
  forall best,
    for_each (consider set_and user_id target) store best
    = Ok (fold_left choose (scored set_and user_id target store) best).
Proof.
  induction store as [|[other_id other] store IH]; intros Hok best;
    [reflexivity|].
  cbn [for_each]. unfold consider at 1. unfold scored, others. cbn [filter fst].
  destruct (Z.eqb_spec other_id user_id) as [E|Hne]; cbn [negb bind].
  - apply IH. intros oid o Hin. apply Hok. now right.
  - destruct (Hok other_id other (or_introl eq_refl) Hne) as [s Hs].
    assert (Hsim : similarity set_and target other = s).
    { unfold similarity. now rewrite Hs. }
    cbn [map fold_left fst snd]. rewrite Hs, Hsim. cbn [bind].
    assert (IH' := IH (fun oid o Hin => Hok oid o (or_intror Hin))).
    unfold scored, others in IH'. unfold choose at 2. cbn [fst snd].
    destruct (is_better s other_id best); apply IH'.
Qed.

Lemma minus_one_not_nan : is_nan minus_one = false.
Proof. reflexivity. Qed.

Lemma find_similar_user_by_id_fold set_and self user_id target :
  get (all_user_preferences self) user_id = Some target ->
  (forall other_id other,
      In (other_id, other) (all_user_preferences self) ->
      other_id <> user_id ->
      exists s, cosine_similarity set_and target other = Ok s) ->
  find_similar_user_by_id set_and self user_id
  = Ok (snd (fold_left choose
               (scored set_and user_id target (all_user_preferences self))
               (minus_one, -1))).
Proof.
  intros Hget Hok. unfold find_similar_user_by_id, subscript.
  rewrite Hget. cbn [bind]. now rewrite consider_loop.
Qed.

(** C3, as amended: for a target in a preference store (distinct keys),
    [find_similar_user_by_id] returns, and returns the same ID whatever the
    iteration order of the store; it returns -1 when
    the store holds only the target, and more generally when no candidate's
    (similarity, ID) exceeds the initial best (-1.0, -1), which is the case
    of every candidate whose similarity is nan; otherwise it returns the ID
    of a candidate that exceeds the initial best and every other candidate
    whose similarity is not nan: greater similarity, or equal similarity
    and greater ID. *)
Theorem C3_find_similar_user_by_id set_and
    (self : MovieRecommender) (user_id : Z) (target : profile) :
  set_and_ok set_and ->
  wf (all_user_preferences self) ->
  get (all_user_preferences self) user_id = Some target ->
  exists best_id,
    find_similar_user_by_id set_and self user_id = Ok best_id /\
    (forall store,
        Permutation store (all_user_preferences self) ->
        find_similar_user_by_id set_and (with_preferences self store) user_id
        = Ok best_id) /\
    ((forall other_id,
         In other_id (keys (all_user_preferences self)) ->
         other_id = user_id) ->
     best_id = -1) /\
    ((forall other_id other,
         In (other_id, other) (all_user_preferences self) ->
         other_id <> user_id ->
         ~ exceeds (similarity set_and target other, other_id)
                   (minus_one, -1)) ->
     best_id = -1) /\
    ((exists other_id other,
         In (other_id, other) (all_user_preferences self) /\
         other_id <> user_id /\
         exceeds (similarity set_and target other, other_id)
                 (minus_one, -1)) ->
     exists best,
       In (best_id, best) (all_user_preferences self) /\
       best_id <> user_id /\
       exceeds (similarity set_and target best, best_id) (minus_one, -1) /\
       forall other_id other,
         In (other_id, other) (all_user_preferences self) ->
         other_id <> user_id -> other_id <> best_id ->
         is_nan (similarity set_and target other) = false ->
         exceeds (similarity set_and target best, best_id)
                 (similarity set_and target other, other_id)).
Proof.
  intros Hset Hwf Hget.
  assert (Hok : forall other_id other,
             In (other_id, other) (all_user_preferences self) ->
             other_id <> user_id ->
             exists s, cosine_similarity set_and target other = Ok s)
    by (intros; now apply cosine_similarity_returns).
  destruct code_lt_strict_total as [irr tr tot].
  set (cands := scored set_and user_id target (all_user_preferences self)).
  pose proof (choose_fold_spec cands (minus_one, -1) minus_one_not_nan)
    as (Hnan & Hwhich & Hmax). cbn zeta in *.
  exists (snd (fold_left choose cands (minus_one, -1))).
  assert (Hnone :
    (forall other_id other,
        In (other_id, other) (all_user_preferences self) ->
        other_id <> user_id ->
        ~ exceeds (similarity set_and target other, other_id)
                  (minus_one, -1)) ->
    snd (fold_left choose cands (minus_one, -1)) = -1).
  { intros Hnone. destruct Hwhich as [-> | [Hin Hlt]]; [reflexivity|].
    exfalso. apply exceeds_code in Hlt; [|assumption|reflexivity].
    apply in_scored in Hin as (oid & o & Hin & Hne & E).
    rewrite E in Hlt. now apply (Hnone oid o). }
  split; [now apply find_similar_user_by_id_fold|].
  split; [|split; [|split; [exact Hnone|]]].
  - intros store Hperm.
    rewrite (find_similar_user_by_id_fold set_and _ user_id target).
    + f_equal. cbn [with_preferences all_user_preferences].
      apply choose_fold_permutation; [reflexivity|].
      now apply scored_permutation.
    + cbn [with_preferences all_user_preferences]. apply In_get.
      * unfold wf, keys.
        apply (Permutation_NoDup (l := map fst (all_user_preferences self)));
          [|exact Hwf].
        apply Permutation_map. now apply Permutation_sym.
      * apply (Permutation_in _ (Permutation_sym Hperm)).
        now apply get_In.
    + cbn [with_preferences all_user_preferences]. intros oid o Hin.
      apply Hok. now apply (Permutation_in _ Hperm).
  - intros Halone. apply Hnone. intros oid o Hin Hne. exfalso. apply Hne.
    apply Halone. now apply (in_map fst) in Hin.
  - intros (oid & o & Hin & Hne & Hex).
    destruct (exceeds_not_nan _ _ Hex) as [Hnano _].
    assert (Hinc : In (similarity set_and target o, oid) cands).
    { apply in_scored. now exists oid, o. }
    apply exceeds_code in Hex; [|assumption|reflexivity].
    destruct Hwhich as [E | [Hinb Hlt]].
    { exfalso. apply (Hmax _ Hinc Hnano). now rewrite E. }
    apply in_scored in Hinb as (bid & b & Hinb & Hneb & E).
    rewrite E in *. cbn [snd fst] in *.
    exists b. split; [assumption|]. split; [assumption|]. split.
    + now apply exceeds_code.
    + intros oid' o' Hin' Hne' Hdiff Hnan'.
      apply exceeds_code; [assumption..|].
      assert (Hinc' : In (similarity set_and target o', oid') cands).
      { apply in_scored. now exists oid', o'. }
      specialize (Hmax _ Hinc' Hnan').
      destruct (tot (code (similarity set_and target o', oid'))
                    (code (similarity set_and target b, bid)))
        as [H | [H | H]]; [assumption | | contradiction].
      unfold code in H. cbn [fst snd] in H. congruence.
Qed.

(** C3 on the example: user 20 is the only candidate for user 10. *)
Lemma C3_witness :
  find_similar_user_by_id set_and_list example_recommender 10 = Ok 20.
Proof.
  destruct (C3_find_similar_user_by_id set_and_list example_recommender 10
              [("Drama"%string, lit 5); ("Comedy"%string, lit 1)])
    as (best_id & Hfind & _).
  - exact set_and_list_ok.
  - unfold wf. cbn. repeat constructor; cbn; intuition discriminate.
  - reflexivity.
  - rewrite Hfind. vm_compute in Hfind. congruence.
Defined.

(** C3 as it was claimed fails where the similarities are nan: with the
    rating 1e200 the similarity of users 1 and 2 is nan, which is neither
    greater than nor equal to -1.0, and the result for user 1 is -1 although
    user 2 is a candidate. *)
Lemma C3_counterexample_nan :
  init (movie_info recommender_huge) (all_user_ratings recommender_huge)
    = Ok recommender_huge /\
  In 2 (keys (all_user_preferences recommender_huge)) /\
  cosine_similarity set_and_list profile_huge profile_huge = Ok S754_nan /\
  find_similar_user_by_id set_and_list recommender_huge 1 = Ok (-1).
Proof.
  split; [vm_compute; reflexivity|].
  split; [cbn; tauto|].
  split; vm_compute; reflexivity.
Qed.

(** Three candidates with the same similarity: the greatest ID wins. *)
Example find_similar_user_by_id_tie :
  init (movie_info recommender_alike) (all_user_ratings recommender_alike)
    = Ok recommender_alike /\
  find_similar_user_by_id set_and_list recommender_alike 1 = Ok 5.
Proof. split; vm_compute; reflexivity. Qed.

(* ================================================================= *)
(** ** Sorting *)

Section SortFacts.
Context {A K C : Type} (lt : K -> K -> bool) (key : A -> K).
Context (code : K -> C) (clt : C -> C -> Prop) (D : K -> Prop).
Hypothesis clt_total : strict_total clt.
Hypothesis lt_code :
  forall k1 k2, D k1 -> D k2 -> (lt k1 k2 = true <-> clt (code k1) (code k2)).

Lemma not_after_trans (a b c : C) :
  not_after clt a b -> not_after clt b c -> not_after clt a c.
Proof.
  destruct clt_total as [irr tr tot]. unfold not_after.
  intros Hab Hbc Hca.
  destruct (tot a b) as [H | [H | H]].
  - apply Hbc. eauto.
  - subst. contradiction.
  - contradiction.
Qed.

Lemma not_after_antisym (a b : C) :
  not_after clt a b -> not_after clt b a -> a = b.
Proof.
  destruct clt_total as [irr tr tot]. unfold not_after. intros Hab Hba.
  destruct (tot a b) as [H | [H | H]]; [contradiction | assumption | contradiction].
Qed.

Lemma sort_insert_perm (x : A) (l : list A) :
  Permutation (sort_insert lt key x l) (x :: l).
Proof.
  induction l as [|y l IH]; cbn [sort_insert]; [reflexivity|].
  destruct (lt (key y) (key x)); [|reflexivity].
  rewrite IH. apply perm_swap.
Qed.

Lemma py_sort_perm (l : list A) : Permutation (py_sort lt key l) l.
Proof.
  induction l as [|x l IH]; cbn [py_sort fold_right]; [reflexivity|].
  fold (py_sort lt key l). rewrite sort_insert_perm. now constructor.
Qed.

Lemma sort_insert_sorted (x : A) (l : list A) :
  D (key x) -> Forall (fun a => D (key a)) l ->
  StronglySorted (fun a b => not_after clt (code (key a)) (code (key b))) l ->
  StronglySorted (fun a b => not_after clt (code (key a)) (code (key b)))
                 (sort_insert lt key x l).
Proof.
  destruct clt_total as [irr tr tot].
  intros Hx Hl Hsorted.
  induction l as [|y l IH]; cbn [sort_insert].
  - repeat constructor.
  - inversion Hl as [|? ? Hy Hl']; subst.
    inversion Hsorted as [|? ? Hsorted' Hall]; subst.
    destruct (lt (key y) (key x)) eqn:E.
    + constructor; [now apply IH|].
      apply (Permutation_Forall (Permutation_sym (sort_insert_perm x l))).
      constructor; [|assumption].
      apply lt_code in E; [|assumption..].
      unfold not_after. intros Hxy. apply (irr (code (key x))). eauto.
    + assert (Hxy : not_after clt (code (key x)) (code (key y))).
      { unfold not_after. intros Hyx. apply lt_code in Hyx; [|assumption..].
        congruence. }
      constructor; [assumption|]. constructor; [assumption|].
      apply Forall_forall. intros z Hz.
      apply (not_after_trans _ (code (key y))); [assumption|].
      now apply (proj1 (Forall_forall _ _) Hall).
Qed.

Lemma py_sort_sorted (l : list A) :
  Forall (fun a => D (key a)) l ->
  StronglySorted (fun a b => not_after clt (code (key a)) (code (key b)))
                 (py_sort lt key l).
Proof.
  induction l as [|x l IH]; intros Hl; cbn [py_sort fold_right].
  - constructor.
  - inversion Hl; subst. fold (py_sort lt key l).
    apply sort_insert_sorted; [assumption| |now apply IH].
    now apply (Permutation_Forall (Permutation_sym (py_sort_perm l))).
Qed.

Lemma sorted_permutation_eq (l1 : list C) : forall l2,
  Permutation l1 l2 ->
  StronglySorted (not_after clt) l1 -> StronglySorted (not_after clt) l2 ->
  l1 = l2.
Proof.
  induction l1 as [|a l1 IH]; intros l2 Hperm H1 H2.
  - now apply Permutation_nil in Hperm.
  - destruct l2 as [|b l2].
    + now apply Permutation_sym, Permutation_nil in Hperm.
    + inversion H1 as [|? ? H1' Ha]; subst.
      inversion H2 as [|? ? H2' Hb]; subst.
      assert (Hab : a = b).
      { assert (Hina : In a (b :: l2))
          by (apply (Permutation_in _ Hperm); now left).
        assert (Hinb : In b (a :: l1))
          by (apply (Permutation_in _ (Permutation_sym Hperm)); now left).
        destruct Hina as [-> | Hina]; [reflexivity|].
        destruct Hinb as [-> | Hinb]; [reflexivity|].
        apply not_after_antisym.
        - now apply (proj1 (Forall_forall _ _) Ha).
        - now apply (proj1 (Forall_forall _ _) Hb). }
      subst b. f_equal. apply IH; try assumption.
      now apply Permutation_cons_inv in Hperm.
Qed.

Lemma strongly_sorted_map (R : C -> C -> Prop) (f : A -> C) (l : list A) :
  StronglySorted (fun a b => R (f a) (f b)) l -> StronglySorted R (map f l).
Proof.
  induction 1 as [|a l _ IH Hall]; cbn [map]; constructor; [assumption|].
  apply Forall_forall. intros c Hc. apply in_map_iff in Hc as (b & <- & Hb).
  now apply (proj1 (Forall_forall _ _) Hall).
Qed.

Lemma sorted_permutation_codes (l1 l2 : list A) :
  Permutation l1 l2 ->
  StronglySorted (fun a b => not_after clt (code (key a)) (code (key b))) l1 ->
  StronglySorted (fun a b => not_after clt (code (key a)) (code (key b))) l2 ->
  map (fun a => code (key a)) l1 = map (fun a => code (key a)) l2.
Proof.
  intros Hperm H1 H2. apply sorted_permutation_eq.
  - now apply Permutation_map.
  - now apply (strongly_sorted_map (not_after clt) (fun a => code (key a))).
  - now apply (strongly_sorted_map (not_after clt) (fun a => code (key a))).
Qed.

End SortFacts.

Lemma strongly_sorted_weaken {A : Type} (P Q : A -> A -> Prop) (l : list A) :
  (forall a b, In a l -> In b l -> P a b -> Q a b) ->
  StronglySorted P l -> StronglySorted Q l.
Proof.
  intros Himp Hsorted.
  induction Hsorted as [|a l Hs IH Hall]; constructor.
  - apply IH. intros x y Hx Hy. apply Himp; now right.
  - apply Forall_forall. intros b Hb. apply Himp; [now left | now right|].
    now apply (proj1 (Forall_forall _ _) Hall).
Qed.

(* ================================================================= *)
(** ** The recommendation selector: [make_recommendations_for_id] *)

Lemma key_code_lt_strict_total : strict_total key_code_lt.
Proof.
  apply lex_strict_total;
    [apply rank_lt_strict_total | apply string_lt_strict_total].
Qed.

Lemma tuple_lt_code (k1 k2 : float * string) :
  key_ok k1 -> key_ok k2 ->
  tuple_lt k1 k2 = true <-> key_code_lt (key_code k1) (key_code k2).
Proof.
  destruct rank_lt_strict_total as [irr _ _].
  unfold key_ok, tuple_lt, key_code_lt, key_code, lex. cbn [fst snd].
  intros H1 H2. destruct (feqb (fst k1) (fst k2)) eqn:E.
  - apply (feqb_rank _ _ H1 H2) in E. rewrite E. unfold string_lt. split.
    + auto.
    + intros [H | [_ H]]; [now apply irr in H | assumption].
  - rewrite (fltb_rank _ _ H1 H2). split; [auto|].
    intros [H | [H _]]; [assumption|].
    apply (feqb_rank _ _ H1 H2) in H. congruence.
Qed.

Lemma ranked_before_code (x y : string * float) :
  is_nan (snd x) = false -> is_nan (snd y) = false ->
  ranked_before x y <->
  not_after key_code_lt (key_code (candidate_key x))
                        (key_code (candidate_key y)).
Proof.
  intros Hx Hy.
  destruct rank_lt_strict_total as [irr tr tot].
  unfold ranked_before, not_after, key_code_lt, lex, key_code, candidate_key.
  cbn [fst snd].
  rewrite (fltb_rank _ _ Hy Hx), (feqb_rank _ _ Hx Hy), string_leb_not_lt.
  rewrite rank_lt_fneg, rank_eq_fneg.
  destruct (tot (rank (snd x)) (rank (snd y))) as [H | [H | H]].
  - split.
    + intros [H' | [H' _]]; exfalso;
        [apply (irr (rank (snd x))); eauto | rewrite H' in H; now apply irr in H].
    + intros Hn. exfalso. apply Hn. now left.
  - rewrite H. split.
    + intros [H' | [_ H']]; [now apply irr in H'|].
      intros [H'' | [_ H'']]; [now apply irr in H'' | contradiction].
    + intros Hn. right. split; [reflexivity|]. intros Hlt. apply Hn. auto.
  - split.
    + intros _ [H' | [H' _]];
        [apply (irr (rank (snd x))); eauto | rewrite H' in H; now apply irr in H].
    + intros _. now left.
Qed.

Lemma take_top_genres_firstn (pairs : list (string * float)) : forall top,
  take_top_genres pairs top
  = top ++ map fst (firstn (2 - List.length top) pairs).
Proof.
  induction pairs as [|entry pairs IH]; intros top; cbn [take_top_genres].
  - now rewrite firstn_nil, app_nil_r.
  - destruct (Nat.ltb_spec (List.length top) 2) as [Hlt | Hge].
    + rewrite IH, length_app. cbn [List.length].
      replace (2 - List.length top)%nat
        with (S (2 - (List.length top + 1)))%nat by lia.
      cbn [firstn map]. now rewrite <- app_assoc.
    + replace (2 - List.length top)%nat with 0%nat by lia.
      cbn [firstn map]. now rewrite app_nil_r.
Qed.

Lemma take_titles_firstn (candidates : list (string * float)) :
  forall index result,
    take_titles index candidates result
    = fold_left set_add (map fst (firstn (5 - index) candidates)) result.
Proof.
  induction candidates as [|c candidates IH]; intros index result;
    cbn [take_titles].
  - now rewrite firstn_nil.
  - destruct (Nat.ltb_spec index 5) as [Hlt | Hge].
    + rewrite IH.
      replace (5 - index)%nat with (S (5 - S index))%nat by lia.
      reflexivity.
    + now replace (5 - index)%nat with 0%nat by lia.
Qed.

Lemma set_add_in (s : list string) (x t : string) :
  In t (set_add s x) <-> In t s \/ t = x.
Proof.
  unfold set_add. destruct (existsb (String.eqb x) s) eqn:E.
  - apply existsb_exists in E as (y & Hy & Heq).
    apply String.eqb_eq in Heq as <-. split; [auto|]. now intros [H | ->].
  - rewrite in_app_iff. cbn. intuition.
Qed.

Lemma set_add_nodup (s : list string) (x : string) :
  NoDup s -> NoDup (set_add s x).
Proof.
  intros Hs. unfold set_add. destruct (existsb (String.eqb x) s) eqn:E;
    [assumption|].
  apply NoDup_app; [assumption | repeat constructor; intros [] |].
  intros y Hy [<- | []].
  assert (Hex : existsb (String.eqb x) s = true).
  { apply existsb_exists. exists x. split; [assumption | apply String.eqb_refl]. }
  congruence.
Qed.

Lemma set_add_length (s : list string) (x : string) :
  (List.length (set_add s x) <= S (List.length s))%nat.
Proof.
  unfold set_add. destruct (existsb (String.eqb x) s); [lia|].
  rewrite length_app. cbn. lia.
Qed.

Lemma fold_set_add (titles : list string) : forall s,
  NoDup s ->
  let s' := fold_left set_add titles s in
  NoDup s' /\
  (forall t, In t s' <-> In t s \/ In t titles) /\
  (List.length s' <= List.length s + List.length titles)%nat.
Proof.
  induction titles as [|x titles IH]; intros s Hs; cbn zeta.
  - cbn. split; [assumption|]. split; [intuition | lia].
  - cbn [fold_left].
    destruct (IH (set_add s x) (set_add_nodup s x Hs)) as (Hnd & Hin & Hlen).
    split; [assumption|]. split.
    + intros t. rewrite Hin, set_add_in. cbn. intuition.
    + pose proof (set_add_length s x). cbn [List.length]. lia.
Qed.

Lemma genre_overlap_set_and set_and (top genres : list string) :
  set_and_ok set_and ->
  (0 <? List.length (set_and top genres))%nat = genres_overlap top genres.
Proof.
  intros Hok. destruct (Hok top genres) as [_ Hin].
  unfold genres_overlap.
  destruct (existsb _ top) eqn:E.
  - apply existsb_exists in E as (g & Hg & E).
    apply existsb_exists in E as (g' & Hg' & Heq).
    apply String.eqb_eq in Heq as <-.
    assert (Hshared : In g (set_and top genres)) by now apply Hin.
    destruct (set_and top genres); [contradiction | reflexivity].
  - destruct (set_and top genres) as [|g shared] eqn:Es; [reflexivity|].
    exfalso. destruct (proj1 (Hin g) (or_introl eq_refl)) as [Hg Hg'].
    assert (Hex : existsb (fun g => existsb (String.eqb g) genres) top = true).
    { apply existsb_exists. exists g. split; [assumption|].
      apply existsb_exists. exists g. split; [assumption|].
      apply String.eqb_refl. }
    congruence.
Qed.

Lemma fold_consider_movie set_and info recipient_seen top :
  set_and_ok set_and ->
  forall entries candidates,
    fold_left (consider_movie set_and info recipient_seen top)
              entries candidates
    = candidates ++ candidates_of info entries recipient_seen top.
Proof.
  intros Hok. induction entries as [|[movie_id rating] entries IH];
    intros candidates.
  - cbn. now rewrite app_nil_r.
  - cbn [fold_left]. rewrite IH. unfold candidates_of. cbn [flat_map fst snd].
    unfold consider_movie.
    destruct (get info movie_id) as [[title genres]|].
    + rewrite (genre_overlap_set_and set_and top genres Hok).
      destruct (negb (mem recipient_seen movie_id)); cbn [andb].
      * destruct (genres_overlap top genres); cbn [app].
        -- now rewrite <- app_assoc.
        -- reflexivity.
      * reflexivity.
    + reflexivity.
Qed.

Lemma in_candidates_of info recommender_ratings recipient_seen top title rating :
  In (title, rating) (candidates_of info recommender_ratings recipient_seen top)
  <->
  exists movie_id genres,
    In (movie_id, rating) recommender_ratings /\
    mem recipient_seen movie_id = false /\
    get info movie_id = Some (title, genres) /\
    exists g, In g top /\ In g genres.
Proof.
  unfold candidates_of. rewrite in_flat_map. split.
  - intros ([movie_id r] & Hin & Hc). cbn [fst snd] in Hc.
    destruct (get info movie_id) as [[t genres]|] eqn:Eg; [|contradiction].
    destruct (negb (mem recipient_seen movie_id)) eqn:Es; [|contradiction].
    destruct (genres_overlap top genres) eqn:Eo; [|contradiction].
    destruct Hc as [[= -> ->] | []].
    exists movie_id, genres. split; [assumption|].
    split; [now apply negb_true_iff in Es|]. split; [exact Eg|].
    apply existsb_exists in Eo as (g & Hg & Eo).
    apply existsb_exists in Eo as (g' & Hg' & Heq).
    apply String.eqb_eq in Heq as <-. now exists g.
  - intros (movie_id & genres & Hin & Hseen & Hget & g & Hg & Hg').
    exists (movie_id, rating). split; [assumption|]. cbn [fst snd].
    rewrite Hget, Hseen. cbn [negb andb].
    assert (Ho : genres_overlap top genres = true).
    { apply existsb_exists. exists g. split; [assumption|].
      apply existsb_exists. exists g. split; [assumption|].
      apply String.eqb_refl. }
    rewrite Ho. now left.
Qed.

(** Two rankings of the same entries list the same names. *)
Lemma ranking_names (l1 l2 : list (string * float)) :
  no_nan (values l1) ->
  Permutation l1 l2 ->
  StronglySorted ranked_before l1 -> StronglySorted ranked_before l2 ->
  map fst l1 = map fst l2.
Proof.
  intros Hnan Hperm H1 H2.
  assert (Hnan1 : forall x, In x l1 -> is_nan (snd x) = false).
  { intros x Hx. apply (proj1 (Forall_forall _ _) Hnan).
    now apply (in_map snd). }
  assert (Hnan2 : forall x, In x l2 -> is_nan (snd x) = false).
  { intros x Hx. apply Hnan1.
    now apply (Permutation_in _ (Permutation_sym Hperm)). }
  assert (Hcodes :
    map (fun a => key_code (candidate_key a)) l1 =
    map (fun a => key_code (candidate_key a)) l2).
  { apply (sorted_permutation_codes candidate_key key_code key_code_lt
             key_code_lt_strict_total); [assumption| |].
    - apply (strongly_sorted_weaken ranked_before); [|assumption].
      intros a b Ha Hb. apply ranked_before_code; auto.
    - apply (strongly_sorted_weaken ranked_before); [|assumption].
      intros a b Ha Hb. apply ranked_before_code; auto. }
  apply (f_equal (map snd)) in Hcodes. rewrite !map_map in Hcodes.
  exact Hcodes.
Qed.

Lemma py_sort_ranking (l : list (string * float)) :
  no_nan (values l) ->
  Permutation (py_sort tuple_lt candidate_key l) l /\
  StronglySorted ranked_before (py_sort tuple_lt candidate_key l).
Proof.
  intros Hnan. split; [apply py_sort_perm|].
  assert (Hnan1 : forall x, In x l -> is_nan (snd x) = false).
  { intros x Hx. apply (proj1 (Forall_forall _ _) Hnan).
    now apply (in_map snd). }
  apply (strongly_sorted_weaken
           (fun a b => not_after key_code_lt (key_code (candidate_key a))
                                 (key_code (candidate_key b)))).
  - intros a b Ha Hb. apply ranked_before_code; apply Hnan1;
      now apply (Permutation_in _ (py_sort_perm tuple_lt candidate_key l)).
  - apply (py_sort_sorted tuple_lt candidate_key key_code key_code_lt key_ok
             key_code_lt_strict_total tuple_lt_code).
    apply Forall_forall. intros x Hx. unfold key_ok, candidate_key.
    cbn [fst]. rewrite is_nan_fneg. now apply Hnan1.
Qed.

Lemma no_nan_candidates info recommender_ratings recipient_seen top :
  no_nan (values recommender_ratings) ->
  no_nan (values (candidates_of info recommender_ratings recipient_seen top)).
Proof.
  intros Hnan. apply Forall_forall. intros r Hr.
  apply in_map_iff in Hr as ([title r'] & <- & Hin).
  apply in_candidates_of in Hin as (movie_id & genres & Hin & _).
  apply (proj1 (Forall_forall _ _) Hnan).
  now apply (in_map snd) in Hin.
Qed.

Lemma no_nan_permutation (l1 l2 : list (string * float)) :
  Permutation l1 l2 -> no_nan (values l1) -> no_nan (values l2).
Proof.
  intros Hperm. unfold no_nan, values.
  apply Permutation_Forall. now apply Permutation_map.
Qed.

Lemma make_recommendations_for_id_unfold set_and self
    recommender_id recipient_id recommender_ratings recipient_prefs
    recipient_seen :
  set_and_ok set_and ->
  get (all_user_ratings self) recommender_id = Some recommender_ratings ->
  get (all_user_ratings self) recipient_id = Some recipient_seen ->
  get (all_user_preferences self) recipient_id = Some recipient_prefs ->
  recipient_prefs <> [] ->
  make_recommendations_for_id set_and self recommender_id recipient_id
  = Ok (fold_left set_add
          (map fst
             (firstn 5
                (py_sort tuple_lt candidate_key
                   (candidates_of (movie_info self) recommender_ratings
                      recipient_seen
                      (map fst
                         (firstn 2
                            (py_sort tuple_lt candidate_key
                               recipient_prefs)))))))
          []).
Proof.
  intros Hok Hrec Hseen Hprefs Hne.
  unfold make_recommendations_for_id, mem, subscript.
  rewrite Hprefs, Hrec, Hseen. cbn [negb bind].
  destruct recipient_prefs as [|entry rest]; [congruence|].
  cbn [List.length Nat.eqb].
  rewrite take_top_genres_firstn, take_titles_firstn, fold_consider_movie
    by assumption.
  reflexivity.
Qed.

(** C1, as amended: in a recommender whose two stores know the same users,
    for a recommender present in the raw-ratings store and a recipient with
    a non-empty profile, no rating or profile value being nan,
    [make_recommendations_for_id] returns a set of at most five titles: the
    titles of the first five candidates (all of them if there are fewer) in
    any arrangement of the candidates by rating descending, then title
    ascending. The candidates are the (title, rating) of the recommender's
    ratings of movies that the recipient has not rated, that are in the
    catalog, and that share a genre with the recipient's top genres; the
    top genres are the first two (one if there is only one) in any
    arrangement of the recipient's profile by value descending, then genre
    ascending. Such arrangements exist. *)
Theorem C1_recommendations_are_the_top_five set_and
    (self : MovieRecommender) (recommender_id recipient_id : Z)
    (recommender_ratings : ratings) (recipient_prefs : profile) :
  set_and_ok set_and ->
  in_sync self ->
  get (all_user_ratings self) recommender_id = Some recommender_ratings ->
  get (all_user_preferences self) recipient_id = Some recipient_prefs ->
  recipient_prefs <> [] ->
  no_nan (values recipient_prefs) ->
  no_nan (values recommender_ratings) ->
  exists recipient_seen result,
    get (all_user_ratings self) recipient_id = Some recipient_seen /\
    make_recommendations_for_id set_and self recommender_id recipient_id
      = Ok result /\
    NoDup result /\
    (List.length result <= 5)%nat /\
    (exists ranked_prefs ranked,
        Permutation ranked_prefs recipient_prefs /\
        StronglySorted ranked_before ranked_prefs /\
        Permutation ranked
          (candidates_of (movie_info self) recommender_ratings recipient_seen
             (map fst (firstn 2 ranked_prefs))) /\
        StronglySorted ranked_before ranked) /\
    (forall ranked_prefs ranked,
        Permutation ranked_prefs recipient_prefs ->
        StronglySorted ranked_before ranked_prefs ->
        Permutation ranked
          (candidates_of (movie_info self) recommender_ratings recipient_seen
             (map fst (firstn 2 ranked_prefs))) ->
        StronglySorted ranked_before ranked ->
        forall title,
          In title result <-> In title (map fst (firstn 5 ranked))).
Proof.
  intros Hok Hsync Hrec Hprefs Hne Hnanp Hnanr.
  assert (Hseen : exists recipient_seen,
             get (all_user_ratings self) recipient_id = Some recipient_seen).
  { specialize (Hsync recipient_id). unfold mem in Hsync.
    rewrite Hprefs in Hsync.
    destruct (get (all_user_ratings self) recipient_id) as [seen|];
      [now exists seen | discriminate]. }
  destruct Hseen as [recipient_seen Hseen].
  set (pairs := py_sort tuple_lt candidate_key recipient_prefs).
  set (top := map fst (firstn 2 pairs)).
  set (candidates :=
         candidates_of (movie_info self) recommender_ratings recipient_seen top).
  set (sorted := py_sort tuple_lt candidate_key candidates).
  destruct (py_sort_ranking recipient_prefs Hnanp) as [Hpp Hps].
  assert (Hnanc : no_nan (values candidates))
    by now apply no_nan_candidates.
  destruct (py_sort_ranking candidates Hnanc) as [Hcp Hcs].
  fold pairs in Hpp, Hps. fold sorted in Hcp, Hcs.
  destruct (fold_set_add (map fst (firstn 5 sorted)) [] (NoDup_nil _))
    as (Hnd & Hin & Hlen). cbn zeta in *.
  exists recipient_seen,
    (fold_left set_add (map fst (firstn 5 sorted)) []).
  split; [assumption|].
  split; [now apply make_recommendations_for_id_unfold|].
  split; [assumption|]. split.
  { rewrite length_map, length_firstn in Hlen. cbn [List.length] in Hlen. lia. }
  split.
  { exists pairs, sorted. auto. }
  intros ranked_prefs ranked Hrp Hrs Hrcp Hrcs title.
  assert (Htop : map fst (firstn 2 ranked_prefs) = top).
  { unfold top. rewrite <- !firstn_map. f_equal.
    apply ranking_names; try assumption.
    - apply (no_nan_permutation recipient_prefs); [|assumption].
      now apply Permutation_sym.
    - now rewrite Hrp, Hpp. }
  rewrite Htop in Hrcp. fold candidates in Hrcp.
  assert (Hnames : map fst ranked = map fst sorted).
  { apply ranking_names; try assumption.
    - apply (no_nan_permutation candidates); [|assumption].
      now apply Permutation_sym.
    - now rewrite Hrcp, Hcp. }
  rewrite Hin, <- !firstn_map, Hnames. cbn [In]. tauto.
Qed.

Example recommender_many_init :
  init many_catalog many_ratings = Ok recommender_many.
Proof. vm_compute. reflexivity. Qed.

(** C1 where seven movies qualify: B (5.0), then D, F and K (4.0, by
    title), then A (3.0); J and L are cut. *)
Lemma C1_witness :
  make_recommendations_for_id set_and_list recommender_many 2 1
  = Ok ["B"; "D"; "F"; "K"; "A"]%string.
Proof.
  destruct (C1_recommendations_are_the_top_five set_and_list recommender_many
              2 1
              [(1, lit 3); (2, lit 5); (3, lit 5); (4, lit 4); (5, lit 5);
               (6, lit 4); (7, lit 2); (8, lit 5); (9, lit 5); (10, lit 5);
               (11, lit 2); (12, lit 4); (13, lit 1)]
              [("Horror"%string, lit 5); ("Drama"%string, lit 4);
               ("Action"%string, lit 1)])
    as (recipient_seen & result & _ & Hrun & _).
  - exact set_and_list_ok.
  - destruct (init_in_sync many_catalog many_ratings)
      as (self & Hinit & _ & _ & Hsync).
    rewrite recommender_many_init in Hinit. now injection Hinit as <-.
  - reflexivity.
  - reflexivity.
  - discriminate.
  - repeat constructor.
  - repeat constructor.
  - rewrite Hrun. vm_compute in Hrun. injection Hrun as <-. reflexivity.
Defined.

(** C1 with a rating that is nan: user 2 recommends to user 1 from the same
    seven ratings, kept in two insertion orders. Every comparison with the
    key of the nan rating is false, so that A stays where the insertion
    order puts it: first of the sorted candidates in the one store, where
    it is recommended with G, F, E and D, and last in the other, where C is
    recommended in its place. The candidates being the same, no order on
    them gives both results. *)
Lemma C1_counterexample_nan :
  init nan_catalog [(1, [(8, lit 5)]); (2, nan_first)]
    = Ok recommender_nan_first /\
  init nan_catalog [(1, [(8, lit 5)]); (2, nan_last)]
    = Ok recommender_nan_last /\
  Permutation nan_first nan_last /\
  make_recommendations_for_id set_and_list recommender_nan_first 2 1
    = Ok ["A"; "G"; "F"; "E"; "D"]%string /\
  make_recommendations_for_id set_and_list recommender_nan_last 2 1
    = Ok ["G"; "F"; "E"; "D"; "C"]%string /\
  In "A"%string ["A"; "G"; "F"; "E"; "D"]%string /\
  ~ In "A"%string ["G"; "F"; "E"; "D"; "C"]%string.
Proof.
  split; [vm_compute; reflexivity|].
  split; [vm_compute; reflexivity|].
  split; [exact (Permutation_cons_append (tl nan_first) (1, S754_nan))|].
  split; [vm_compute; reflexivity|].
  split; [vm_compute; reflexivity|].
  split; [now left|].
  cbn [In]. intros H.
  repeat (destruct H as [H | H]; [discriminate H|]). exact H.
Qed.

(* ================================================================= *)
(** ** Further properties *)

(** X1: [cosine_similarity] returns a float for every pair of profiles and
    every iteration order of the shared genres: no lookup fails,
    [math.sqrt] gets no negative argument and the divisor is never zero. *)
Theorem cosine_similarity_never_raises set_and (first second : profile) :
  set_and_ok set_and ->
  cosine_similarity set_and first second
  = Ok (similarity set_and first second).
Proof.
  intros Hok. unfold similarity.
  destruct (cosine_similarity_returns set_and first second Hok) as [s ->].
  reflexivity.
Qed.

Lemma cosine_similarity_never_raises_witness :
  cosine_similarity set_and_list profile_huge profile_ones
  = Ok (similarity set_and_list profile_huge profile_ones).
Proof.
  apply cosine_similarity_never_raises. exact set_and_list_ok.
Defined.

(** X2: a user none of whose rated movies is in the catalog has the
    empty profile. *)
Theorem ratings_to_preferences_unknown_movies
    (info : catalog) (user_ratings : ratings) :
  (forall movie_id score,
      In (movie_id, score) user_ratings -> get info movie_id = None) ->
  ratings_to_preferences info user_ratings = Ok [].
Proof.
  intros Hunknown.
  destruct (ratings_to_preferences_per_tag info user_ratings)
    as (prefs & Hrun & _ & Hkeys & _).
  rewrite Hrun. f_equal. destruct prefs as [|[genre v] prefs]; [reflexivity|].
  exfalso.
  destruct (proj1 (Hkeys genre) (or_introl eq_refl))
    as (movie_id & score & title & genres & Hin & Hget & _).
  rewrite (Hunknown _ _ Hin) in Hget. discriminate.
Qed.

Lemma ratings_to_preferences_unknown_movies_witness :
  ratings_to_preferences example_catalog [(7, lit 3); (8, lit 5)] = Ok [].
Proof.
  apply ratings_to_preferences_unknown_movies.
  intros movie_id score [[= <- _] | [[= <- _] | []]]; reflexivity.
Defined.

(** X3: every recommended title is the title of a catalog movie that
    the recommender has rated and the recipient has not. *)
Theorem recommended_titles_are_unseen set_and (self : MovieRecommender)
    (recommender_id recipient_id : Z) (result : list string) :
  set_and_ok set_and ->
  make_recommendations_for_id set_and self recommender_id recipient_id
    = Ok result ->
  forall title,
    In title result ->
    exists recommender_ratings recipient_seen movie_id rating genres,
      get (all_user_ratings self) recommender_id = Some recommender_ratings /\
      get (all_user_ratings self) recipient_id = Some recipient_seen /\
      In (movie_id, rating) recommender_ratings /\
      mem recipient_seen movie_id = false /\
      get (movie_info self) movie_id = Some (title, genres).
Proof.
  intros Hok Hrun title Hin.
  unfold make_recommendations_for_id, mem, subscript in Hrun.
  destruct (get (all_user_preferences self) recipient_id) as [prefs|] eqn:Ep;
    cbn [negb bind] in Hrun; [|injection Hrun as <-; contradiction].
  destruct prefs as [|entry prefs];
    cbn [List.length Nat.eqb] in Hrun; [injection Hrun as <-; contradiction|].
  destruct (get (all_user_ratings self) recommender_id)
    as [recommender_ratings|] eqn:Er; cbn [bind] in Hrun; [|discriminate].
  destruct (get (all_user_ratings self) recipient_id)
    as [recipient_seen|] eqn:Es; cbn [bind] in Hrun; [|discriminate].
  injection Hrun as <-.
  rewrite take_titles_firstn, fold_consider_movie in Hin by assumption.
  cbn [app] in Hin.
  apply (proj1 (proj2 (fold_set_add _ [] (NoDup_nil _)))) in Hin
    as [[] | Hin].
  apply in_map_iff in Hin as ([title' rating] & Heq & Hin).
  cbn [fst] in Heq. subst title'.
  assert (Hin' : In (title, rating)
                    (py_sort tuple_lt candidate_key
                       (candidates_of (movie_info self) recommender_ratings
                          recipient_seen
                          (take_top_genres
                             (py_sort tuple_lt preference_key (entry :: prefs))
                             [])))).
  { rewrite <- (firstn_skipn (5 - 0) _). apply in_or_app. now left. }
  clear Hin. rename Hin' into Hin.
  apply (Permutation_in _ (py_sort_perm tuple_lt candidate_key _)) in Hin.
  apply in_candidates_of in Hin
    as (movie_id & genres & Hrated & Hunseen & Hget & _).
  now exists recommender_ratings, recipient_seen, movie_id, rating, genres.
Qed.

Lemma recommended_titles_are_unseen_witness :
  exists recommender_ratings recipient_seen movie_id rating genres,
    get (all_user_ratings example_recommender) 20 = Some recommender_ratings /\
    get (all_user_ratings example_recommender) 10 = Some recipient_seen /\
    In (movie_id, rating) recommender_ratings /\
    mem recipient_seen movie_id = false /\
    get (movie_info example_recommender) movie_id = Some ("C"%string, genres).
Proof.
  apply (recommended_titles_are_unseen set_and_list example_recommender 20 10
           ["C"%string] set_and_list_ok).
  - vm_compute. reflexivity.
  - now left.
Defined.

(** The end-to-end example: the profiles of users 10 and 20, and the
    recommendation of user 20 to user 10. *)
Example end_to_end_example :
  init example_catalog example_ratings = Ok example_recommender /\
  get (all_user_preferences example_recommender) 10
    = Some [("Drama"%string, lit 5); ("Comedy"%string, lit 1)] /\
  make_recommendations_for_id set_and_list example_recommender 20 10
    = Ok ["C"%string].
Proof. repeat split; vm_compute; reflexivity. Qed.

(* ================================================================= *)
(** ** More on dictionaries *)

Section DictMore.
Context {K V : Type} `{Key K}.

Lemma set_absent (d : dict K V) k v :
  ~ In k (keys d) -> set d k v = d ++ [(k, v)].
Proof.
  induction d as [|[k' v'] d IH]; intros Hk; [reflexivity|].
  cbn [set]. rewrite keyb_neq by (intros ->; apply Hk; now left).
  cbn [app]. f_equal. apply IH. intros Hin. apply Hk. now right.
Qed.

Lemma set_present (d : dict K V) k v :
  get d k = Some v -> set d k v = d.
Proof.
  induction d as [|[k' v'] d IH]; intros Hget; [discriminate|].
  cbn [get set] in *. destruct (keyb k' k) eqn:E.
  - apply keyb_eq in E. subst k'. now injection Hget as ->.
  - f_equal. now apply IH.
Qed.

(** Entries with fresh, pairwise distinct keys are appended in order. *)
Lemma update_fresh (other : dict K V) : forall d,
  NoDup (keys d ++ keys other) -> update d other = d ++ other.
Proof.
  induction other as [|[k v] other IH]; intros d Hnd.
  - cbn. now rewrite app_nil_r.
  - unfold update in *. cbn [fold_left fst snd].
    unfold keys in Hnd. cbn [map fst] in Hnd.
    rewrite set_absent.
    + rewrite IH; [now rewrite <- app_assoc|].
      unfold keys. rewrite map_app. cbn [map fst]. rewrite <- app_assoc.
      exact Hnd.
    + apply NoDup_remove_2 in Hnd. intros Hin. apply Hnd.
      apply in_or_app. now left.
Qed.

Lemma update_nil (other : dict K V) : wf other -> update [] other = other.
Proof. intros Hwf. now rewrite update_fresh. Qed.

(** Entries that the dictionary already holds change nothing. *)
Lemma update_held (other : dict K V) : forall d,
  (forall k v, In (k, v) other -> get d k = Some v) -> update d other = d.
Proof.
  induction other as [|[k v] other IH]; intros d Hheld; [reflexivity|].
  unfold update in *. cbn [fold_left fst snd].
  rewrite set_present by (apply Hheld; now left).
  apply IH. intros k' v' Hin. apply Hheld. now right.
Qed.

Lemma update_twice (d other : dict K V) :
  wf other -> update (update d other) other = update d other.
Proof.
  intros Hwf. apply update_held. intros k v Hin.
  apply get_update_present; [exact Hwf|]. now apply In_get.
Qed.

End DictMore.

(** A function on the values goes through [set] and [update]. *)
Lemma map_set {K V W} `{Key K} (f : V -> W) (d : dict K V) k v :
  map (fun entry => (fst entry, f (snd entry))) (set d k v)
  = set (map (fun entry => (fst entry, f (snd entry))) d) k (f v).
Proof.
  induction d as [|[k' v'] d IH]; [reflexivity|].
  cbn [set map fst snd]. destruct (keyb k' k); cbn [map fst snd]; [reflexivity|].
  now rewrite IH.
Qed.

Lemma map_update {K V W} `{Key K} (f : V -> W) (other : dict K V) : forall d,
  map (fun entry => (fst entry, f (snd entry))) (update d other)
  = update (map (fun entry => (fst entry, f (snd entry))) d)
           (map (fun entry => (fst entry, f (snd entry))) other).
Proof.
  induction other as [|[k v] other IH]; intros d; [reflexivity|].
  unfold update in *. cbn [fold_left map fst snd].
  rewrite IH. now rewrite map_set.
Qed.

Lemma profiles_of_update info (all_ratings new_ratings : dict Z ratings) :
  profiles_of info (update all_ratings new_ratings)
  = update (profiles_of info all_ratings) (profiles_of info new_ratings).
Proof. apply (map_update (profile_of info)). Qed.

Lemma wf_profiles_of info (all_ratings : dict Z ratings) :
  wf all_ratings -> wf (profiles_of info all_ratings).
Proof. unfold wf. now rewrite keys_profiles_of. Qed.

Lemma init_profiles_of info (user_ratings : dict Z ratings) :
  wf user_ratings ->
  init info user_ratings
  = Ok {| movie_info := info;
          all_user_ratings := user_ratings;
          all_user_preferences := profiles_of info user_ratings |}.
Proof.
  intros Hwf. unfold init. rewrite build_preferences_update.
  cbn [bind]. now rewrite update_nil by now apply wf_profiles_of.
Qed.

(** X4: the constructor never raises; it keeps the users in the order of the
    ratings and gives each the profile of their own ratings. *)
Theorem constructor_profiles_every_user
    (info : catalog) (user_ratings : dict Z ratings) :
  wf user_ratings ->
  exists self,
    init info user_ratings = Ok self /\
    movie_info self = info /\
    all_user_ratings self = user_ratings /\
    keys (all_user_preferences self) = keys user_ratings /\
    forall user_id rated,
      get user_ratings user_id = Some rated ->
      exists prefs,
        ratings_to_preferences info rated = Ok prefs /\
        get (all_user_preferences self) user_id = Some prefs.
Proof.
  intros Hwf. eexists. split; [now apply init_profiles_of|].
  cbn [movie_info all_user_ratings all_user_preferences].
  repeat split; [apply keys_profiles_of|].
  intros user_id rated Hget. exists (profile_of info rated).
  split; [apply ratings_to_preferences_profile_of|].
  now rewrite get_profiles_of, Hget.
Qed.

Lemma constructor_profiles_every_user_witness :
  exists self,
    init example_catalog example_ratings = Ok self /\
    movie_info self = example_catalog /\
    all_user_ratings self = example_ratings /\
    keys (all_user_preferences self) = keys example_ratings /\
    forall user_id rated,
      get example_ratings user_id = Some rated ->
      exists prefs,
        ratings_to_preferences example_catalog rated = Ok prefs /\
        get (all_user_preferences self) user_id = Some prefs.
Proof.
  apply constructor_profiles_every_user.
  repeat constructor; cbn; intuition discriminate.
Defined.

(** X5: adding new ratings to a recommender that the constructor built gives
    the recommender that the constructor builds from the merged ratings. *)
Theorem add_new_ratings_is_rebuild (info : catalog)
    (user_ratings new_ratings : dict Z ratings) (self : MovieRecommender) :
  wf user_ratings -> wf new_ratings ->
  init info user_ratings = Ok self ->
  add_new_ratings self new_ratings
  = init info (update user_ratings new_ratings).
Proof.
  intros Hwf Hnew Hinit.
  rewrite init_profiles_of in Hinit by assumption. injection Hinit as <-.
  rewrite init_profiles_of by now apply wf_update.
  unfold add_new_ratings. cbn [movie_info all_user_ratings all_user_preferences].
  rewrite build_preferences_update. cbn [bind].
  rewrite update_nil by now apply wf_profiles_of.
  now rewrite profiles_of_update.
Qed.

Lemma add_new_ratings_is_rebuild_witness :
  add_new_ratings example_recommender example_new_ratings
  = init example_catalog (update example_ratings example_new_ratings).
Proof.
  apply (add_new_ratings_is_rebuild example_catalog example_ratings).
  - repeat constructor; cbn; intuition discriminate.
  - repeat constructor; cbn; intuition discriminate.
  - vm_compute. reflexivity.
Defined.

(** X6: adding the same new ratings a second time changes nothing. *)
Theorem add_new_ratings_twice (self self' : MovieRecommender)
    (new_ratings : dict Z ratings) :
  wf new_ratings ->
  add_new_ratings self new_ratings = Ok self' ->
  add_new_ratings self' new_ratings = Ok self'.
Proof.
  intros Hnew Hadd. unfold add_new_ratings in *.
  rewrite build_preferences_update in Hadd. cbn [bind] in Hadd.
  injection Hadd as <-. cbn [movie_info all_user_ratings all_user_preferences].
  rewrite build_preferences_update. cbn [bind].
  rewrite !update_twice; [reflexivity| |exact Hnew].
  rewrite update_nil; now apply wf_profiles_of.
Qed.

Lemma add_new_ratings_twice_witness :
  exists self',
    add_new_ratings example_recommender example_new_ratings = Ok self' /\
    add_new_ratings self' example_new_ratings = Ok self'.
Proof.
  eexists. split; [vm_compute; reflexivity|].
  apply (add_new_ratings_twice example_recommender).
  - repeat constructor; cbn; intuition discriminate.
  - vm_compute. reflexivity.
Defined.


(* ================================================================= *)
(** ** Signs *)

Lemma fmul_not_negative (x y : float) :
  not_negative x -> not_negative y -> not_negative (fmul x y).
Proof.
  destruct x as [sx|sx| |sx mx ex], y as [sy|sy| |sy my ey];
    try destruct sx; try destruct sy; cbn; try easy.
  intros _ _. apply binary_round_aux_not_negative.
Qed.

Lemma fdiv_not_negative (x y : float) :
  not_negative x -> above_zero y -> not_negative (fdiv x y).
Proof.
  destruct x as [sx|sx| |sx mx ex], y as [sy|sy| |sy my ey];
    try destruct sx; try destruct sy; cbn; try easy.
  intros _ _. unfold fdiv, SF64div, SFdiv.
  destruct (SFdiv_core_binary prec emax (Z.pos mx) ex (Z.pos my) ey)
    as [[mz ez] lz].
  apply binary_round_aux_not_negative.
Qed.

Lemma fsqrt_not_negative (x : float) : not_negative (fsqrt x).
Proof.
  destruct x as [sx|sx| |sx mx ex]; try destruct sx; cbn; try easy.
  unfold fsqrt, SF64sqrt, SFsqrt.
  destruct (SFsqrt_core_binary prec emax (Z.pos mx) ex) as [[mz ez] lz].
  apply binary_round_aux_not_negative.
Qed.

Lemma above_zero_not_zero (x : float) :
  not_negative x -> feqb x zero = false -> above_zero x.
Proof. destruct x as [sx|sx| |sx mx ex]; try destruct sx; cbn; easy. Qed.

Lemma of_int_above_zero (n : Z) : 0 < n -> above_zero (of_int n).
Proof.
  intros Hn. destruct n as [|p|p]; try lia.
  unfold of_int, binary_normalize, binary_round.
  destruct (shl_align p 0 (fexp prec emax (Z.pos (digits2_pos p) + 0)))
    as [mz ez] eqn:E.
  assert (Hez : -1074 <= ez).
  { unfold shl_align in E. rewrite fexp_eq in E.
    destruct (Z.max (Z.pos (digits2_pos p) + 0 - 53) (-1074) - 0) eqn:Ed;
      injection E as <- <-; lia. }
  pose proof (binary_round_aux_keeps false (Z.pos mz) ez loc_Exact) as Hk.
  assert (H1 : 0 < Zdigits2 (Z.pos mz)).
  { rewrite Zdigits2_log2. pose proof (Z.log2_nonneg (Z.pos mz)). lia. }
  specialize (Hk ltac:(lia) ltac:(lia)).
  destruct (binary_round_aux prec emax false (Z.pos mz) ez loc_Exact)
    as [s|s| |s m e]; try easy.
  - now subst s.
  - destruct Hk as [-> _]. exact I.
Qed.

(* ================================================================= *)
(** ** Ratings that are not negative *)

Lemma sum_not_negative (xs : list float) :
  Forall not_negative xs -> not_negative (sum xs).
Proof. intros Hxs. unfold sum. now apply fold_fadd_not_negative. Qed.

Lemma genre_scores_incl info user_ratings genre score :
  In score (genre_scores info user_ratings genre) ->
  In score (values user_ratings).
Proof.
  unfold genre_scores. intros Hin. apply in_flat_map in Hin as (entry & He & Hin).
  destruct (get info (fst entry)) as [[title genres]|]; [|contradiction].
  apply in_map_iff in Hin as (_ & <- & _).
  unfold values. now apply in_map.
Qed.

Lemma profile_of_not_negative info (user_ratings : ratings) :
  Forall not_negative (values user_ratings) ->
  Forall not_negative (values (profile_of info user_ratings)).
Proof.
  intros Hpos.
  destruct (ratings_to_preferences_spec info user_ratings)
    as (prefs & Hrun & Hwf & Hget).
  unfold profile_of. rewrite Hrun.
  apply Forall_forall. intros v Hv.
  unfold values in Hv. apply in_map_iff in Hv as ([genre v'] & Heq & Hin).
  cbn [snd] in Heq. subst v'.
  apply (In_get _ _ _ Hwf) in Hin. rewrite Hget in Hin.
  unfold average in Hin.
  destruct (genre_scores info user_ratings genre) as [|s scores] eqn:Es;
    [discriminate|].
  injection Hin as <-.
  apply fdiv_not_negative.
  - apply sum_not_negative. apply Forall_forall. intros x Hx.
    rewrite <- Es in Hx. apply genre_scores_incl in Hx.
    now apply (proj1 (Forall_forall _ _) Hpos).
  - apply (of_int_above_zero (Z.of_nat (List.length (s :: scores)))).
    cbn [List.length]. lia.
Qed.

Lemma get_default_not_negative (p : profile) g :
  Forall not_negative (values p) -> not_negative (get_default p g zero).
Proof.
  intros Hp. unfold get_default. destruct (get p g) as [v|] eqn:E; [|exact I].
  apply get_In in E. apply (proj1 (Forall_forall _ _) Hp).
  unfold values. now apply (in_map snd) in E.
Qed.

Lemma similarity_not_negative set_and (first second : profile) :
  set_and_ok set_and ->
  Forall not_negative (values first) ->
  Forall not_negative (values second) ->
  not_negative (similarity set_and first second).
Proof.
  intros Hok H1 H2. unfold similarity.
  rewrite cosine_similarity_unfold by exact Hok.
  destruct (set_and (keys first) (keys second)) as [|g shared]; [exact I|].
  destruct (feqb (magnitude first) zero) eqn:E1; [exact I|].
  destruct (feqb (magnitude second) zero) eqn:E2; [exact I|].
  cbn [orb]. apply fdiv_not_negative.
  - apply sum_not_negative. unfold products. apply Forall_forall.
    intros x Hx. apply in_map_iff in Hx as (g' & <- & _).
    apply fmul_not_negative; now apply get_default_not_negative.
  - apply above_zero_not_zero.
    + apply fmul_not_negative; apply fsqrt_not_negative.
    + apply fmul_large; now apply magnitude_large.
Qed.

(** X7: the profile of ratings that are not negative has no negative value. *)
Theorem ratings_to_preferences_not_negative
    (info : catalog) (user_ratings : ratings) (prefs : profile) :
  Forall not_negative (values user_ratings) ->
  ratings_to_preferences info user_ratings = Ok prefs ->
  forall genre average,
    get prefs genre = Some average -> fltb average zero = false.
Proof.
  intros Hpos Hrun genre v Hget.
  apply not_negative_fltb.
  pose proof (profile_of_not_negative info user_ratings Hpos) as Hall.
  unfold profile_of in Hall. rewrite Hrun in Hall.
  apply get_In in Hget. apply (proj1 (Forall_forall _ _) Hall).
  unfold values. now apply (in_map snd) in Hget.
Qed.

Lemma ratings_to_preferences_not_negative_witness :
  fltb (lit 5) zero = false.
Proof.
  apply (ratings_to_preferences_not_negative example_catalog
           [(1, lit 5); (2, lit 1)]
           [("Drama"%string, lit 5); ("Comedy"%string, lit 1)])
    with (genre := "Drama"%string).
  - repeat constructor.
  - vm_compute. reflexivity.
  - reflexivity.
Defined.

(** X8: two profiles without negative values never have a negative
    similarity. *)
Theorem cosine_similarity_not_negative set_and (first second : profile) :
  set_and_ok set_and ->
  Forall not_negative (values first) ->
  Forall not_negative (values second) ->
  exists s,
    cosine_similarity set_and first second = Ok s /\ fltb s zero = false.
Proof.
  intros Hok H1 H2. exists (similarity set_and first second). split.
  - unfold similarity.
    now destruct (cosine_similarity_returns set_and first second Hok) as [s ->].
  - apply not_negative_fltb. now apply similarity_not_negative.
Qed.

Lemma cosine_similarity_not_negative_witness :
  exists s,
    cosine_similarity set_and_list profile_ones profile_huge_and_one = Ok s /\
    fltb s zero = false.
Proof.
  apply cosine_similarity_not_negative.
  - exact set_and_list_ok.
  - repeat constructor.
  - repeat constructor.
Defined.


(* ================================================================= *)
(** ** More on the neighbour finder *)

Lemma find_similar_user_by_id_choose set_and self user_id target :
  set_and_ok set_and ->
  get (all_user_preferences self) user_id = Some target ->
  find_similar_user_by_id set_and self user_id
  = Ok (snd (fold_left choose
               (scored set_and user_id target (all_user_preferences self))
               (minus_one, -1))).
Proof.
  intros Hok Hget. apply find_similar_user_by_id_fold; [exact Hget|].
  intros. now apply cosine_similarity_returns.
Qed.

Lemma exceeds_minus_one (s : float) (other_id : Z) :
  not_negative s -> is_nan s = false -> exceeds (s, other_id) (minus_one, -1).
Proof.
  intros Hs Hnan. left. cbn [fst].
  destruct s as [sx|sx| |sx mx ex]; try destruct sx; try easy.
Qed.

(** X9: the result is the sentinel -1 or a user of the store other than the
    target. *)
Theorem find_similar_user_by_id_never_self set_and
    (self : MovieRecommender) (user_id best_id : Z) :
  set_and_ok set_and ->
  find_similar_user_by_id set_and self user_id = Ok best_id ->
  best_id = -1 \/
  (In best_id (keys (all_user_preferences self)) /\ best_id <> user_id).
Proof.
  intros Hok Hrun.
  destruct (get (all_user_preferences self) user_id) as [target|] eqn:Hget.
  - rewrite (find_similar_user_by_id_choose _ _ _ target Hok Hget) in Hrun.
    injection Hrun as <-.
    destruct (choose_fold_spec
                (scored set_and user_id target (all_user_preferences self))
                (minus_one, -1) minus_one_not_nan) as (_ & Hwhich & _).
    cbn zeta in Hwhich. destruct Hwhich as [-> | [Hin _]]; [now left|].
    right. apply in_scored in Hin as (other_id & other & Hin & Hne & ->).
    cbn [snd]. split; [|exact Hne]. now apply (in_map fst) in Hin.
  - unfold find_similar_user_by_id in Hrun.
    rewrite (subscript_absent _ _ Hget) in Hrun. discriminate.
Qed.

Lemma find_similar_user_by_id_never_self_witness :
  20 = -1 \/
  (In 20 (keys (all_user_preferences example_recommender)) /\ 20 <> 10).
Proof.
  apply (find_similar_user_by_id_never_self set_and_list).
  - exact set_and_list_ok.
  - vm_compute. reflexivity.
Defined.

(** X10: where no profile has a negative value, a candidate whose similarity
    is not nan is enough for a user of the store to be returned. *)
Theorem find_similar_user_by_id_finds set_and
    (self : MovieRecommender) (user_id : Z) (target : profile) :
  set_and_ok set_and ->
  get (all_user_preferences self) user_id = Some target ->
  (forall other_id other,
      In (other_id, other) (all_user_preferences self) ->
      Forall not_negative (values other)) ->
  (exists other_id other,
      In (other_id, other) (all_user_preferences self) /\
      other_id <> user_id /\
      is_nan (similarity set_and target other) = false) ->
  exists best_id best,
    find_similar_user_by_id set_and self user_id = Ok best_id /\
    In (best_id, best) (all_user_preferences self) /\
    best_id <> user_id /\
    is_nan (similarity set_and target best) = false.
Proof.
  intros Hok Hget Hpos (other_id & other & Hin & Hne & Hnan).
  rewrite (find_similar_user_by_id_choose _ _ _ target Hok Hget).
  set (cands := scored set_and user_id target (all_user_preferences self)).
  destruct (choose_fold_spec cands (minus_one, -1) minus_one_not_nan)
    as (Hbest & Hwhich & Hmax). cbn zeta in *.
  assert (Hc : In (similarity set_and target other, other_id) cands).
  { apply in_scored. now exists other_id, other. }
  assert (Hex : exceeds (similarity set_and target other, other_id)
                        (minus_one, -1)).
  { apply exceeds_minus_one; [|exact Hnan].
    apply similarity_not_negative; [exact Hok| |].
    - apply (Hpos user_id). now apply get_In.
    - now apply (Hpos other_id). }
  apply exceeds_code in Hex; [|exact Hnan|exact minus_one_not_nan].
  destruct Hwhich as [E | [Hinb _]].
  { exfalso. apply (Hmax _ Hc Hnan). now rewrite E. }
  pose proof Hinb as Hinb'.
  apply in_scored in Hinb' as (best_id & best & Hinb' & Hneb & E).
  exists best_id, best. rewrite E in *. cbn [fst snd] in *. now repeat split.
Qed.

Lemma find_similar_user_by_id_finds_witness :
  exists best_id best,
    find_similar_user_by_id set_and_list example_recommender 10 = Ok best_id /\
    In (best_id, best) (all_user_preferences example_recommender) /\
    best_id <> 10 /\
    is_nan (similarity set_and_list
              [("Drama"%string, lit 5); ("Comedy"%string, lit 1)] best)
    = false.
Proof.
  apply find_similar_user_by_id_finds.
  - exact set_and_list_ok.
  - reflexivity.
  - intros other_id other [[= <- <-] | [[= <- <-] | []]]; repeat constructor.
  - exists 20, [("Drama"%string, lit 4); ("Comedy"%string, lit 4)].
    split; [right; now left|]. split; [lia|]. vm_compute. reflexivity.
Defined.

(** X11: where the target shares no genre with anybody, every similarity is
    0.0 and the greatest ID among the other users is returned. *)
Theorem find_similar_user_by_id_nothing_shared set_and
    (self : MovieRecommender) (user_id : Z) (target : profile) :
  set_and_ok set_and ->
  get (all_user_preferences self) user_id = Some target ->
  (forall other_id other genre,
      In (other_id, other) (all_user_preferences self) ->
      other_id <> user_id ->
      ~ (In genre (keys target) /\ In genre (keys other))) ->
  (exists other_id,
      In other_id (keys (all_user_preferences self)) /\
      other_id <> user_id) ->
  exists best_id,
    find_similar_user_by_id set_and self user_id = Ok best_id /\
    In best_id (keys (all_user_preferences self)) /\
    best_id <> user_id /\
    forall other_id,
      In other_id (keys (all_user_preferences self)) ->
      other_id <> user_id -> other_id <= best_id.
Proof.
  intros Hok Hget Hnone (other_id & Hin & Hne).
  rewrite (find_similar_user_by_id_choose _ _ _ target Hok Hget).
  set (cands := scored set_and user_id target (all_user_preferences self)).
  assert (Hzero : forall oid o,
             In (oid, o) (all_user_preferences self) -> oid <> user_id ->
             similarity set_and target o = zero).
  { intros oid o Hino Hneo. unfold similarity.
    rewrite cosine_similarity_unfold by exact Hok.
    rewrite (set_and_nil set_and _ _ Hok); [reflexivity|].
    intros g. now apply (Hnone oid o g). }
  assert (Hcands : forall oid,
             In oid (keys (all_user_preferences self)) -> oid <> user_id ->
             In (zero, oid) cands).
  { intros oid Hino Hneo. unfold keys in Hino.
    apply in_map_iff in Hino as ([oid' o] & Heq & Hino).
    cbn [fst] in Heq. subst oid'. apply in_scored. exists oid, o.
    now rewrite (Hzero oid o). }
  destruct (choose_fold_spec cands (minus_one, -1) minus_one_not_nan)
    as (Hbest & Hwhich & Hmax). cbn zeta in *.
  destruct Hwhich as [E | [Hinb _]].
  { exfalso. apply (Hmax _ (Hcands _ Hin Hne) eq_refl). rewrite E.
    left. left. reflexivity. }
  pose proof Hinb as Hinb'.
  apply in_scored in Hinb' as (best_id & best & Hinb' & Hneb & E).
  rewrite (Hzero _ _ Hinb' Hneb) in E.
  exists best_id. rewrite E in *. cbn [fst snd] in *.
  split; [reflexivity|]. split; [now apply (in_map fst) in Hinb'|].
  split; [exact Hneb|].
  intros oid Hino Hneo.
  specialize (Hmax _ (Hcands _ Hino Hneo) eq_refl).
  destruct (Z_le_gt_dec oid best_id) as [Hle | Hgt]; [exact Hle|].
  exfalso. apply Hmax. right. split; [reflexivity|]. cbn [snd code]. lia.
Qed.

Lemma find_similar_user_by_id_nothing_shared_witness :
  exists best_id,
    find_similar_user_by_id set_and_list recommender_with_empty_profile 40
      = Ok best_id /\
    In best_id (keys (all_user_preferences recommender_with_empty_profile)) /\
    best_id <> 40 /\
    forall other_id,
      In other_id (keys (all_user_preferences recommender_with_empty_profile)) ->
      other_id <> 40 -> other_id <= best_id.
Proof.
  apply (find_similar_user_by_id_nothing_shared set_and_list
           recommender_with_empty_profile 40 []).
  - exact set_and_list_ok.
  - reflexivity.
  - intros other_id other genre _ _ [[] _].
  - exists 10. split; [now left|lia].
Defined.

(* ================================================================= *)
(** ** More on the recommendation selector *)

Lemma in_firstn {A : Type} (n : nat) (l : list A) (x : A) :
  In x (firstn n l) -> In x l.
Proof.
  intros Hin. rewrite <- (firstn_skipn n l). apply in_or_app. now left.
Qed.


(** What the function returns: nothing, or the titles of the first five
    sorted candidates. *)
Lemma make_recommendations_for_id_titles set_and self
    recommender_id recipient_id result :
  set_and_ok set_and ->
  make_recommendations_for_id set_and self recommender_id recipient_id
    = Ok result ->
  result = [] \/
  exists recommender_ratings recipient_seen recipient_prefs,
    get (all_user_ratings self) recommender_id = Some recommender_ratings /\
    get (all_user_ratings self) recipient_id = Some recipient_seen /\
    get (all_user_preferences self) recipient_id = Some recipient_prefs /\
    result =
      fold_left set_add
        (map fst
           (firstn 5
              (sorted_candidates (movie_info self) recommender_ratings
                 recipient_seen recipient_prefs)))
        [].
Proof.
  intros Hok Hrun.
  unfold make_recommendations_for_id, mem, subscript in Hrun.
  destruct (get (all_user_preferences self) recipient_id) as [prefs|] eqn:Ep;
    cbn [negb bind] in Hrun; [|injection Hrun as <-; now left].
  destruct prefs as [|entry prefs];
    cbn [List.length Nat.eqb] in Hrun; [injection Hrun as <-; now left|].
  destruct (get (all_user_ratings self) recommender_id)
    as [recommender_ratings|] eqn:Er; cbn [bind] in Hrun; [|discriminate].
  destruct (get (all_user_ratings self) recipient_id)
    as [recipient_seen|] eqn:Es; cbn [bind] in Hrun; [|discriminate].
  injection Hrun as <-. right.
  exists recommender_ratings, recipient_seen, (entry :: prefs).
  repeat split.
  rewrite take_top_genres_firstn, take_titles_firstn, fold_consider_movie
    by assumption.
  reflexivity.
Qed.

(** X12: the result never holds more than five titles, and none twice,
    whatever the ratings are (nan included). *)
Theorem recommendations_at_most_five set_and (self : MovieRecommender)
    (recommender_id recipient_id : Z) (result : list string) :
  set_and_ok set_and ->
  make_recommendations_for_id set_and self recommender_id recipient_id
    = Ok result ->
  NoDup result /\ (List.length result <= 5)%nat.
Proof.
  intros Hok Hrun.
  destruct (make_recommendations_for_id_titles _ _ _ _ _ Hok Hrun)
    as [-> | (rr & seen & prefs & _ & _ & _ & ->)].
  - split; [constructor | cbn; lia].
  - destruct (fold_set_add
                (map fst (firstn 5 (sorted_candidates (movie_info self) rr
                                      seen prefs)))
                [] (NoDup_nil _)) as (Hnd & _ & Hlen).
    cbn zeta in *. split; [exact Hnd|].
    rewrite length_map, length_firstn in Hlen. cbn [List.length] in Hlen. lia.
Qed.

Lemma recommendations_at_most_five_witness :
  NoDup ["B"; "D"; "F"; "K"; "A"]%string /\
  (List.length ["B"; "D"; "F"; "K"; "A"]%string <= 5)%nat.
Proof.
  apply (recommendations_at_most_five set_and_list recommender_many 2 1).
  - exact set_and_list_ok.
  - vm_compute. reflexivity.
Defined.

(** X13: every recommended title is the title of a catalog movie tagged with
    a genre of the recipient's profile; where no value of that profile is
    nan, the genre is one of the first two of the sorted profile. *)
Theorem recommended_titles_match_top_genres set_and (self : MovieRecommender)
    (recommender_id recipient_id : Z) (result : list string) :
  set_and_ok set_and ->
  make_recommendations_for_id set_and self recommender_id recipient_id
    = Ok result ->
  forall title,
    In title result ->
    exists recipient_prefs movie_id genres genre,
      get (all_user_preferences self) recipient_id = Some recipient_prefs /\
      get (movie_info self) movie_id = Some (title, genres) /\
      In genre genres /\
      In genre (keys recipient_prefs) /\
      (no_nan (values recipient_prefs) ->
       In genre (top_genres recipient_prefs)).
Proof.
  intros Hok Hrun title Hin.
  destruct (make_recommendations_for_id_titles _ _ _ _ _ Hok Hrun)
    as [-> | (rr & seen & prefs & _ & _ & Hp & ->)]; [contradiction|].
  apply (proj1 (proj2 (fold_set_add _ [] (NoDup_nil _)))) in Hin
    as [[] | Hin].
  apply in_map_iff in Hin as ([title' rating] & Heq & Hin).
  cbn [fst] in Heq. subst title'.
  apply in_firstn in Hin. unfold sorted_candidates in Hin.
  apply (Permutation_in _ (py_sort_perm tuple_lt candidate_key _)) in Hin.
  apply in_candidates_of in Hin
    as (movie_id & genres & _ & _ & Hget & genre & Htop & Hg).
  exists prefs, movie_id, genres, genre.
  split; [assumption|]. split; [assumption|]. split; [assumption|].
  split; [|intros _; exact Htop].
  unfold top_genres in Htop. apply in_map_iff in Htop as (entry & <- & He).
  apply in_firstn in He.
  apply (Permutation_in _ (py_sort_perm tuple_lt preference_key _)) in He.
  unfold keys. now apply in_map.
Qed.

Lemma recommended_titles_match_top_genres_witness :
  exists recipient_prefs movie_id genres genre,
    get (all_user_preferences example_recommender) 10 = Some recipient_prefs /\
    get (movie_info example_recommender) movie_id
      = Some ("C"%string, genres) /\
    In genre genres /\
    In genre (keys recipient_prefs) /\
    (no_nan (values recipient_prefs) ->
     In genre (top_genres recipient_prefs)).
Proof.
  apply (recommended_titles_match_top_genres set_and_list example_recommender
           20 10 ["C"%string] set_and_list_ok).
  - vm_compute. reflexivity.
  - now left.
Defined.

(** X14: where no value of the recipient's profile is nan and at most five
    movies qualify, every one of them is recommended, whatever the ratings of
    the recommender are (nan included). *)
Theorem few_candidates_all_recommended set_and (self : MovieRecommender)
    (recommender_id recipient_id : Z)
    (recommender_ratings recipient_seen : ratings) (recipient_prefs : profile) :
  set_and_ok set_and ->
  get (all_user_ratings self) recommender_id = Some recommender_ratings ->
  get (all_user_ratings self) recipient_id = Some recipient_seen ->
  get (all_user_preferences self) recipient_id = Some recipient_prefs ->
  recipient_prefs <> [] ->
  no_nan (values recipient_prefs) ->
  (List.length (candidates_of (movie_info self) recommender_ratings
                  recipient_seen (top_genres recipient_prefs)) <= 5)%nat ->
  exists result,
    make_recommendations_for_id set_and self recommender_id recipient_id
      = Ok result /\
    forall title,
      In title result <->
      exists movie_id rating genres genre,
        In (movie_id, rating) recommender_ratings /\
        mem recipient_seen movie_id = false /\
        get (movie_info self) movie_id = Some (title, genres) /\
        In genre (top_genres recipient_prefs) /\
        In genre genres.
Proof.
  intros Hok Hr Hs Hp Hne _ Hfew.
  rewrite (make_recommendations_for_id_unfold set_and self _ _ _ _ _
             Hok Hr Hs Hp Hne).
  eexists. split; [reflexivity|]. intros title.
  rewrite (proj1 (proj2 (fold_set_add _ [] (NoDup_nil _)))).
  change (map fst (firstn 2 (py_sort tuple_lt candidate_key recipient_prefs)))
    with (top_genres recipient_prefs).
  set (cands := candidates_of (movie_info self) recommender_ratings
                  recipient_seen (top_genres recipient_prefs)) in *.
  pose proof (py_sort_perm tuple_lt candidate_key cands) as Hperm.
  rewrite firstn_all2
    by (rewrite (Permutation_length Hperm); exact Hfew).
  split.
  - intros [[] | Hin].
    apply in_map_iff in Hin as ([title' rating] & Heq & Hin).
    cbn [fst] in Heq. subst title'.
    apply (Permutation_in _ Hperm) in Hin.
    apply in_candidates_of in Hin
      as (movie_id & genres & Hrated & Hunseen & Hget & genre & Htop & Hg).
    now exists movie_id, rating, genres, genre.
  - intros (movie_id & rating & genres & genre & Hrated & Hunseen & Hget
            & Htop & Hg).
    right. apply in_map_iff. exists (title, rating). split; [reflexivity|].
    apply (Permutation_in _ (Permutation_sym Hperm)).
    apply in_candidates_of. exists movie_id, genres.
    repeat split; try assumption. now exists genre.
Qed.

Lemma few_candidates_all_recommended_witness :
  exists result,
    make_recommendations_for_id set_and_list example_recommender 20 10
      = Ok result /\
    forall title,
      In title result <->
      exists movie_id rating genres genre,
        In (movie_id, rating) [(3, lit 4)] /\
        mem [(1, lit 5); (2, lit 1)] movie_id = false /\
        get (movie_info example_recommender) movie_id = Some (title, genres) /\
        In genre
           (top_genres [("Drama"%string, lit 5); ("Comedy"%string, lit 1)]) /\
        In genre genres.
Proof.
  apply few_candidates_all_recommended.
  - exact set_and_list_ok.
  - reflexivity.
  - reflexivity.
  - reflexivity.
  - discriminate.
  - repeat constructor.
  - vm_compute. lia.
Defined.

(* ================================================================= *)
(** ** Reading the JSON files *)

Section ReadFromJsonFacts.

Context {L : Type}.
Variable int_of_str : string -> result Z.

(** The comprehension, from any dictionary built so far. *)
Lemma int_keys_loop {V : Type} (d : dict string V) : forall acc acc',
  for_each
    (fun acc (item : string * V) =>
       k <- int_of_str (fst item) ;;
       Ok (set acc k (snd item)))
    d acc = Ok acc' ->
  (wf acc -> wf acc') /\
  (forall n,
      get acc' n =
      match last_value int_of_str d n with
      | Some v => Some v
      | None => get acc n
      end).
Proof.
  induction d as [|[k v] d IH]; intros acc acc' Hrun.
  - injection Hrun as <-. split; [auto|reflexivity].
  - cbn [for_each fst snd] in Hrun.
    destruct (int_of_str k) as [m|e] eqn:Ek; cbn [bind] in Hrun;
      [|discriminate].
    apply IH in Hrun as [Hwf Hget]. split.
    + intros Hacc. apply Hwf. now apply wf_set.
    + intros n. rewrite Hget. cbn [last_value]. rewrite Ek.
      destruct (last_value int_of_str d n); [reflexivity|].
      destruct (Z.eqb_spec m n) as [->|Hne].
      * apply get_set_same.
      * now apply get_set_other.
Qed.

Lemma int_keys_lookup {V : Type} (d : dict string V) (d' : dict Z V) :
  int_keys int_of_str d = Ok d' ->
  wf d' /\ forall n, get d' n = last_value int_of_str d n.
Proof.
  intros Hrun. apply int_keys_loop in Hrun as [Hwf Hget].
  split; [apply Hwf; constructor|].
  intros n. rewrite Hget. now destruct (last_value int_of_str d n).
Qed.

Lemma int_keys_loop_returns {V : Type} (d : dict string V) : forall acc,
  (forall k, In k (keys d) -> denotes_int int_of_str k) ->
  exists acc',
    for_each
      (fun acc (item : string * V) =>
         k <- int_of_str (fst item) ;;
         Ok (set acc k (snd item)))
      d acc = Ok acc'.
Proof.
  induction d as [|[k v] d IH]; intros acc Hall; [now exists acc|].
  cbn [for_each fst snd].
  destruct (Hall k (or_introl eq_refl)) as [m ->]. cbn [bind].
  apply IH. intros k' Hin. apply Hall. now right.
Qed.

Lemma int_keys_loop_raises {V : Type} (d : dict string V) : forall acc e,
  for_each
    (fun acc (item : string * V) =>
       k <- int_of_str (fst item) ;;
       Ok (set acc k (snd item)))
    d acc = Raise e ->
  exists k, In k (keys d) /\ int_of_str k = Raise e.
Proof.
  induction d as [|[k v] d IH]; intros acc e Hrun; [discriminate|].
  cbn [for_each fst snd] in Hrun.
  destruct (int_of_str k) as [m|e'] eqn:Ek; cbn [bind] in Hrun.
  - apply IH in Hrun as (k' & Hin & Hk'). exists k'. split; [now right|easy].
  - injection Hrun as ->. exists k. split; [now left|easy].
Qed.

Lemma int_keys_returns {V : Type} (d : dict string V) :
  (exists d', int_keys int_of_str d = Ok d') <->
  (forall k, In k (keys d) -> denotes_int int_of_str k).
Proof.
  split.
  - intros [d' Hrun] k Hin. unfold int_keys in Hrun.
    destruct (int_of_str k) as [n|e] eqn:Ek; [now exists n|]. exfalso.
    revert Hrun. generalize (@nil (Z * V)).
    induction d as [|[k' v] d IH]; intros acc Hrun; [contradiction|].
    cbn [for_each fst snd] in Hrun.
    destruct Hin as [E | Hin].
    + cbn [fst] in E. subst k'. rewrite Ek in Hrun. discriminate.
    + destruct (int_of_str k'); cbn [bind] in Hrun; [|discriminate].
      now apply (IH Hin _ Hrun).
  - intros Hall. now apply int_keys_loop_returns.
Qed.

(** Keys that denote pairwise distinct integers keep their order. *)
Lemma int_keys_loop_order {V : Type} (d : dict string V) : forall acc ns,
  map int_of_str (keys d) = map Ok ns ->
  NoDup (keys acc ++ ns) ->
  for_each
    (fun acc (item : string * V) =>
       k <- int_of_str (fst item) ;;
       Ok (set acc k (snd item)))
    d acc = Ok (acc ++ combine ns (values d)).
Proof.
  induction d as [|[k v] d IH]; intros acc ns Hns Hnd.
  - destruct ns; [|discriminate]. cbn. now rewrite app_nil_r.
  - destruct ns as [|n ns]; [discriminate|].
    cbn [keys values map fst snd] in Hns. injection Hns as Hk Hns.
    cbn [for_each fst snd]. rewrite Hk. cbn [bind].
    rewrite set_absent.
    + rewrite (IH _ ns Hns).
      * cbn [values map snd combine]. now rewrite <- app_assoc.
      * unfold keys. rewrite map_app. cbn [map fst]. now rewrite <- app_assoc.
    + apply NoDup_remove_2 in Hnd. intros Hin. apply Hnd.
      apply in_or_app. now left.
Qed.

Lemma int_keys_order {V : Type} (d : dict string V) (ns : list Z) :
  map int_of_str (keys d) = map Ok ns -> NoDup ns ->
  int_keys int_of_str d = Ok (combine ns (values d)).
Proof. intros Hns Hnd. now apply (int_keys_loop_order d [] ns). Qed.

Lemma convert_value_spec (dictionary dictionary' : dict Z (converted L)) key :
  convert_value int_of_str dictionary key = Ok dictionary' ->
  exists v v',
    get dictionary key = Some v /\ conversion int_of_str v v' /\
    dictionary' = set dictionary key v'.
Proof.
  unfold convert_value, subscript. intros Hrun.
  destruct (get dictionary key) as [v|] eqn:Hget; cbn [bind] in Hrun;
    [|discriminate].
  exists v. destruct v as [[d|x]|d].
  - destruct (int_keys int_of_str d) as [inner|e] eqn:Ei; cbn [bind] in Hrun;
      [|discriminate].
    injection Hrun as <-. exists (IntKeyed inner). repeat split.
    now exists inner.
  - injection Hrun as <-. exists (AsLoaded (JsonOther x)). repeat split.
    symmetry. now apply set_present.
  - injection Hrun as <-. now exists (IntKeyed (update [] d)).
Qed.

(** The loop over the keys [ks] of the dictionary. *)
Lemma convert_loop (ks : list Z) :
  forall (dictionary dictionary' : dict Z (converted L)),
  NoDup ks ->
  for_each (convert_value int_of_str) ks dictionary = Ok dictionary' ->
  keys dictionary' = keys dictionary /\
  forall n,
    if in_dec Z.eq_dec n ks then
      exists v v',
        get dictionary n = Some v /\ conversion int_of_str v v' /\
        get dictionary' n = Some v'
    else get dictionary' n = get dictionary n.
Proof.
  induction ks as [|key ks IH]; intros dictionary dictionary' Hnd Hrun.
  - injection Hrun as <-. split; [reflexivity|]. intros n. reflexivity.
  - cbn [for_each] in Hrun.
    destruct (convert_value int_of_str dictionary key) as [d1|e] eqn:E1;
      cbn [bind] in Hrun; [|discriminate].
    apply convert_value_spec in E1 as (v & v' & Hget & Hconv & ->).
    inversion Hnd as [|? ? Hnotin Hnd']; subst.
    apply (IH _ _ Hnd') in Hrun as [Hkeys Hall]. split.
    + rewrite Hkeys, keys_set. unfold mem. now rewrite Hget.
    + intros n. specialize (Hall n).
      destruct (in_dec Z.eq_dec n (key :: ks)) as [Hin | Hout].
      * destruct (in_dec Z.eq_dec n ks) as [Hin' | Hout'].
        -- destruct Hall as (w & w' & Hw & Hc & Hw').
           assert (Hne : key <> n) by (intros ->; contradiction).
           rewrite get_set_other in Hw by exact Hne. now exists w, w'.
        -- destruct Hin as [-> | Hin]; [|contradiction].
           exists v, v'. rewrite Hall, get_set_same. now repeat split.
      * destruct (in_dec Z.eq_dec n ks) as [Hin' | Hout'].
        -- exfalso. apply Hout. now right.
        -- rewrite Hall. apply get_set_other. intros ->. apply Hout. now left.
Qed.

Lemma convert_loop_returns (ks : list Z) :
  forall (dictionary : dict Z (converted L)),
  NoDup ks ->
  (forall key, In key ks ->
     exists v v', get dictionary key = Some v /\ conversion int_of_str v v') ->
  exists dictionary',
    for_each (convert_value int_of_str) ks dictionary = Ok dictionary'.
Proof.
  induction ks as [|key ks IH]; intros dictionary Hnd Hall;
    [now exists dictionary|].
  cbn [for_each].
  inversion Hnd as [|? ? Hnotin Hnd']; subst.
  destruct (Hall key (or_introl eq_refl)) as (v & v' & Hget & Hconv).
  assert (E : convert_value int_of_str dictionary key
              = Ok (set dictionary key v')).
  { unfold convert_value, subscript. rewrite Hget. cbn [bind].
    destruct v as [[d|x]|d]; cbn [conversion] in Hconv.
    - destruct Hconv as (inner & -> & ->). reflexivity.
    - subst v'. now rewrite set_present.
    - now subst v'. }
  rewrite E. cbn [bind]. apply (IH _ Hnd').
  intros key' Hin. destruct (Hall key' (or_intror Hin))
    as (w & w' & Hw & Hc).
  exists w, w'. split; [|exact Hc].
  rewrite get_set_other; [exact Hw|]. intros ->. contradiction.
Qed.

Lemma convert_loop_raises (ks : list Z) :
  forall (dictionary : dict Z (converted L)) e,
  (forall key, In key ks -> In key (keys dictionary)) ->
  for_each (convert_value int_of_str) ks dictionary = Raise e ->
  exists k, int_of_str k = Raise e.
Proof.
  induction ks as [|key ks IH]; intros dictionary e Hks Hrun; [discriminate|].
  cbn [for_each] in Hrun.
  destruct (convert_value int_of_str dictionary key) as [d1|e1] eqn:E1;
    cbn [bind] in Hrun.
  - apply (IH d1 e); [|exact Hrun].
    apply convert_value_spec in E1 as (v & v' & Hget & _ & ->).
    intros key' Hin. rewrite keys_set. unfold mem. rewrite Hget.
    apply Hks. now right.
  - injection Hrun as ->.
    unfold convert_value, subscript in E1.
    destruct (get dictionary key) as [[[d|x]|d]|] eqn:Hget;
      cbn [bind] in E1; try discriminate.
    + destruct (int_keys int_of_str d) as [inner|e2] eqn:E2;
        cbn [bind] in E1; [discriminate|].
      injection E1 as ->.
      apply int_keys_loop_raises in E2 as (k & _ & Hk). now exists k.
    + exfalso. apply get_None_keys in Hget. apply Hget, Hks. now left.
Qed.

Lemma last_value_map {V W : Type} (f : V -> W) (d : dict string V) n :
  last_value int_of_str (map (fun item => (fst item, f (snd item))) d) n
  = option_map f (last_value int_of_str d n).
Proof.
  induction d as [|[k v] d IH]; [reflexivity|].
  cbn [map fst snd last_value]. rewrite IH.
  destruct (last_value int_of_str d n); [reflexivity|].
  destruct (int_of_str k) as [m|]; [|reflexivity].
  now destruct (m =? n).
Qed.

Lemma keys_map_values {K V W : Type} (f : V -> W) (d : list (K * V)) :
  keys (map (fun item => (fst item, f (snd item))) d) = keys d.
Proof. unfold keys. rewrite map_map. reflexivity. Qed.

(** X16: the dictionary that [read_from_json] returns holds each integer once,
    with the value of the last key of the file that denotes it; an inner
    dictionary has its keys converted in the same way, every other value is
    as loaded. *)
Theorem read_from_json_lookup (loaded : dict string (json L))
    (dictionary : dict Z (converted L)) :
  read_from_json int_of_str loaded = Ok dictionary ->
  wf dictionary /\
  forall n,
    match last_value int_of_str loaded n with
    | None => get dictionary n = None
    | Some (JsonOther x) => get dictionary n = Some (AsLoaded (JsonOther x))
    | Some (JsonDict d) =>
        exists inner,
          get dictionary n = Some (IntKeyed inner) /\
          wf inner /\
          forall m, get inner m = last_value int_of_str d m
    end.
Proof.
  unfold read_from_json. intros Hrun.
  destruct (int_keys int_of_str
              (map (fun item => (fst item, AsLoaded (snd item))) loaded))
    as [d0|e] eqn:E0; cbn [bind] in Hrun; [|discriminate].
  apply int_keys_lookup in E0 as [Hwf0 Hget0].
  apply convert_loop in Hrun as [Hkeys Hall]; [|exact Hwf0].
  split; [unfold wf; now rewrite Hkeys|].
  intros n. specialize (Hall n). specialize (Hget0 n).
  rewrite last_value_map in Hget0.
  destruct (in_dec Z.eq_dec n (keys d0)) as [Hin | Hout].
  - destruct Hall as (v & v' & Hv & Hconv & Hv').
    rewrite Hv in Hget0.
    destruct (last_value int_of_str loaded n) as [w|]; [|discriminate].
    injection Hget0 as ->. destruct w as [d|x]; cbn [conversion] in Hconv.
    + destruct Hconv as (inner & Hinner & ->). exists inner.
      split; [exact Hv'|]. now apply int_keys_lookup.
    + now subst v'.
  - rewrite Hall. apply get_None_keys in Hout. rewrite Hout in Hget0.
    destruct (last_value int_of_str loaded n); [discriminate|exact Hout].
Qed.

(** X17: [read_from_json] returns exactly when every key of the file denotes
    an integer and so does every key of every inner dictionary that is not
    replaced by a later entry for the same integer; it raises nothing but
    what [int] raises on one of the keys. *)
Theorem read_from_json_returns (loaded : dict string (json L)) :
  ((exists dictionary, read_from_json int_of_str loaded = Ok dictionary) <->
   (forall k, In k (keys loaded) -> denotes_int int_of_str k) /\
   (forall n d k,
       last_value int_of_str loaded n = Some (JsonDict d) ->
       In k (keys d) -> denotes_int int_of_str k)) /\
  (forall e,
      read_from_json int_of_str loaded = Raise e ->
      exists k, int_of_str k = Raise e).
Proof.
  unfold read_from_json.
  set (lifted := map (fun item => (fst item, AsLoaded (snd item))) loaded).
  assert (Hkeys : keys lifted = keys loaded) by apply keys_map_values.
  split; [split|].
  - intros [dictionary Hrun].
    destruct (int_keys int_of_str lifted) as [d0|e] eqn:E0;
      cbn [bind] in Hrun; [|discriminate].
    split.
    + rewrite <- Hkeys. apply int_keys_returns. now exists d0.
    + intros n d k Hlast Hin.
      apply int_keys_lookup in E0 as [Hwf0 Hget0].
      apply convert_loop in Hrun as [_ Hall]; [|exact Hwf0].
      specialize (Hall n). specialize (Hget0 n).
      unfold lifted in Hget0. rewrite last_value_map, Hlast in Hget0.
      cbn [option_map] in Hget0.
      destruct (in_dec Z.eq_dec n (keys d0)) as [_ | Hout].
      * destruct Hall as (v & v' & Hv & Hconv & _).
        rewrite Hv in Hget0. injection Hget0 as ->.
        destruct Hconv as (inner & Hinner & _).
        apply (proj1 (int_keys_returns d)); [|exact Hin].
        now exists inner.
      * apply get_None_keys in Hout. congruence.
  - intros [Houter Hinner].
    destruct (proj2 (int_keys_returns lifted)) as [d0 E0];
      [now rewrite Hkeys|].
    rewrite E0. cbn [bind].
    pose proof (int_keys_lookup _ _ E0) as [Hwf0 Hget0].
    apply convert_loop_returns; [exact Hwf0|].
    intros key Hin. specialize (Hget0 key).
    unfold lifted in Hget0. rewrite last_value_map in Hget0.
    destruct (get d0 key) as [v|] eqn:Hv;
      [|apply get_None_keys in Hv; contradiction].
    destruct (last_value int_of_str loaded key) as [w|] eqn:Hw;
      [|discriminate].
    injection Hget0 as ->. exists (AsLoaded w).
    destruct w as [d|x].
    + destruct (proj2 (int_keys_returns d)) as [inner Hi].
      * intros k Hk. now apply (Hinner key d k).
      * exists (IntKeyed inner). split; [reflexivity|]. now exists inner.
    + now exists (AsLoaded (JsonOther x)).
  - intros e Hrun.
    destruct (int_keys int_of_str lifted) as [d0|e0] eqn:E0;
      cbn [bind] in Hrun.
    + apply convert_loop_raises in Hrun; [exact Hrun|]. now intros key Hin.
    + injection Hrun as ->.
      apply int_keys_loop_raises in E0 as (k & _ & Hk). now exists k.
Qed.

Lemma in_combine_keys {V W : Type} (f : V -> W) (d : dict string V) :
  forall ns k v,
    map int_of_str (keys d) = map Ok ns ->
    In (k, v) d ->
    exists n,
      int_of_str k = Ok n /\
      In (n, f v)
         (combine ns (values (map (fun item => (fst item, f (snd item))) d))).
Proof.
  induction d as [|[k0 v0] d IH]; intros ns k v Hns Hin; [contradiction|].
  destruct ns as [|n0 ns]; [discriminate|].
  cbn [keys values map fst snd] in Hns. injection Hns as Hk Hns.
  cbn [values map fst snd combine].
  destruct Hin as [[= -> ->] | Hin].
  - exists n0. split; [exact Hk|now left].
  - destruct (IH ns k v Hns Hin) as (n & Hn & Hin'). exists n.
    split; [exact Hn|now right].
Qed.

Lemma keys_combine {V : Type} (ns : list Z) (vs : list V) :
  List.length ns = List.length vs -> keys (combine ns vs) = ns.
Proof.
  revert vs. induction ns as [|n ns IH]; intros [|v vs] Hlen;
    try discriminate; [reflexivity|].
  cbn [combine keys map fst]. f_equal. apply IH. now injection Hlen.
Qed.

(** X18: where the keys of the file denote pairwise distinct integers, the
    dictionary has them in the order of the file, and so has every inner
    dictionary whose keys denote pairwise distinct integers. *)
Theorem read_from_json_keeps_order (loaded : dict string (json L))
    (dictionary : dict Z (converted L)) (ns : list Z) :
  read_from_json int_of_str loaded = Ok dictionary ->
  map int_of_str (keys loaded) = map Ok ns ->
  NoDup ns ->
  keys dictionary = ns /\
  forall k d ms,
    In (k, JsonDict d) loaded ->
    map int_of_str (keys d) = map Ok ms ->
    NoDup ms ->
    exists n,
      int_of_str k = Ok n /\
      get dictionary n = Some (IntKeyed (combine ms (values d))).
Proof.
  unfold read_from_json. intros Hrun Hns Hnd.
  set (lifted := map (fun item => (fst item, AsLoaded (snd item))) loaded)
    in *.
  assert (Hkeys : keys lifted = keys loaded) by apply keys_map_values.
  rewrite (int_keys_order lifted ns) in Hrun;
    [|rewrite Hkeys; exact Hns|exact Hnd].
  cbn [bind] in Hrun.
  assert (Hk0 : keys (combine ns (values lifted)) = ns).
  { apply keys_combine. unfold values. rewrite length_map.
    apply (f_equal (@List.length _)) in Hns.
    rewrite !length_map in Hns. rewrite <- Hns, <- Hkeys.
    unfold keys. now rewrite length_map. }
  apply convert_loop in Hrun as [Hkd Hall]; [|now rewrite Hk0].
  split; [now rewrite Hkd|].
  intros k d ms Hin Hms Hndm.
  destruct (in_combine_keys AsLoaded loaded ns k (JsonDict d) Hns Hin)
    as (n & Hn & Hin0).
  exists n. split; [exact Hn|]. fold lifted in Hin0.
  apply In_get in Hin0; [|unfold wf; now rewrite Hk0].
  specialize (Hall n).
  destruct (in_dec Z.eq_dec n (keys (combine ns (values lifted))))
    as [_ | Hout].
  - destruct Hall as (v & v' & Hv & Hconv & Hv').
    rewrite Hin0 in Hv. injection Hv as <-.
    destruct Hconv as (inner & Hinner & ->).
    rewrite (int_keys_order d ms Hms Hndm) in Hinner.
    injection Hinner as <-. exact Hv'.
  - exfalso. apply Hout. apply get_In in Hin0.
    now apply (in_map fst) in Hin0.
Qed.

End ReadFromJsonFacts.

Lemma read_from_json_lookup_witness :
  wf [(1, IntKeyed [(12, lit 4)]); (2, AsLoaded (JsonOther (lit 0)))] /\
  forall n,
    match last_value int_of_digits example_loaded n with
    | None =>
        get [(1, IntKeyed [(12, lit 4)]); (2, AsLoaded (JsonOther (lit 0)))] n
        = None
    | Some (JsonOther x) =>
        get [(1, IntKeyed [(12, lit 4)]); (2, AsLoaded (JsonOther (lit 0)))] n
        = Some (AsLoaded (JsonOther x))
    | Some (JsonDict d) =>
        exists inner,
          get [(1, IntKeyed [(12, lit 4)]); (2, AsLoaded (JsonOther (lit 0)))]
              n
          = Some (IntKeyed inner) /\
          wf inner /\
          forall m, get inner m = last_value int_of_digits d m
    end.
Proof.
  apply (read_from_json_lookup int_of_digits example_loaded).
  vm_compute. reflexivity.
Defined.

Lemma read_from_json_returns_witness :
  exists k, int_of_digits k = Raise ValueError.
Proof.
  apply (proj2 (read_from_json_returns int_of_digits example_loaded_bad)).
  vm_compute. reflexivity.
Defined.

Lemma read_from_json_keeps_order_witness :
  keys [(10, IntKeyed [(1, lit 5); (2, lit 1)]); (20, IntKeyed [(3, lit 4)])]
    = [10; 20] /\
  forall k d ms,
    In (k, JsonDict d) example_loaded_ratings ->
    map int_of_digits (keys d) = map Ok ms ->
    NoDup ms ->
    exists n,
      int_of_digits k = Ok n /\
      get [(10, IntKeyed [(1, lit 5); (2, lit 1)]);
           (20, IntKeyed [(3, lit 4)])] n
      = Some (IntKeyed (combine ms (values d))).
Proof.
  apply (read_from_json_keeps_order int_of_digits example_loaded_ratings).
  - vm_compute. reflexivity.
  - reflexivity.
  - repeat constructor; cbn; intuition discriminate.
Defined.

(* ================================================================= *)
(** ** The scraper: titles and genres *)

Lemma prefix_append (sep rest : string) : prefix sep (sep ++ rest) = true.
Proof.
  induction sep as [|c sep IH]; [now destruct rest|].
  cbn [append prefix]. destruct (ascii_dec c c); [exact IH|congruence].
Qed.

Lemma prefix_occurs (sep s : string) :
  prefix sep s = true -> exists rest, s = (sep ++ rest)%string.
Proof.
  revert s. induction sep as [|c sep IH]; intros s Hp.
  - now exists s.
  - destruct s as [|c' s]; [discriminate|]. cbn [prefix] in Hp.
    destruct (ascii_dec c c') as [<-|]; [|discriminate].
    destruct (IH s Hp) as [rest ->]. now exists rest.
Qed.

(** [before_last] finds an occurrence, and finds one wherever there is
    one. *)
Lemma before_last_occurs (sep s head : string) :
  before_last sep s = Some head ->
  exists rest, s = (head ++ sep ++ rest)%string.
Proof.
  revert head. induction s as [|c s IH]; intros head Hb; [discriminate|].
  cbn [before_last] in Hb.
  destruct (before_last sep s) as [h|] eqn:E.
  - injection Hb as <-. destruct (IH h eq_refl) as [rest ->].
    now exists rest.
  - destruct (prefix sep (String c s)) eqn:Ep; [|discriminate].
    injection Hb as <-. now apply prefix_occurs.
Qed.

Lemma before_last_none (sep s : string) :
  sep <> EmptyString -> before_last sep s = None -> ~ occurs sep s.
Proof.
  intros Hsep Hb (before & after & ->).
  induction before as [|c before IH].
  - cbn [append] in Hb.
    destruct sep as [|c sep]; [congruence|]. cbn [append before_last] in Hb.
    destruct (before_last (String c sep) (sep ++ after)); [discriminate|].
    change (String c (sep ++ after)) with (String c sep ++ after)%string in Hb.
    now rewrite prefix_append in Hb.
  - cbn [append before_last] in Hb.
    destruct (before_last sep (before ++ sep ++ after)); [discriminate|].
    now apply IH.
Qed.

(** The last occurrence: nothing of [" ("] after it. *)
Lemma before_last_cut (head rest : string) :
  ~ occurs " (" rest ->
  before_last " (" (head ++ " (" ++ rest) = Some head.
Proof.
  intros Hrest.
  assert (Hnone : before_last " (" rest = None).
  { destruct (before_last " (" rest) as [h|] eqn:E; [|reflexivity].
    exfalso. apply Hrest. apply before_last_occurs in E as [r ->].
    now exists h, r. }
  induction head as [|c head IH].
  - cbn [append before_last]. rewrite Hnone. cbn.
    now destruct rest.
  - cbn [append before_last]. cbn [append] in IH. now rewrite IH.
Qed.

Section ScraperStrings.

Variable strip : string -> string.

(** X19: the title of a row is the text of its cell up to the last [" ("],
    stripped: only the last parenthesis goes, and a text without [" ("] is
    kept whole. *)
Theorem title_of_drops_last_parenthesis (raw_title : string) :
  (forall head rest,
      raw_title = (head ++ " (" ++ rest)%string -> ~ occurs " (" rest ->
      title_of strip raw_title = strip head) /\
  (~ occurs " (" raw_title -> title_of strip raw_title = strip raw_title).
Proof.
  unfold title_of, rsplit_first. split.
  - intros head rest -> Hrest. now rewrite before_last_cut.
  - intros Hnone.
    destruct (before_last " (" raw_title) as [h|] eqn:E; [|reflexivity].
    exfalso. apply Hnone. apply before_last_occurs in E as [r ->].
    now exists h, r.
Qed.

(** [split_on] undoes [concat]. *)
Lemma split_on_comma_free (s : string) :
  comma_free s -> split_on "," s = [s].
Proof.
  unfold comma_free. induction s as [|a s IH]; intros Hfree; [reflexivity|].
  cbn [split_on list_ascii_of_string] in *.
  destruct (Ascii.eqb_spec a ","%char) as [->|Hne].
  - exfalso. apply Hfree. now left.
  - rewrite IH; [reflexivity|]. intros Hin. apply Hfree. now right.
Qed.

Lemma split_on_append (s rest : string) :
  comma_free s ->
  split_on "," (s ++ String "," rest) = s :: split_on "," rest.
Proof.
  unfold comma_free. induction s as [|a s IH]; intros Hfree.
  - reflexivity.
  - cbn [append split_on list_ascii_of_string] in *.
    destruct (Ascii.eqb_spec a ","%char) as [->|Hne].
    + exfalso. apply Hfree. now left.
    + rewrite IH; [reflexivity|]. intros Hin. apply Hfree. now right.
Qed.

Lemma split_on_concat (pieces : list string) :
  pieces <> [] -> Forall comma_free pieces ->
  split_on "," (String.concat "," pieces) = pieces.
Proof.
  induction pieces as [|p pieces IH]; intros Hne Hfree; [congruence|].
  inversion Hfree as [|? ? Hp Hrest]; subst.
  destruct pieces as [|q pieces].
  - cbn [String.concat]. now apply split_on_comma_free.
  - cbn [String.concat]. cbn [append].
    rewrite split_on_append by exact Hp.
    f_equal. apply IH; [discriminate|exact Hrest].
Qed.

Lemma split_on_not_empty (c : ascii) (s : string) : split_on c s <> [].
Proof.
  induction s as [|a s IH]; [discriminate|]. cbn [split_on].
  destruct (Ascii.eqb a c); [discriminate|].
  now destruct (split_on c s).
Qed.

(** X20: the genres of a row are the pieces between the commas of the
    stripped text of its cell, each stripped; there is always at least
    one, also for an empty cell. *)
Theorem genres_of_pieces (cell : string) :
  genres_of strip cell <> [] /\
  forall pieces,
    pieces <> [] -> Forall comma_free pieces ->
    strip cell = String.concat "," pieces ->
    genres_of strip cell = map strip pieces.
Proof.
  unfold genres_of. split.
  - intros Hnil. apply map_eq_nil in Hnil. now apply split_on_not_empty in Hnil.
  - intros pieces Hne Hfree ->. now rewrite split_on_concat.
Qed.

End ScraperStrings.

Lemma title_of_drops_last_parenthesis_witness :
  title_of strip_blanks "Brazil (a.k.a. 1984 1/2) (1985)"
  = strip_blanks "Brazil (a.k.a. 1984 1/2)".
Proof.
  apply (proj1 (title_of_drops_last_parenthesis strip_blanks
                  "Brazil (a.k.a. 1984 1/2) (1985)")
           "Brazil (a.k.a. 1984 1/2)"%string "1985)"%string).
  - reflexivity.
  - apply before_last_none; [discriminate|reflexivity].
Defined.

Lemma genres_of_pieces_witness :
  genres_of strip_blanks "Action, Crime" = ["Action"; "Crime"]%string.
Proof.
  apply (proj2 (genres_of_pieces strip_blanks "Action, Crime")
           ["Action"; " Crime"]%string).
  - discriminate.
  - repeat constructor; unfold comma_free; cbn; intuition discriminate.
  - reflexivity.
Defined.

(* ================================================================= *)
(** ** The scraper: ratings *)

Lemma get_app {K V} `{Key K} (d1 d2 : dict K V) (k : K) :
  get (d1 ++ d2) k =
  match get d1 k with
  | Some v => Some v
  | None => get d2 k
  end.
Proof.
  induction d1 as [|[k' v'] d1 IH]; [reflexivity|].
  cbn [app get]. now destruct (keyb k' k).
Qed.

Lemma last_rating_cons (rows : list (Z * float)) (u : Z) (r : float) (u' : Z) :
  last_rating ((u, r) :: rows) u' =
  match last_rating rows u' with
  | Some x => Some x
  | None => if u =? u' then Some r else None
  end.
Proof. unfold last_rating. cbn [rev]. now rewrite get_app. Qed.

Lemma store_rating_spec (user_data : dict Z ratings) (u m : Z) (r : float) :
  exists user_data',
    store_rating user_data u m r = Some user_data' /\
    (tidy user_data -> tidy user_data') /\
    forall u' m',
      rating_of user_data' u' m' =
      if (u' =? u) && (m' =? m) then Some r else rating_of user_data u' m'.
Proof.
  unfold store_rating, mem.
  destruct (get user_data u) as [inner|] eqn:Hget.
  - rewrite Hget. cbn [and_then]. eexists. split; [reflexivity|]. split.
    + intros [Hwf Hin]. split; [now apply wf_set|].
      intros u' inner' Hget'.
      destruct (Z.eq_dec u u') as [<-|Hne].
      * rewrite get_set_same in Hget'. injection Hget' as <-.
        split; [apply wf_set; now apply (Hin u)|].
        destruct inner as [|[k v] inner]; cbn [set]; [discriminate|].
        destruct (keyb k m); discriminate.
      * rewrite get_set_other in Hget' by exact Hne. now apply (Hin u').
    + intros u' m'. unfold rating_of.
      destruct (Z.eqb_spec u' u) as [->|Hne]; cbn [andb].
      * rewrite get_set_same, Hget.
        destruct (Z.eqb_spec m' m) as [->|Hnm].
        -- apply get_set_same.
        -- apply get_set_other. congruence.
      * rewrite get_set_other by congruence. reflexivity.
  - rewrite get_set_same. cbn [and_then]. eexists. split; [reflexivity|].
    split.
    + intros [Hwf Hin]. split; [now apply wf_set, wf_set|].
      intros u' inner' Hget'.
      destruct (Z.eq_dec u u') as [<-|Hne].
      * rewrite get_set_same in Hget'. injection Hget' as <-.
        split; [|discriminate]. repeat constructor. intros [].
      * rewrite !get_set_other in Hget' by exact Hne. now apply (Hin u').
    + intros u' m'. unfold rating_of.
      destruct (Z.eqb_spec u' u) as [->|Hne]; cbn [andb].
      * rewrite get_set_same, Hget. cbn [set get].
        change (keyb m m') with (m =? m'). rewrite (Z.eqb_sym m m').
        now destruct (m' =? m).
      * rewrite !get_set_other by congruence. reflexivity.
Qed.

Section ScraperRatings.

Variable fetch : string -> option page.
Variable strip : string -> string.
Variable to_int : string -> option Z.
Variable to_float : string -> option float.

Lemma rating_row_parsed (m : Z) (user_data : dict Z ratings) cells :
  rating_row strip to_int to_float m user_data cells =
  match rating_of_row strip to_int to_float cells with
  | Some (u, r) => store_rating user_data u m r
  | None => None
  end.
Proof.
  unfold rating_row, rating_of_row.
  destruct (nth_error cells 0) as [c0|]; cbn [and_then]; [|reflexivity].
  destruct (to_int (strip c0)) as [u|]; cbn [and_then]; [|reflexivity].
  destruct (nth_error cells 1) as [c1|]; cbn [and_then]; [|reflexivity].
  now destruct (to_float (strip c1)) as [r|].
Qed.

(** The loop over the rows of one page. *)
Lemma rating_rows_loop (m : Z) (rows : list (list string)) :
  forall user_data,
    match all_rows (rating_of_row strip to_int to_float) rows with
    | None =>
        for_each_row (rating_row strip to_int to_float m) rows user_data
        = None
    | Some parsed =>
        exists user_data',
          for_each_row (rating_row strip to_int to_float m) rows user_data
          = Some user_data' /\
          (tidy user_data -> tidy user_data') /\
          forall u' m',
            rating_of user_data' u' m' =
            if m' =? m then
              match last_rating parsed u' with
              | Some r => Some r
              | None => rating_of user_data u' m'
              end
            else rating_of user_data u' m'
    end.
Proof.
  induction rows as [|cells rows IH]; intros user_data.
  - cbn [all_rows for_each_row]. exists user_data.
    split; [reflexivity|]. split; [auto|].
    intros u' m'. unfold last_rating. cbn. now destruct (m' =? m).
  - cbn [all_rows for_each_row]. rewrite rating_row_parsed.
    destruct (rating_of_row strip to_int to_float cells) as [[u r]|];
      cbn [and_then]; [|reflexivity].
    destruct (store_rating_spec user_data u m r) as (ud1 & -> & Ht1 & Hr1).
    cbn [and_then]. specialize (IH ud1).
    destruct (all_rows (rating_of_row strip to_int to_float) rows)
      as [parsed|]; cbn [and_then]; [|exact IH].
    destruct IH as (ud' & Hrun & Ht & Hr). exists ud'.
    split; [exact Hrun|]. split; [auto|].
    intros u' m'. rewrite Hr, Hr1, last_rating_cons.
    destruct (Z.eqb_spec m' m) as [->|Hnm].
    + destruct (last_rating parsed u'); [reflexivity|].
      rewrite (Z.eqb_sym u u'). destruct (u' =? u); reflexivity.
    + now rewrite andb_false_r.
Qed.

Lemma scrape_movie_ratings_spec (slug : string) (user_data : dict Z ratings)
    (m : Z) :
  match page_ratings fetch strip to_int to_float slug m with
  | None =>
      scrape_movie_ratings fetch strip to_int to_float slug user_data m = None
  | Some parsed =>
      exists user_data',
        scrape_movie_ratings fetch strip to_int to_float slug user_data m
        = Some user_data' /\
        (tidy user_data -> tidy user_data') /\
        forall u' m',
          rating_of user_data' u' m' =
          if m' =? m then
            match last_rating parsed u' with
            | Some r => Some r
            | None => rating_of user_data u' m'
            end
          else rating_of user_data u' m'
  end.
Proof.
  unfold page_ratings, scrape_movie_ratings.
  destruct (fetch _) as [soup|]; cbn [and_then]; [|reflexivity].
  destruct (table soup) as [rows|]; cbn [and_then]; [|reflexivity].
  apply rating_rows_loop.
Qed.

(** The loop over the movies. *)
Lemma scrape_ratings_loop (slug : string) (movie_ids : list Z) :
  forall user_data,
    ((exists m,
         In m movie_ids /\
         page_ratings fetch strip to_int to_float slug m = None) ->
     for_each_row (scrape_movie_ratings fetch strip to_int to_float slug)
       movie_ids user_data = None) /\
    ((forall m,
         In m movie_ids ->
         page_ratings fetch strip to_int to_float slug m <> None) ->
     exists user_data',
       for_each_row (scrape_movie_ratings fetch strip to_int to_float slug)
         movie_ids user_data = Some user_data' /\
       (tidy user_data -> tidy user_data') /\
       forall u m,
         rating_of user_data' u m =
         if in_dec Z.eq_dec m movie_ids then
           match page_ratings fetch strip to_int to_float slug m with
           | Some parsed =>
               match last_rating parsed u with
               | Some r => Some r
               | None => rating_of user_data u m
               end
           | None => None
           end
         else rating_of user_data u m).
Proof.
  induction movie_ids as [|m0 movie_ids IH]; intros user_data.
  - split; [intros (m & [] & _)|]. intros _. exists user_data.
    split; [reflexivity|]. split; [auto|]. reflexivity.
  - cbn [for_each_row].
    pose proof (scrape_movie_ratings_spec slug user_data m0) as H0.
    destruct (page_ratings fetch strip to_int to_float slug m0)
      as [parsed0|] eqn:E0.
    + destruct H0 as (ud1 & -> & Ht1 & Hr1). cbn [and_then].
      destruct (IH ud1) as [IHfail IHok]. split.
      * intros (m & [<- | Hin] & Hnone); [congruence|].
        apply IHfail. now exists m.
      * intros Hall.
        destruct IHok as (ud' & Hrun & Ht & Hr).
        { intros m Hin. apply Hall. now right. }
        exists ud'. split; [exact Hrun|]. split; [auto|].
        intros u m. rewrite Hr, Hr1.
        destruct (in_dec Z.eq_dec m (m0 :: movie_ids)) as [Hin | Hout];
          destruct (in_dec Z.eq_dec m movie_ids) as [Hin' | Hout'].
        -- destruct (page_ratings fetch strip to_int to_float slug m)
             as [parsed|] eqn:E; [|reflexivity].
           destruct (last_rating parsed u) eqn:El; [reflexivity|].
           destruct (Z.eqb_spec m m0) as [->|Hne]; [|reflexivity].
           rewrite E0 in E. injection E as ->. now rewrite El.
        -- destruct Hin as [<- | Hin]; [|contradiction].
           now rewrite Z.eqb_refl, E0.
        -- exfalso. apply Hout. now right.
        -- destruct (Z.eqb_spec m m0) as [->|Hne]; [|reflexivity].
           exfalso. apply Hout. now left.
    + rewrite H0. cbn [and_then]. split; [reflexivity|].
      intros Hall. exfalso. now apply (Hall m0 (or_introl eq_refl)).
Qed.

Lemma pages_decided (slug : string) (movie_ids : list Z) :
  (exists m,
      In m movie_ids /\
      page_ratings fetch strip to_int to_float slug m = None) \/
  (forall m,
      In m movie_ids ->
      page_ratings fetch strip to_int to_float slug m <> None).
Proof.
  induction movie_ids as [|m0 movie_ids IH].
  - right. intros m [].
  - destruct (page_ratings fetch strip to_int to_float slug m0) eqn:E0.
    + destruct IH as [(m & Hin & Hm) | Hall].
      * left. exists m. split; [now right|exact Hm].
      * right. intros m [<- | Hin]; [congruence|now apply Hall].
    + left. exists m0. split; [now left|exact E0].
Qed.

(** X21: [scrape_ratings] raises exactly where the page of one of the movies
    cannot be fetched, has no table, or has a row, other than the first, that
    gives no user and rating. Where it returns, it has turned the pages
    round: the rating of a user for a movie is the one of the last row of
    the page of the movie that names the user, and there is none where the
    movie was not asked for or its page does not name the user; every user
    and, for a user, every movie is held once, and no user is left without
    a rating. *)
Theorem scrape_ratings_transposes (slug : string) (movie_ids : list Z) :
  match scrape_ratings fetch strip to_int to_float slug movie_ids with
  | Some user_data =>
      (forall movie_id,
          In movie_id movie_ids ->
          page_ratings fetch strip to_int to_float slug movie_id <> None) /\
      tidy user_data /\
      forall user_id movie_id,
        rating_of user_data user_id movie_id =
        if in_dec Z.eq_dec movie_id movie_ids then
          match page_ratings fetch strip to_int to_float slug movie_id with
          | Some parsed => last_rating parsed user_id
          | None => None
          end
        else None
  | None =>
      exists movie_id,
        In movie_id movie_ids /\
        page_ratings fetch strip to_int to_float slug movie_id = None
  end.
Proof.
  unfold scrape_ratings.
  destruct (scrape_ratings_loop slug movie_ids []) as [Hfail Hok].
  destruct (pages_decided slug movie_ids) as [Hbad | Hall].
  { now rewrite (Hfail Hbad). }
  destruct (Hok Hall) as (ud' & -> & Ht & Hr).
  split; [exact Hall|]. split.
  - apply Ht. split; [constructor|]. intros u inner Hget. discriminate.
  - intros u m. rewrite Hr.
    destruct (in_dec Z.eq_dec m movie_ids); [|reflexivity].
    destruct (page_ratings fetch strip to_int to_float slug m) as [parsed|];
      [|reflexivity].
    now destruct (last_rating parsed u).
Qed.

(** X22: the order in which the set of movies is gone over changes neither
    whether [scrape_ratings] returns nor any rating that it returns. *)
Theorem scrape_ratings_any_order (slug : string)
    (movie_ids movie_ids' : list Z) :
  (forall m, In m movie_ids <-> In m movie_ids') ->
  match scrape_ratings fetch strip to_int to_float slug movie_ids,
        scrape_ratings fetch strip to_int to_float slug movie_ids' with
  | Some user_data, Some user_data' =>
      forall user_id movie_id,
        rating_of user_data user_id movie_id
        = rating_of user_data' user_id movie_id
  | None, None => True
  | _, _ => False
  end.
Proof.
  intros Hsame. unfold scrape_ratings.
  destruct (scrape_ratings_loop slug movie_ids []) as [Hfail Hok].
  destruct (scrape_ratings_loop slug movie_ids' []) as [Hfail' Hok'].
  destruct (pages_decided slug movie_ids) as [(m & Hin & Hnone) | Hall].
  - rewrite Hfail by now exists m.
    rewrite Hfail'; [exact I|]. exists m. split; [now apply Hsame|exact Hnone].
  - destruct (Hok Hall) as (ud & -> & _ & Hr).
    destruct Hok' as (ud' & -> & _ & Hr').
    { intros m Hin. now apply Hall, Hsame. }
    intros u m. rewrite Hr, Hr'.
    destruct (in_dec Z.eq_dec m movie_ids) as [Hin | Hout];
      destruct (in_dec Z.eq_dec m movie_ids') as [Hin' | Hout'];
      try reflexivity.
    + exfalso. now apply Hout', Hsame.
    + exfalso. now apply Hout, Hsame.
Qed.

End ScraperRatings.

(** The example site: user 7 rated movie 1 twice, and the later rating
    stays. *)
Example scrape_ratings_example :
  scrape_ratings example_site strip_blanks digits_to_int float_of_digits
    "http://m/" [1; 2]
  = Some [(7, [(1, lit 5)]); (8, [(1, lit 2); (2, lit 3)])].
Proof. vm_compute. reflexivity. Qed.

Lemma scrape_ratings_any_order_witness :
  match scrape_ratings example_site strip_blanks digits_to_int float_of_digits
          "http://m/" [1; 2],
        scrape_ratings example_site strip_blanks digits_to_int float_of_digits
          "http://m/" [2; 1] with
  | Some user_data, Some user_data' =>
      forall user_id movie_id,
        rating_of user_data user_id movie_id
        = rating_of user_data' user_id movie_id
  | None, None => True
  | _, _ => False
  end.
Proof.
  apply scrape_ratings_any_order.
  intros m. cbn [In]. tauto.
Defined.

Lemma all_rows_app {A B : Type} (f : A -> option B) (l1 l2 : list A) :
  all_rows f (l1 ++ l2) =
  match all_rows f l1, all_rows f l2 with
  | Some b1, Some b2 => Some (b1 ++ b2)
  | _, _ => None
  end.
Proof.
  induction l1 as [|a l1 IH]; cbn [app all_rows].
  - now destruct (all_rows f l2).
  - destruct (f a) as [b|]; cbn [and_then]; [|reflexivity].
    rewrite IH. destruct (all_rows f l1) as [b1|]; cbn [and_then];
      [|reflexivity].
    now destruct (all_rows f l2).
Qed.

Lemma update_app {K V} `{Key K} (d other1 other2 : dict K V) :
  update d (other1 ++ other2) = update (update d other1) other2.
Proof. unfold update. apply fold_left_app. Qed.

(** Of the entries that are assigned one after the other, the last one of
    a key stays. *)
Lemma get_update_rev {K V} `{Key K} (other : dict K V) : forall d k,
  get (update d other) k =
  match get (rev other) k with
  | Some v => Some v
  | None => get d k
  end.
Proof.
  induction other as [|[k' v'] other IH]; intros d k; [reflexivity|].
  unfold update in *. cbn [fold_left fst snd rev].
  rewrite IH, get_app. destruct (get (rev other) k); [reflexivity|].
  cbn [get]. destruct (keyb_dec k' k) as [->|Hne].
  - rewrite keyb_refl. apply get_set_same.
  - rewrite keyb_neq by exact Hne. now apply get_set_other.
Qed.

(* ================================================================= *)
(** ** The scraper: the catalog *)

Section ScraperCatalog.

Variable fetch : string -> option page.
Variable strip : string -> string.
Variable to_int : string -> option Z.

Lemma movie_row_parsed (movie_data : catalog) (cells : list string) :
  movie_row strip to_int movie_data cells =
  match movie_of_row strip to_int cells with
  | Some (movie_id, entry) => Some (set movie_data movie_id entry)
  | None => None
  end.
Proof.
  unfold movie_row, movie_of_row.
  destruct (nth_error cells 0) as [c0|]; cbn [and_then]; [|reflexivity].
  destruct (to_int (strip c0)) as [movie_id|]; cbn [and_then]; [|reflexivity].
  destruct (nth_error cells 1) as [c1|]; cbn [and_then]; [|reflexivity].
  now destruct (nth_error cells 3) as [c3|].
Qed.

Lemma movie_rows_loop (source : list string -> Prop)
    (rows : list (list string)) : forall movie_data movie_data',
  (forall cells, In cells rows -> source cells) ->
  for_each_row (movie_row strip to_int) rows movie_data = Some movie_data' ->
  entries_from strip to_int source movie_data -> entries_from strip to_int source movie_data'.
Proof.
  induction rows as [|cells rows IH]; intros movie_data movie_data' Hsrc Hrun.
  - injection Hrun as <-. auto.
  - cbn [for_each_row] in Hrun. rewrite movie_row_parsed in Hrun.
    destruct (movie_of_row strip to_int cells) as [[movie_id entry]|] eqn:E;
      cbn [and_then] in Hrun; [|discriminate].
    intros [Hwf Hfrom].
    apply (IH _ _ (fun c Hc => Hsrc c (or_intror Hc)) Hrun).
    split; [now apply wf_set|].
    intros id e Hget. destruct (Z.eq_dec movie_id id) as [<-|Hne].
    + rewrite get_set_same in Hget. injection Hget as <-.
      exists cells. split; [apply Hsrc; now left|exact E].
    + rewrite get_set_other in Hget by exact Hne. now apply Hfrom.
Qed.

Lemma scrape_pages_entries (slug : string) (fuel : nat) :
  forall page_number movie_data movie_data',
    scrape_pages fetch strip to_int fuel slug page_number movie_data
    = Returned movie_data' ->
    entries_from strip to_int (data_row fetch slug) movie_data ->
    entries_from strip to_int (data_row fetch slug) movie_data'.
Proof.
  induction fuel as [|fuel IH]; intros page_number movie_data movie_data' Hrun.
  - cbn [scrape_pages] in Hrun.
    destruct (String.eqb page_number ""); [|discriminate].
    injection Hrun as <-. auto.
  - cbn [scrape_pages] in Hrun.
    destruct (String.eqb page_number ""); [injection Hrun as <-; auto|].
    destruct (scrape_page fetch strip to_int slug page_number movie_data)
      as [[href md1]|] eqn:Ep; [|discriminate].
    intros Hfrom. apply (IH _ _ _ Hrun).
    unfold scrape_page in Ep.
    destruct (fetch (slug ++ page_number)) as [soup|] eqn:Ef;
      cbn [and_then] in Ep; [|discriminate].
    destruct (table soup) as [rows|] eqn:Et; cbn [and_then] in Ep;
      [|discriminate].
    destruct (for_each_row (movie_row strip to_int) (tl rows) movie_data)
      as [md|] eqn:Er; cbn [and_then] in Ep; [|discriminate].
    destruct (nth_error (links soup) 1) as [[h|]|]; cbn [and_then] in Ep;
      try discriminate.
    injection Ep as <- <-.
    apply (movie_rows_loop _ _ _ _ (fun c Hc => ex_intro _ page_number
             (ex_intro _ soup (ex_intro _ rows (conj Ef (conj Et Hc))))) Er).
    exact Hfrom.
Qed.

(** X23: the catalog that [scrape_movie_info] returns holds every movie
    once, and every entry of it is the title and the genres that a row of
    the table of a page of the site gives, the row not being the first of
    the table; no entry is without a genre. *)
Theorem scrape_movie_info_entries (fuel : nat) (slug : string)
    (movie_data : catalog) :
  scrape_movie_info fetch strip to_int fuel slug = Returned movie_data ->
  wf movie_data /\
  forall movie_id title genres,
    get movie_data movie_id = Some (title, genres) ->
    genres <> [] /\
    exists cells,
      data_row fetch slug cells /\
      movie_of_row strip to_int cells = Some (movie_id, (title, genres)).
Proof.
  unfold scrape_movie_info. intros Hrun.
  apply scrape_pages_entries in Hrun as [Hwf Hfrom].
  - split; [exact Hwf|]. intros movie_id title genres Hget.
    destruct (Hfrom _ _ Hget) as (cells & Hsrc & Hrow).
    split; [|now exists cells].
    unfold movie_of_row in Hrow.
    destruct (nth_error cells 0) as [c0|]; cbn [and_then] in Hrow;
      [|discriminate].
    destruct (to_int (strip c0)); cbn [and_then] in Hrow; [|discriminate].
    destruct (nth_error cells 1) as [c1|]; cbn [and_then] in Hrow;
      [|discriminate].
    destruct (nth_error cells 3) as [c3|]; cbn [and_then] in Hrow;
      [|discriminate].
    injection Hrow as _ _ <-. unfold genres_of. intros Hnil.
    apply map_eq_nil in Hnil. now apply split_on_not_empty in Hnil.
  - split; [constructor|]. intros id e Hget. discriminate.
Qed.

(** The loop ends at a page whose second link has an empty [href]. *)
Lemma scrape_pages_last_page (slug : string) (fuel : nat) :
  forall page_number movie_data movie_data',
    scrape_pages fetch strip to_int fuel slug page_number movie_data
    = Returned movie_data' ->
    page_number <> EmptyString ->
    exists last soup,
      fetch (slug ++ last)%string = Some soup /\
      nth_error (links soup) 1 = Some (Some EmptyString).
Proof.
  induction fuel as [|fuel IH]; intros page_number movie_data movie_data' Hrun
    Hne.
  - cbn [scrape_pages] in Hrun.
    destruct (String.eqb_spec page_number ""); [contradiction|discriminate].
  - cbn [scrape_pages] in Hrun.
    destruct (String.eqb_spec page_number ""); [contradiction|].
    destruct (scrape_page fetch strip to_int slug page_number movie_data)
      as [[href md1]|] eqn:Ep; [|discriminate].
    unfold scrape_page in Ep.
    destruct (fetch (slug ++ page_number)) as [soup|] eqn:Ef;
      cbn [and_then] in Ep; [|discriminate].
    destruct (table soup) as [rows|] eqn:Et; cbn [and_then] in Ep;
      [|discriminate].
    destruct (for_each_row (movie_row strip to_int) (tl rows) movie_data)
      as [md|] eqn:Er; cbn [and_then] in Ep; [|discriminate].
    destruct (nth_error (links soup) 1) as [[h|]|] eqn:El;
      cbn [and_then] in Ep; try discriminate.
    injection Ep as <- <-.
    destruct h as [|c h].
    + exists page_number, soup. now split.
    + apply (IH _ _ _ Hrun). discriminate.
Qed.

(** [scrape_movie_info] returns only where the site has a page whose
    second link has the empty [href]; short of such a page it raises or
    goes from page to page without end. *)
Theorem scrape_movie_info_needs_last_page (fuel : nat) (slug : string)
    (movie_data : catalog) :
  scrape_movie_info fetch strip to_int fuel slug = Returned movie_data ->
  exists page_number soup,
    fetch (slug ++ page_number)%string = Some soup /\
    nth_error (links soup) 1 = Some (Some EmptyString).
Proof.
  intros Hrun. apply (scrape_pages_last_page slug fuel _ _ _ Hrun).
  discriminate.
Qed.

(** The loop over the rows assigns the entries of the rows in order. *)
Lemma movie_rows_update (rows : list (list string)) : forall movie_data,
  for_each_row (movie_row strip to_int) rows movie_data =
  match all_rows (movie_of_row strip to_int) rows with
  | Some entries => Some (update movie_data entries)
  | None => None
  end.
Proof.
  induction rows as [|cells rows IH]; intros movie_data; [reflexivity|].
  cbn [for_each_row all_rows]. rewrite movie_row_parsed.
  destruct (movie_of_row strip to_int cells) as [[movie_id entry]|];
    cbn [and_then]; [|reflexivity].
  rewrite IH.
  now destruct (all_rows (movie_of_row strip to_int) rows).
Qed.

Lemma scrape_page_spec (slug page_number : string) (movie_data : catalog)
    (href : string) (movie_data' : catalog) :
  scrape_page fetch strip to_int slug page_number movie_data
    = Some (href, movie_data') <->
  exists soup rows entries,
    fetch (slug ++ page_number)%string = Some soup /\
    table soup = Some rows /\
    nth_error (links soup) 1 = Some (Some href) /\
    all_rows (movie_of_row strip to_int) (tl rows) = Some entries /\
    movie_data' = update movie_data entries.
Proof.
  unfold scrape_page. split.
  - intros Ep.
    destruct (fetch (slug ++ page_number)) as [soup|] eqn:Ef;
      cbn [and_then] in Ep; [|discriminate].
    destruct (table soup) as [rows|] eqn:Et; cbn [and_then] in Ep;
      [|discriminate].
    rewrite movie_rows_update in Ep.
    destruct (all_rows (movie_of_row strip to_int) (tl rows)) as [entries|]
      eqn:Er; cbn [and_then] in Ep; [|discriminate].
    destruct (nth_error (links soup) 1) as [[h|]|] eqn:El;
      cbn [and_then] in Ep; try discriminate.
    injection Ep as <- <-. now exists soup, rows, entries.
  - intros (soup & rows & entries & -> & Et & El & Er & ->).
    cbn [and_then]. rewrite Et. cbn [and_then].
    rewrite movie_rows_update, Er. cbn [and_then]. rewrite El. reflexivity.
Qed.

Lemma scrape_pages_returned (slug : string) (fuel : nat) :
  forall page_number movie_data movie_data',
    scrape_pages fetch strip to_int fuel slug page_number movie_data
    = Returned movie_data' ->
    exists rows entries,
      paginated fetch slug page_number rows /\
      all_rows (movie_of_row strip to_int) rows = Some entries /\
      movie_data' = update movie_data entries.
Proof.
  induction fuel as [|fuel IH]; intros page_number movie_data movie_data' Hrun;
    cbn [scrape_pages] in Hrun;
    destruct (String.eqb_spec page_number "") as [->|Hne].
  - injection Hrun as <-. exists [], []. repeat split. constructor.
  - discriminate.
  - injection Hrun as <-. exists [], []. repeat split. constructor.
  - destruct (scrape_page fetch strip to_int slug page_number movie_data)
      as [[href md1]|] eqn:Ep; [|discriminate].
    apply scrape_page_spec in Ep
      as (soup & rows & entries & Ef & Et & El & Er & ->).
    apply IH in Hrun as (rest & entries' & Hpag & Hrest & ->).
    exists (tl rows ++ rest), (entries ++ entries'). split.
    + now apply (paginated_next fetch slug page_number soup rows href rest).
    + rewrite all_rows_app, Er, Hrest. split; [reflexivity|].
      now rewrite update_app.
Qed.

Lemma scrape_pages_returns (slug page_number : string)
    (rows : list (list string)) :
  paginated fetch slug page_number rows ->
  forall movie_data entries,
    all_rows (movie_of_row strip to_int) rows = Some entries ->
    exists enough,
      forall fuel,
        (enough <= fuel)%nat ->
        scrape_pages fetch strip to_int fuel slug page_number movie_data
        = Returned (update movie_data entries).
Proof.
  induction 1 as [|page_number soup rows href rest Hne Hf Ht Hl Hpag IH];
    intros movie_data entries Hrows.
  - injection Hrows as <-. exists 0%nat. intros fuel _.
    now destruct fuel.
  - rewrite all_rows_app in Hrows.
    destruct (all_rows (movie_of_row strip to_int) (tl rows)) as [e1|] eqn:E1;
      [|discriminate].
    destruct (all_rows (movie_of_row strip to_int) rest) as [e2|] eqn:E2;
      [|discriminate].
    injection Hrows as <-.
    destruct (IH (update movie_data e1) e2 eq_refl) as [enough Henough].
    exists (S enough). intros fuel Hfuel.
    destruct fuel as [|fuel]; [lia|]. cbn [scrape_pages].
    destruct (String.eqb_spec page_number "") as [->|_]; [congruence|].
    rewrite (proj2 (scrape_page_spec slug page_number movie_data href
                      (update movie_data e1))).
    + rewrite Henough by lia. now rewrite update_app.
    + now exists soup, rows, e1.
Qed.

(** X24: [scrape_movie_info] returns, once the loop is given enough turns,
    wherever the pages from [page_1.html] on come to an end and every row of
    their tables but the first of each gives an entry; and it returns
    nowhere else. The catalog is the one in which the entries are assigned
    in the order of the pages and rows, so that a movie that several rows
    name has the entry of the last of them. *)
Theorem scrape_movie_info_returns (slug : string) :
  (forall rows entries,
      paginated fetch slug "page_1.html" rows ->
      all_rows (movie_of_row strip to_int) rows = Some entries ->
      exists enough,
        forall fuel,
          (enough <= fuel)%nat ->
          scrape_movie_info fetch strip to_int fuel slug
          = Returned (update [] entries)) /\
  (forall fuel movie_data,
      scrape_movie_info fetch strip to_int fuel slug = Returned movie_data ->
      exists rows entries,
        paginated fetch slug "page_1.html" rows /\
        all_rows (movie_of_row strip to_int) rows = Some entries /\
        movie_data = update [] entries /\
        forall movie_id,
          get movie_data movie_id = get (rev entries) movie_id).
Proof.
  unfold scrape_movie_info. split.
  - intros rows entries Hpag Hrows.
    now apply (scrape_pages_returns slug _ rows).
  - intros fuel movie_data Hrun.
    apply scrape_pages_returned in Hrun as (rows & entries & Hpag & Hrows & ->).
    exists rows, entries. repeat split; try assumption.
    intros movie_id. rewrite get_update_rev.
    now destruct (get (rev entries) movie_id).
Qed.

End ScraperCatalog.

(** The example site: two pages, the second with an empty genre cell. *)
Example scrape_movie_info_example :
  scrape_movie_info example_site strip_blanks digits_to_int 2 "http://m/"
  = Returned
      [(1, ("Heat", ["Action"; "Crime"]));
       (2, ("Brazil (a.k.a. 1984 1/2)", ["Sci-Fi"]));
       (3, ("Untitled", [EmptyString]))]%string.
Proof. vm_compute. reflexivity. Qed.

Lemma scrape_movie_info_entries_witness :
  wf [(1, ("Heat", ["Action"; "Crime"]));
      (2, ("Brazil (a.k.a. 1984 1/2)", ["Sci-Fi"]));
      (3, ("Untitled", [EmptyString]))]%string /\
  forall movie_id title genres,
    get [(1, ("Heat", ["Action"; "Crime"]));
         (2, ("Brazil (a.k.a. 1984 1/2)", ["Sci-Fi"]));
         (3, ("Untitled", [EmptyString]))]%string movie_id
      = Some (title, genres) ->
    genres <> [] /\
    exists cells,
      data_row example_site "http://m/" cells /\
      movie_of_row strip_blanks digits_to_int cells
      = Some (movie_id, (title, genres)).
Proof.
  apply (scrape_movie_info_entries example_site strip_blanks digits_to_int 2).
  vm_compute. reflexivity.
Defined.

(** The pages of the example site come to an end after the second. *)
Lemma example_site_paginated :
  paginated example_site "http://m/" "page_1.html"
    [[" 1 "; "Heat (1995)"; "1995"; "Action, Crime"];
     ["2"; "Brazil (a.k.a. 1984 1/2) (1985)"; "1985"; "Sci-Fi"];
     ["3"; "Untitled"; EmptyString; EmptyString]]%string.
Proof.
  apply (paginated_next example_site "http://m/" "page_1.html"
           {| table := Some [["ID"; "Title"; "Year"; "Genres"];
                             [" 1 "; "Heat (1995)"; "1995"; "Action, Crime"];
                             ["2"; "Brazil (a.k.a. 1984 1/2) (1985)"; "1985";
                              "Sci-Fi"]];
              links := [Some "index.html"; Some "page_2.html"] |}%string
           [["ID"; "Title"; "Year"; "Genres"];
            [" 1 "; "Heat (1995)"; "1995"; "Action, Crime"];
            ["2"; "Brazil (a.k.a. 1984 1/2) (1985)"; "1985"; "Sci-Fi"]]%string
           "page_2.html"
           [["3"; "Untitled"; EmptyString; EmptyString]]%string);
    try reflexivity; [discriminate|].
  apply (paginated_next example_site "http://m/" "page_2.html"
           {| table := Some [["ID"; "Title"; "Year"; "Genres"];
                             ["3"; "Untitled"; EmptyString; EmptyString]];
              links := [Some "page_1.html"; Some EmptyString] |}%string
           [["ID"; "Title"; "Year"; "Genres"];
            ["3"; "Untitled"; EmptyString; EmptyString]]%string
           EmptyString []);
    try reflexivity; [discriminate|].
  apply paginated_end.
Qed.

Lemma scrape_movie_info_returns_witness :
  exists enough,
    forall fuel,
      (enough <= fuel)%nat ->
      scrape_movie_info example_site strip_blanks digits_to_int fuel "http://m/"
      = Returned
          [(1, ("Heat", ["Action"; "Crime"]));
           (2, ("Brazil (a.k.a. 1984 1/2)", ["Sci-Fi"]));
           (3, ("Untitled", [EmptyString]))]%string.
Proof.
  apply (proj1 (scrape_movie_info_returns example_site strip_blanks
                  digits_to_int "http://m/")
           _
           [(1, ("Heat", ["Action"; "Crime"]));
            (2, ("Brazil (a.k.a. 1984 1/2)", ["Sci-Fi"]));
            (3, ("Untitled", [EmptyString]))]%string
           example_site_paginated).
  vm_compute. reflexivity.
Defined.

(* ================================================================= *)
(** ** What the queries raise *)

(** X15: the two queries raise nothing but [KeyError], and only for a user
    that a store does not know: [find_similar_user_by_id] for a target
    without a profile, [make_recommendations_for_id] for a recommender or a
    recipient without raw ratings. *)
Theorem queries_raise_key_error_only set_and (self : MovieRecommender) :
  set_and_ok set_and ->
  (forall user_id e,
      find_similar_user_by_id set_and self user_id = Raise e ->
      e = KeyError /\ get (all_user_preferences self) user_id = None) /\
  (forall recommender_id recipient_id e,
      make_recommendations_for_id set_and self recommender_id recipient_id
        = Raise e ->
      e = KeyError /\
      (get (all_user_ratings self) recommender_id = None \/
       get (all_user_ratings self) recipient_id = None)).
Proof.
  intros Hok. split.
  - intros user_id e Hrun.
    destruct (get (all_user_preferences self) user_id) as [target|] eqn:Hget.
    + rewrite (find_similar_user_by_id_choose _ _ _ target Hok Hget) in Hrun.
      discriminate.
    + unfold find_similar_user_by_id in Hrun.
      rewrite (subscript_absent _ _ Hget) in Hrun. cbn [bind] in Hrun.
      injection Hrun as <-. now split.
  - intros recommender_id recipient_id e Hrun.
    unfold make_recommendations_for_id, mem, subscript in Hrun.
    destruct (get (all_user_preferences self) recipient_id) as [prefs|];
      cbn [negb bind] in Hrun; [|discriminate].
    destruct prefs as [|entry prefs];
      cbn [List.length Nat.eqb] in Hrun; [discriminate|].
    destruct (get (all_user_ratings self) recommender_id)
      as [recommender_ratings|]; cbn [bind] in Hrun.
    + destruct (get (all_user_ratings self) recipient_id)
        as [recipient_seen|]; cbn [bind] in Hrun; [discriminate|].
      injection Hrun as <-. split; [reflexivity|now right].
    + injection Hrun as <-. split; [reflexivity|now left].
Qed.

Lemma queries_raise_key_error_only_witness :
  KeyError = KeyError /\
  get (all_user_preferences example_recommender) 30 = None.
Proof.
  apply (proj1 (queries_raise_key_error_only set_and_list example_recommender
                  set_and_list_ok) 30 KeyError).
  vm_compute. reflexivity.
Defined.
